(** * mtg-proxies: decklists and print recommendation

    A shallow embedding of [scryfall/scryfall.py] (card database queries,
    print scoring, print recommendation) and of
    [mtgproxies/decklists/decklist.py] (decklist entries, formatting and the
    line parser), followed by the properties of these functions.

    Conventions.
    - Python exceptions are values of [exn]; a function that may raise
      returns a [result].
    - A character is a code point below 256 ([ascii]); a Python [str] is a
      [string].
    - A JSON value as produced by [json.load] is a [value]; floating point
      numbers are left out, so that [==] is reflexive and [x is y or x == y]
      (the test used by [list.index], [in] and [list.remove]) is [py_eq]. *)

From Stdlib Require Import Bool Ascii String List ZArith Lia.
From Stdlib Require Import Permutation Sorted DecimalString.
From Stdlib Require Decimal DecimalPos DecimalZ.
Import ListNotations.

Set Warnings "-register-all".

Local Open Scope string_scope.
Local Open Scope list_scope.
Local Open Scope Z_scope.

(* ================================================================== *)
(** * Python values and exceptions *)
(* ================================================================== *)

Module Py.

Inductive exn : Type :=
  | KeyError (key : string)
  | IndexError
  | TypeError
  | AttributeError
  | ValueError (msg : string).

Inductive result (A : Type) : Type :=
  | Ok (a : A)
  | Raise (e : exn).
Arguments Ok {A} a.
Arguments Raise {A} e.

Definition bind {A B : Type} (m : result A) (k : A -> result B) : result B :=
  match m with
  | Ok a => k a
  | Raise e => Raise e
  end.

(** [[f(x) for x in xs]]: the first exception aborts the comprehension. *)
Fixpoint map_result {A B : Type} (f : A -> result B) (xs : list A)
  : result (list B) :=
  match xs with
  | [] => Ok []
  | x :: xs' =>
      match f x with
      | Ok y =>
          match map_result f xs' with
          | Ok ys => Ok (y :: ys)
          | Raise e => Raise e
          end
      | Raise e => Raise e
      end
  end.

(** JSON values. *)
Inductive value : Type :=
  | VNone
  | VBool (b : bool)
  | VInt (n : Z)
  | VStr (s : string)
  | VList (xs : list value)
  | VDict (kvs : list (string * value)).

(** A Python [dict] with string keys, in insertion order. *)
Definition dict : Type := list (string * value).

Definition keys (d : dict) : list string := map fst d.

(** The invariant of a [dict]: no key is bound twice. *)
Definition dict_wf (d : dict) : Prop := NoDup (keys d).

Fixpoint lookup (k : string) (d : dict) : option value :=
  match d with
  | [] => None
  | (k', v) :: d' => if String.eqb k k' then Some v else lookup k d'
  end.

(** [key in d] *)
Definition has_key (k : string) (d : dict) : bool :=
  match lookup k d with
  | Some _ => true
  | None => false
  end.

(** [d[key]] *)
Definition getitem (d : dict) (k : string) : result value :=
  match lookup k d with
  | Some v => Ok v
  | None => Raise (KeyError k)
  end.

Definition Z_of_bool (b : bool) : Z := if b then 1 else 0.

(** [a == b].  [bool] is a subclass of [int], so [True == 1]; two lists
    are equal when they are equal element by element; two dicts are
    equal when they have the same keys and every item of the left one is
    bound to an equal value in the right one.  (CPython compares the
    lengths instead of the keys of the right dict; for dicts, whose keys
    are unique, the two tests agree: [PyFacts.dict_eq_length].) *)
Fixpoint py_eq (a b : value) {struct a} : bool :=
  match a, b with
  | VNone, VNone => true
  | VBool x, VBool y => Bool.eqb x y
  | VBool x, VInt y => Z_of_bool x =? y
  | VInt x, VBool y => x =? Z_of_bool y
  | VInt x, VInt y => x =? y
  | VStr x, VStr y => String.eqb x y
  | VList xs, VList ys =>
      (fix list_eq (xs ys : list value) {struct xs} : bool :=
         match xs, ys with
         | [], [] => true
         | x :: xs', y :: ys' => py_eq x y && list_eq xs' ys'
         | _, _ => false
         end) xs ys
  | VDict d1, VDict d2 =>
      forallb (fun k => has_key k d1) (keys d2) &&
      (fix items_eq (d : list (string * value)) {struct d} : bool :=
         match d with
         | [] => true
         | (k, v) :: d' =>
             match lookup k d2 with
             | Some v' => py_eq v v'
             | None => false
             end && items_eq d'
         end) d1
  | _, _ => false
  end.

(** [d1 == d2] for two dicts. *)
Definition dict_eq (d1 d2 : dict) : bool := py_eq (VDict d1) (VDict d2).

(** [bool(v)] *)
Definition truthy (v : value) : bool :=
  match v with
  | VNone => false
  | VBool b => b
  | VInt n => negb (n =? 0)
  | VStr s => negb (String.eqb s "")
  | VList xs => match xs with [] => false | _ => true end
  | VDict d => match d with [] => false | _ => true end
  end.

Definition is_substring (sub s : string) : bool :=
  match String.index 0 sub s with
  | Some _ => true
  | None => false
  end.

(** [needle in container] for a string [needle]. *)
Definition str_in (needle : string) (container : value) : result bool :=
  match container with
  | VList xs => Ok (existsb (fun item => py_eq item (VStr needle)) xs)
  | VStr s => Ok (is_substring needle s)
  | VDict d => Ok (has_key needle d)
  | VNone | VBool _ | VInt _ => Raise TypeError
  end.

Fixpoint last_char (s : string) : option ascii :=
  match s with
  | EmptyString => None
  | String c EmptyString => Some c
  | String _ s' => last_char s'
  end.

(** [v[-1]] *)
Definition getitem_last (v : value) : result value :=
  match v with
  | VStr s =>
      match last_char s with
      | Some c => Ok (VStr (String c EmptyString))
      | None => Raise IndexError
      end
  | VList xs =>
      match xs with
      | [] => Raise IndexError
      | x :: xs' => Ok (List.last xs' x)
      end
  | VDict _ => Raise (KeyError "-1")
  | VNone | VBool _ | VInt _ => Raise TypeError
  end.

(** [x in ['p', 's']] *)
Definition in_p_s (x : value) : bool :=
  py_eq (VStr "p") x || py_eq (VStr "s") x.

(** The items of [d1] are bound to equal values in [d2]. *)
Definition items_eq (d1 d2 : dict) : bool :=
  forallb (fun kv => match lookup (fst kv) d2 with
                     | Some v' => py_eq (snd kv) v'
                     | None => false
                     end) d1.

(** Two results that Python cannot tell apart with [==]. *)
Definition result_eq (r r' : result value) : Prop :=
  match r, r' with
  | Ok x, Ok y => py_eq x y = true
  | Raise e, Raise e' => e = e'
  | _, _ => False
  end.

End Py.
Export Py.

Notation "x <- m ;; k" := (Py.bind m (fun x => k))
  (at level 61, m at next level, right associativity).

(* ================================================================== *)
(** * Collaborators outside the two source files *)
(* ================================================================== *)

(** Built-ins of the Python run time whose results depend on Unicode tables
    or on the platform: [str.lower], [str.upper], [repr] of a value that is
    not a string, and [os.linesep]. *)
Class Builtins : Type := {
  str_lower : string -> string;
  str_upper : string -> string;
  repr : value -> string;
  linesep : string
}.

(** [numpy.argsort] with its default (unstable) sort: the indices of the
    list, ordered by ascending key; the order among equal keys is not
    specified. *)
Class Numpy : Type := {
  argsort : list Z -> list nat
}.

(** What the documentation of [numpy.argsort] promises: the result is a
    permutation of the indices of [keys], and the keys at these indices
    ascend. *)
Definition argsort_spec `{Numpy} : Prop :=
  forall keys,
    Permutation (argsort keys) (seq 0 (List.length keys))
    /\ StronglySorted (fun i j => nth i keys 0 <= nth j keys 0)
                      (argsort keys).

(* ================================================================== *)
(** * scryfall/scryfall.py *)
(* ================================================================== *)

Module Scryfall.

(** A card record of the bulk database. *)
Definition card : Type := dict.

(** [v.lower()]: only [str] has the method. *)
Definition lower `{Builtins} (v : value) : result string :=
  match v with
  | VStr s => Ok (str_lower s)
  | _ => Raise AttributeError
  end.

(** [[x for x in xs if p(x)]] *)
Fixpoint filter_result {A : Type} (p : A -> result bool) (xs : list A)
  : result (list A) :=
  match xs with
  | [] => Ok []
  | x :: xs' =>
      b <- p x;;
      ys <- filter_result p xs';;
      Ok (if b then x :: ys else ys)
  end.

(** [key in card and card[key].lower() == value] *)
Definition field_matches `{Builtins} (key value : string) (c : card)
  : result bool :=
  if has_key key c then
    v <- getitem c key;;
    l <- lower v;;
    Ok (String.eqb l value)
  else Ok false.

(** The body of the loop of [get_cards] for one keyword argument. *)
Definition get_cards_step `{Builtins} (cards : list card)
    (kw : string * value) : result (list card) :=
  let (key, value) := kw in
  match value with
  | VNone => Ok cards
  | _ =>
      value <- lower value;;
      filter_result (field_matches key value) cards
  end.

Fixpoint get_cards_loop `{Builtins} (cards : list card)
    (kwargs : list (string * value)) : result (list card) :=
  match kwargs with
  | [] => Ok cards
  | kw :: kwargs' =>
      cards <- get_cards_step cards kw;;
      get_cards_loop cards kwargs'
  end.

(** [get_cards(database, **kwargs)]; [db] is the list that
    [_get_database(database)] returns. *)
Definition get_cards `{Builtins} (db : list card)
    (kwargs : list (string * value)) : result (list card) :=
  let cards := db in
  get_cards_loop cards kwargs.

(** [get_card(card_name, set_id, collector_number)] *)
Definition get_card `{Builtins} (db : list card)
    (card_name set_id collector_number : value) : result (option card) :=
  cards <- get_cards db [("name", card_name); ("set", set_id);
                         ("collector_number", collector_number)];;
  Ok (match cards with
      | c :: _ => Some c
      | [] => None
      end).

(** The local function [score] of [recommend_print]. *)
Definition score (card : card) : result Z :=
  let points := 0 in
  v <- getitem card "set";;
  let points := if negb (py_eq v (VStr "mb1")) then points + 1 else points in
  v <- getitem card "frame";;
  let points := if py_eq v (VStr "2015") then points + 2 else points in
  v <- getitem card "digital";;
  let points := if negb (truthy v) then points + 4 else points in
  v <- getitem card "border_color";;
  cond <- (if py_eq v (VStr "black") then
             if negb (has_key "frame_effects" card) then Ok true
             else
               fe <- getitem card "frame_effects";;
               b <- str_in "extendedart" fe;;
               Ok (negb b)
           else Ok false);;
  let points := if cond : bool then points + 8 else points in
  v <- getitem card "collector_number";;
  l <- getitem_last v;;
  cond <- (if negb (in_p_s l) then
             v <- getitem card "nonfoil";;
             Ok (truthy v)
           else Ok false);;
  let points := if cond : bool then points + 16 else points in
  v <- getitem card "highres_image";;
  let points := if truthy v then points + 32 else points in
  v <- getitem card "lang";;
  let points := if py_eq v (VStr "en") then points + 64 else points in
  Ok points.

(** [numpy.max] of a list of integers. *)
Definition np_max (xs : list Z) : result Z :=
  match xs with
  | [] => Raise (ValueError "zero-size array to reduction operation maximum which has no identity")
  | x :: xs' => Ok (fold_left Z.max xs' x)
  end.

(** Index of the first occurrence of [m] in [xs], counted from [i]. *)
Fixpoint first_index_of (m : Z) (xs : list Z) (i : nat) : nat :=
  match xs with
  | [] => i
  | x :: xs' => if x =? m then i else first_index_of m xs' (S i)
  end.

(** [numpy.argmax]: the index of the first occurrence of the maximum. *)
Definition np_argmax (xs : list Z) : result nat :=
  match xs with
  | [] => Raise (ValueError "attempt to get argmax of an empty sequence")
  | x :: xs' => Ok (first_index_of (fold_left Z.max xs' x) xs 0)
  end.

(** [xs.index(x)] *)
Fixpoint list_index (x : card) (xs : list card) : result nat :=
  match xs with
  | [] => Raise (ValueError "x is not in list")
  | item :: xs' =>
      if dict_eq item x then Ok O
      else i <- list_index x xs';; Ok (S i)
  end.

(** [xs[i]] for [0 <= i] *)
Definition list_getitem {A : Type} (xs : list A) (i : nat) : result A :=
  match nth_error xs i with
  | Some x => Ok x
  | None => Raise IndexError
  end.

(** [x in xs] *)
Definition list_contains (x : card) (xs : list card) : bool :=
  existsb (fun item => dict_eq item x) xs.

(** [xs.remove(x)] *)
Fixpoint list_remove (x : card) (xs : list card) : result (list card) :=
  match xs with
  | [] => Raise (ValueError "list.remove(x): x not in list")
  | item :: xs' =>
      if dict_eq item x then Ok xs'
      else ys <- list_remove x xs';; Ok (item :: ys)
  end.

Definition is_none (v : value) : bool :=
  match v with
  | VNone => true
  | _ => false
  end.

(** [recommend_print(card_name, set_id, collector_number, oracle_id, mode)].
    The function returns [None], a card, or a list of cards. *)
Definition recommend_print `{Builtins} `{Numpy} (db : list card)
    (card_name set_id collector_number oracle_id : value) (mode : string)
  : result value :=
  current <- (if negb (is_none set_id) && negb (is_none collector_number)
              then get_card db card_name set_id collector_number
              else Ok None);;
  alternatives <- get_cards db [("name", card_name);
                                ("oracle_id", oracle_id)];;
  scores <- map_result score alternatives;;
  if String.eqb mode "best" then
    cond <- match current with
            | Some current =>
                i <- list_index current alternatives;;
                s <- list_getitem scores i;;
                m <- np_max scores;;
                Ok (s =? m)
            | None => Ok false
            end;;
    if cond : bool then Ok VNone
    else
      i <- np_argmax scores;;
      recommendation <- list_getitem alternatives i;;
      Ok (VDict recommendation)
  else if String.eqb mode "all" then
    recommendations <-
      map_result (list_getitem alternatives) (argsort scores);;
    let recommendations := rev recommendations in
    recommendations <-
      match current with
      | Some current =>
          recommendations <-
            (if list_contains current recommendations
             then list_remove current recommendations
             else Ok recommendations);;
          Ok (current :: recommendations)
      | None => Ok recommendations
      end;;
    Ok (VList (map VDict recommendations))
  else Ok VNone.

End Scryfall.

(* ================================================================== *)
(** * The fragment of Python's [re] that the decklist pattern uses *)
(* ================================================================== *)

Module Regex.

(** Regular expressions: literal characters, repetition of a
    one-character class with a lower bound and no upper bound (greedy as
    in [\s+] or lazy as in [.+?]), capturing groups, the greedy optional
    non-capturing group [(?:r)?], concatenation and [$]. *)
Inductive regex : Type :=
  | Eps
  | Lit (c : ascii)
  | Rep (greedy : bool) (min : nat) (cls : ascii -> bool)
  | Group (n : nat) (r : regex)
  | Opt (r : regex)
  | Seq (r1 r2 : regex)
  | Dollar.

Definition seq_of (rs : list regex) : regex := fold_right Seq Eps rs.

Definition nat_in (n : nat) (codes : list nat) : bool :=
  existsb (Nat.eqb n) codes.

(** [\s] and [str.isspace] on one character: the Unicode white space
    below code point 256. *)
Definition is_space (c : ascii) : bool :=
  nat_in (nat_of_ascii c) [9; 10; 11; 12; 13; 28; 29; 30; 31; 32; 133; 160]%nat.

(** [\S] *)
Definition is_nonspace (c : ascii) : bool := negb (is_space c).

(** [[0-9]] *)
Definition is_digit (c : ascii) : bool :=
  let n := nat_of_ascii c in (48 <=? n)%nat && (n <=? 57)%nat.

Definition newline : ascii := ascii_of_nat 10.

(** [.] without DOTALL: any character except a newline. *)
Definition is_dot (c : ascii) : bool := negb (Ascii.eqb c newline).

(** The groups that took part in a match, latest binding first. *)
Definition groups : Type := list (nat * string).

(** [m.group(n)], [None] when the group did not take part in the match. *)
Fixpoint group (n : nat) (g : groups) : option string :=
  match g with
  | [] => None
  | (n', s) :: g' => if Nat.eqb n n' then Some s else group n g'
  end.

Fixpoint take (n : nat) (s : string) : string :=
  match n, s with
  | S n', String c s' => String c (take n' s')
  | _, _ => EmptyString
  end.

(** The text between the position where [s] starts and the later
    position where [s'] starts. *)
Definition consumed (s s' : string) : string :=
  take (String.length s - String.length s') s.

(** [$] without MULTILINE: at the end of the string, or just before a
    newline that ends the string. *)
Definition at_end (s : string) : bool :=
  match s with
  | EmptyString => true
  | String c EmptyString => Ascii.eqb c newline
  | _ => false
  end.

Section Backtracking.
Context {R : Type}.

Definition or_else (a : option R) (b : option R) : option R :=
  match a with
  | Some r => Some r
  | None => b
  end.

(** Greedy repetition: take a character of the class when there is
    one and give it back only when the rest of the pattern fails. *)
Fixpoint rep_greedy (cls : ascii -> bool) (min : nat) (s : string)
    (k : string -> option R) {struct s} : option R :=
  let stop := match min with O => k s | S _ => None end in
  match s with
  | String c s' =>
      if cls c then or_else (rep_greedy cls (Nat.pred min) s' k) stop
      else stop
  | EmptyString => stop
  end.

(** Lazy repetition: once the lower bound is reached, try the rest of
    the pattern first and take one more character only when it fails. *)
Fixpoint rep_lazy (cls : ascii -> bool) (min : nat) (s : string)
    (k : string -> option R) {struct s} : option R :=
  let more :=
    match s with
    | String c s' =>
        if cls c then rep_lazy cls (Nat.pred min) s' k else None
    | EmptyString => None
    end in
  match min with
  | O => or_else (k s) more
  | S _ => more
  end.
End Backtracking.

(** The backtracking matcher, in continuation-passing style: [k] is the
    rest of the pattern, applied to the rest of the input and the groups
    bound so far. *)
Fixpoint run (r : regex) (s : string) (g : groups)
    (k : string -> groups -> option groups) {struct r} : option groups :=
  match r with
  | Eps => k s g
  | Lit c =>
      match s with
      | String c' s' => if Ascii.eqb c c' then k s' g else None
      | EmptyString => None
      end
  | Rep greedy min cls =>
      if greedy then rep_greedy cls min s (fun s' => k s' g)
      else rep_lazy cls min s (fun s' => k s' g)
  | Group n r' => run r' s g (fun s' g' => k s' ((n, consumed s s') :: g'))
  | Opt r' => or_else (run r' s g k) (k s g)
  | Seq r1 r2 => run r1 s g (fun s' g' => run r2 s' g' k)
  | Dollar => if at_end s then k s g else None
  end.

(** A match that starts at the first character of [s]. *)
Definition match_here (r : regex) (s : string) : option groups :=
  run r s [] (fun _ g => Some g).

(** [re.search(r, s)]: the match at the leftmost position that has one. *)
Fixpoint search (r : regex) (s : string) {struct s} : option groups :=
  or_else (match_here r s)
          match s with
          | String _ s' => search r s'
          | EmptyString => None
          end.

End Regex.

(* ================================================================== *)
(** * mtgproxies/decklists/sanitizing.py *)
(* ================================================================== *)

(** The two functions that [decklist.py] imports from [sanitizing.py], a
    module of the repository that is not among the sources at hand; each
    returns its result together with a list of warnings.
    [validate_card_name] returns [None] for a name it does not recognise. *)
Class Sanitizing : Type := {
  validate_card_name : string -> option string * list string;
  validate_print : string -> option string -> option string
                   -> value * list string
}.

(* ================================================================== *)
(** * mtgproxies/decklists/decklist.py *)
(* ================================================================== *)

Module Decklist.
Import Regex.

(** The classes [Card] and [Comment]. *)
Inductive entry : Type :=
  | Card (count : Z) (card : value)
  | Comment (text : string).

(** The class [Decklist]. *)
Record Decklist : Type := { entries : list entry }.

Definition append_card (self : Decklist) (count : Z) (card : value)
  : Decklist :=
  {| entries := entries self ++ [Card count card] |}.

Definition append_comment (self : Decklist) (text : string) : Decklist :=
  {| entries := entries self ++ [Comment text] |}.

(** [Card.__getitem__]: [self.card[key]] for a string [key]. *)
Definition card_getitem (card : value) (key : string) : result value :=
  match card with
  | VDict d => getitem d key
  | _ => Raise TypeError
  end.

(** [str(n)] for an integer. *)
Definition str_of_int (n : Z) : string :=
  DecimalString.NilZero.string_of_int (Z.to_int n).

(** [format(v, '')] inside an f-string. *)
Definition str_of_value `{Builtins} (v : value) : string :=
  match v with
  | VStr s => s
  | VInt n => str_of_int n
  | _ => repr v
  end.

(** [v.upper()] *)
Definition upper `{Builtins} (v : value) : result string :=
  match v with
  | VStr s => Ok (str_upper s)
  | _ => Raise AttributeError
  end.

(** [Card.__format__] *)
Definition Card_format `{Builtins} (count : Z) (card : value)
    (format_spec : string) : result string :=
  if String.eqb format_spec "text" then
    name <- card_getitem card "name";;
    Ok (str_of_int count ++ " " ++ str_of_value name)%string
  else if String.eqb format_spec "arena" then
    name <- card_getitem card "name";;
    set <- card_getitem card "set";;
    set <- upper set;;
    collector_number <- card_getitem card "collector_number";;
    Ok (str_of_int count ++ " " ++ str_of_value name ++ " (" ++ set
        ++ ") " ++ str_of_value collector_number)%string
  else Raise (ValueError ("Unkown format " ++ format_spec)%string).

(** [Comment.__format__] *)
Definition Comment_format (text : string) (format_spec : string)
  : result string :=
  Ok text.

(** [format(e, format_spec)] for an entry. *)
Definition format `{Builtins} (e : entry) (format_spec : string)
  : result string :=
  match e with
  | Card count card => Card_format count card format_spec
  | Comment text => Comment_format text format_spec
  end.

(** [sep.join(parts)] *)
Fixpoint join (sep : string) (parts : list string) : string :=
  match parts with
  | [] => ""
  | [p] => p
  | p :: ps => (p ++ sep ++ join sep ps)%string
  end.

(** [Decklist.__format__] *)
Definition Decklist_format `{Builtins} (self : Decklist)
    (format_spec : string) : result string :=
  parts <- map_result (fun e => format e format_spec) (entries self);;
  Ok (join linesep parts).

(** The property [cards]. *)
Definition cards (self : Decklist) : list entry :=
  filter (fun e => match e with Card _ _ => true | Comment _ => false end)
         (entries self).

(** The pattern of [parse_decklist_stream], as the source writes it. *)
Definition line_pattern_text : string :=
  "([0-9]+)\s+(.+?)(?:\s+\((\S*)\)\s+(\S+))?\s*$".

(** The same pattern as a [regex]. *)
Definition line_pattern : regex :=
  seq_of
    [ Group 1 (Rep true 1 is_digit);
      Rep true 1 is_space;
      Group 2 (Rep false 1 is_dot);
      Opt (seq_of
             [ Rep true 1 is_space;
               Lit "(";
               Group 3 (Rep true 0 is_nonspace);
               Lit ")";
               Rep true 1 is_space;
               Group 4 (Rep true 1 is_nonspace) ]);
      Rep true 0 is_space;
      Dollar ].

(** [int(s)] for a string of the digits [0-9]. *)
Definition int (s : string) : Z :=
  fold_left (fun acc c => 10 * acc + (Z.of_nat (nat_of_ascii c) - 48))
            (list_ascii_of_string s) 0.

Fixpoint lstrip (s : string) : string :=
  match s with
  | String c s' => if is_space c then lstrip s' else s
  | EmptyString => EmptyString
  end.

Fixpoint rstrip (s : string) : string :=
  match s with
  | String c s' =>
      match rstrip s' with
      | EmptyString => if is_space c then EmptyString else String c EmptyString
      | t => String c t
      end
  | EmptyString => EmptyString
  end.

(** [s.strip()] *)
Definition strip (s : string) : string := rstrip (lstrip s).

(** The variables of the loop of [parse_decklist_stream], and the lines
    written to standard output by [print]. *)
Record state : Type := {
  decklist : Decklist;
  ok : bool;
  stdout : list string
  }.

(** The body of the loop, for one line.  Groups 1 and 2 take part in
    every match of the pattern ([RegexFacts.search_line_pattern_groups]),
    so [m.group(1)] and [m.group(2)] are strings. *)
Definition parse_line `{Sanitizing} (st : state) (line : string) : state :=
  let m := search line_pattern line in
  match m with
  | Some m =>
      let count := int (match group 1 m with Some s => s | None => "" end) in
      let card_name := match group 2 m with Some s => s | None => "" end in
      let set_id := group 3 m in
      let collector_number := group 4 m in
      let (card_name, warnings) := validate_card_name card_name in
      let out := stdout st ++ warnings in
      match card_name with
      | None =>
          {| decklist := append_comment (decklist st) (strip line);
             ok := false;
             stdout := out |}
      | Some card_name =>
          let (card, warnings) :=
            validate_print card_name set_id collector_number in
          {| decklist := append_card (decklist st) count card;
             ok := ok st;
             stdout := out ++ warnings |}
      end
  | None =>
      {| decklist := append_comment (decklist st) (strip line);
         ok := ok st;
         stdout := stdout st |}
  end.

Definition parse_loop `{Sanitizing} (stream : list string) : state :=
  fold_left parse_line stream
            {| decklist := {| entries := [] |}; ok := true; stdout := [] |}.

(** [parse_decklist_stream(stream)]; the stream is the list of its
    lines. *)
Definition parse_decklist_stream `{Sanitizing} (stream : list string)
  : Decklist * bool :=
  let st := parse_loop stream in
  (decklist st, ok st).

End Decklist.

(* ================================================================== *)
(** * The scoring table of the specification *)
(* ================================================================== *)

Module ScoreTable.
Import Scryfall.

(** The fields of a card record that the scorer reads, with the types
    they have in the Scryfall schema; [frame_effects] is optional. *)
Record print_fields : Type := {
  set : string;
  frame : string;
  digital : bool;
  border_color : string;
  frame_effects : option (list string);
  collector_number : string;
  nonfoil : bool;
  highres_image : bool;
  lang : string
  }.

Definition get_str (c : card) (key : string) : option string :=
  match lookup key c with
  | Some (VStr s) => Some s
  | _ => None
  end.

Definition get_bool (c : card) (key : string) : option bool :=
  match lookup key c with
  | Some (VBool b) => Some b
  | _ => None
  end.

Fixpoint strings_of (xs : list value) : option (list string) :=
  match xs with
  | [] => Some []
  | VStr s :: xs' => option_map (cons s) (strings_of xs')
  | _ :: _ => None
  end.

Definition get_opt_str_list (c : card) (key : string)
  : option (option (list string)) :=
  match lookup key c with
  | None => Some None
  | Some (VList xs) => option_map Some (strings_of xs)
  | Some _ => None
  end.

Definition obind {A B : Type} (o : option A) (k : A -> option B) : option B :=
  match o with
  | Some a => k a
  | None => None
  end.

(** The typed view of a record; [None] when a field that the scorer
    reads is missing or has another type. *)
Definition fields_of (c : card) : option print_fields :=
  obind (get_str c "set") (fun v_set =>
  obind (get_str c "frame") (fun v_frame =>
  obind (get_bool c "digital") (fun v_digital =>
  obind (get_str c "border_color") (fun v_border =>
  obind (get_opt_str_list c "frame_effects") (fun v_effects =>
  obind (get_str c "collector_number") (fun v_number =>
  obind (get_bool c "nonfoil") (fun v_nonfoil =>
  obind (get_bool c "highres_image") (fun v_highres =>
  obind (get_str c "lang") (fun v_lang =>
  Some {| set := v_set; frame := v_frame; digital := v_digital;
          border_color := v_border; frame_effects := v_effects;
          collector_number := v_number; nonfoil := v_nonfoil;
          highres_image := v_highres; lang := v_lang |}))))))))).

(** The seven rows of the table. *)
Inductive criterion : Type :=
  | NotMysteryBooster
  | ModernFrame
  | NotDigital
  | BlackBorderNoExtendedArt
  | RegularNonfoil
  | HighresImage
  | English.

Definition criteria : list criterion :=
  [NotMysteryBooster; ModernFrame; NotDigital; BlackBorderNoExtendedArt;
   RegularNonfoil; HighresImage; English].

Definition weight (k : criterion) : Z :=
  match k with
  | NotMysteryBooster => 1
  | ModernFrame => 2
  | NotDigital => 4
  | BlackBorderNoExtendedArt => 8
  | RegularNonfoil => 16
  | HighresImage => 32
  | English => 64
  end.

Definition extendedart_present (effects : option (list string)) : bool :=
  match effects with
  | Some l => existsb (String.eqb "extendedart") l
  | None => false
  end.

Definition last_is_p_or_s (number : string) : bool :=
  match last_char number with
  | Some c => Ascii.eqb c "p" || Ascii.eqb c "s"
  | None => false
  end.

Definition satisfied (k : criterion) (f : print_fields) : bool :=
  match k with
  | NotMysteryBooster => negb (String.eqb (set f) "mb1")
  | ModernFrame => String.eqb (frame f) "2015"
  | NotDigital => negb (digital f)
  | BlackBorderNoExtendedArt =>
      String.eqb (border_color f) "black"
      && negb (extendedart_present (frame_effects f))
  | RegularNonfoil =>
      negb (last_is_p_or_s (collector_number f)) && nonfoil f
  | HighresImage => highres_image f
  | English => String.eqb (lang f) "en"
  end.

Definition points_for (f : print_fields) (k : criterion) : Z :=
  if satisfied k f then weight k else 0.

(** The sum of the weights of the satisfied criteria. *)
Definition tabulated_score (f : print_fields) : Z :=
  fold_right Z.add 0 (map (points_for f) criteria).

End ScoreTable.

(* ================================================================== *)
(** * The database query of the specification *)
(* ================================================================== *)

Module QuerySpec.
Import Scryfall.

(** A record passes a filter when the filter is absent, or when the
    record holds the field and its text equals the text of the filter
    without regard to case. *)
Definition passes `{Builtins} (kw : string * value) (c : card) : bool :=
  match snd kw with
  | VNone => true
  | VStr wanted =>
      match lookup (fst kw) c with
      | Some (VStr s) => String.eqb (str_lower s) (str_lower wanted)
      | _ => false
      end
  | _ => false
  end.

Definition passes_all `{Builtins} (kwargs : list (string * value))
    (c : card) : bool :=
  forallb (fun kw => passes kw c) kwargs.

(** A filter value is absent or a string. *)
Definition filter_typed (kw : string * value) : Prop :=
  snd kw = VNone \/ exists s, snd kw = VStr s.

(** In the record, the field of a filter that is present holds text
    when the record has it. *)
Definition field_typed (kw : string * value) (c : card) : Prop :=
  snd kw = VNone \/
  lookup (fst kw) c = None \/ exists s, lookup (fst kw) c = Some (VStr s).
End QuerySpec.


(* ================================================================== *)
(** * The ranking of the specification, and an [argsort] *)
(* ================================================================== *)

Module RecommendSpec.
Import Scryfall.

(** [score_le a b]: both records have a score, and the score of [a] is at
    most the score of [b]. *)
Definition score_le (a b : card) : Prop :=
  exists sa sb, score a = Ok sa /\ score b = Ok sb /\ sa <= sb.

(** A list of records in descending order of score. *)
Definition descending (l : list card) : Prop :=
  StronglySorted (fun a b => score_le b a) l.

Fixpoint insert_index (keys : list Z) (i : nat) (sorted : list nat)
  : list nat :=
  match sorted with
  | [] => [i]
  | j :: rest =>
      if nth i keys 0 <=? nth j keys 0 then i :: sorted
      else j :: insert_index keys i rest
  end.

(** An [argsort] by insertion, which keeps equal keys in index order. *)
Definition insertion_argsort (keys : list Z) : list nat :=
  fold_right (insert_index keys) [] (seq 0 (List.length keys)).

Definition insertion_numpy : Numpy := {| argsort := insertion_argsort |}.

End RecommendSpec.

(* ================================================================== *)
(** * The decklist line format of the specification *)
(* ================================================================== *)

Module LineFormat.
Import Regex.

(** The pattern of the specification, as it is written there. *)
Definition spec_pattern_text : string :=
  "^(\d+)\s+(.+?)(?:\s+\((\S+)\)\s+(\S+))?\s*$".

(** The same pattern without its leading [^]; below code point 256 the
    class [\d] is [[0-9]]. *)
Definition spec_pattern : regex :=
  seq_of
    [ Group 1 (Rep true 1 is_digit);
      Rep true 1 is_space;
      Group 2 (Rep false 1 is_dot);
      Opt (seq_of
             [ Rep true 1 is_space;
               Lit "(";
               Group 3 (Rep true 1 is_nonspace);
               Lit ")";
               Rep true 1 is_space;
               Group 4 (Rep true 1 is_nonspace) ]);
      Rep true 0 is_space;
      Dollar ].

(** A search for the anchored pattern: [^] holds only where the line
    starts. *)
Definition spec_search (line : string) : option groups :=
  match_here spec_pattern line.

Fixpoint all_chars (p : ascii -> bool) (s : string) : bool :=
  match s with
  | EmptyString => true
  | String c s' => p c && all_chars p s'
  end.

(** What it means for a pattern to match, without the search order:
    [matches r s s' g g'] holds when [r] can match the text between the
    start of [s] and the start of its suffix [s'], extending the groups
    [g] to [g']. *)
Inductive matches : regex -> string -> string -> groups -> groups -> Prop :=
  | M_Eps s g : matches Eps s s g g
  | M_Lit c s g : matches (Lit c) (String c s) s g g
  | M_Rep greedy min cls p s g :
    all_chars cls p = true ->
    (min <= String.length p)%nat ->
    matches (Rep greedy min cls) (p ++ s) s g g
  | M_Group n r s s' g g' :
    matches r s s' g g' ->
    matches (Group n r) s s' g ((n, consumed s s') :: g')
  | M_Opt_some r s s' g g' :
    matches r s s' g g' -> matches (Opt r) s s' g g'
  | M_Opt_none r s g : matches (Opt r) s s g g
  | M_Seq r1 r2 s s1 s2 g g1 g2 :
    matches r1 s s1 g g1 -> matches r2 s1 s2 g1 g2 ->
    matches (Seq r1 r2) s s2 g g2
  | M_Dollar s g : at_end s = true -> matches Dollar s s g g.

(** [r] matches some part of [s] that starts where [t] starts. *)
Definition matches_from (r : regex) (t : string) (g : groups) : Prop :=
  exists s', matches r t s' [] g.

(** What the groups of a match of the pattern of the parser hold: group 1
    is a non-empty string of digits, group 2 a non-empty string without a
    newline; groups 3 and 4 are both absent, or group 3 is a string
    without white space, possibly empty, and group 4 a non-empty string
    without white space. *)
Definition card_line_groups (g : groups) : Prop :=
  exists count name,
    group 1 g = Some count
    /\ all_chars is_digit count = true /\ (1 <= String.length count)%nat
    /\ group 2 g = Some name
    /\ all_chars is_dot name = true /\ (1 <= String.length name)%nat
    /\ ((group 3 g = None /\ group 4 g = None)
        \/ exists set_id number,
             group 3 g = Some set_id /\ group 4 g = Some number
             /\ all_chars is_nonspace set_id = true
             /\ all_chars is_nonspace number = true
             /\ (1 <= String.length number)%nat).

End LineFormat.

(* ================================================================== *)
(** * The entries of a decklist, line by line *)
(* ================================================================== *)

Module DecklistSpec.
Import Regex Decklist.

Definition is_comment (e : entry) : Prop :=
  match e with
  | Comment _ => True
  | Card _ _ => False
  end.

Definition text_of (e : entry) : string :=
  match e with
  | Comment text => text
  | Card _ _ => ""
  end.

(** The entry that [parse_line] appends for a line. *)
Definition line_entry `{Sanitizing} (line : string) : entry :=
  match search line_pattern line with
  | Some m =>
      match fst (validate_card_name
                   (match group 2 m with Some s => s | None => "" end)) with
      | Some name =>
          Card (int (match group 1 m with Some s => s | None => "" end))
               (fst (validate_print name (group 3 m) (group 4 m)))
      | None => Comment (strip line)
      end
  | None => Comment (strip line)
  end.

(** Whether [parse_line] leaves the flag [ok] as it is. *)
Definition line_ok `{Sanitizing} (line : string) : bool :=
  match search line_pattern line with
  | Some m =>
      match fst (validate_card_name
                   (match group 2 m with Some s => s | None => "" end)) with
      | Some _ => true
      | None => false
      end
  | None => true
  end.

End DecklistSpec.

(* ================================================================== *)
(** * Sample data *)
(* ================================================================== *)

Module Samples.
Import Scryfall Decklist.

Definition ascii_lower (c : ascii) : ascii :=
  let n := nat_of_ascii c in
  if (65 <=? n)%nat && (n <=? 90)%nat then ascii_of_nat (n + 32) else c.

Definition ascii_upper (c : ascii) : ascii :=
  let n := nat_of_ascii c in
  if (97 <=? n)%nat && (n <=? 122)%nat then ascii_of_nat (n - 32) else c.

Fixpoint map_string (f : ascii -> ascii) (s : string) : string :=
  match s with
  | EmptyString => EmptyString
  | String c s' => String (f c) (map_string f s')
  end.

(** The built-ins restricted to ASCII text, with Unix line ends. *)
Definition ascii_builtins : Builtins :=
  {| str_lower := map_string ascii_lower;
     str_upper := map_string ascii_upper;
     repr := fun v => match v with
                      | VNone => "None"
                      | VBool true => "True"
                      | VBool false => "False"
                      | _ => "..."
                      end;
     linesep := String (ascii_of_nat 10) EmptyString |}.

Definition make_card (name oracle set_code number frame border lang : string)
    (digital nonfoil highres : bool) (effects : list string) : card :=
  [ ("name", VStr name); ("oracle_id", VStr oracle);
    ("set", VStr set_code); ("collector_number", VStr number);
    ("frame", VStr frame); ("border_color", VStr border);
    ("lang", VStr lang); ("digital", VBool digital);
    ("nonfoil", VBool nonfoil); ("highres_image", VBool highres);
    ("frame_effects", VList (map VStr effects)) ].

(** The card of the example of the specification. *)
Definition card_A : card :=
  [ ("set", VStr "mb1"); ("frame", VStr "2015"); ("digital", VBool false);
    ("border_color", VStr "black"); ("frame_effects", VList []);
    ("collector_number", VStr "123"); ("nonfoil", VBool true);
    ("highres_image", VBool true); ("lang", VStr "en") ].

(** The same print in a set other than the mystery booster. *)
Definition card_A_rna : card :=
  [ ("set", VStr "rna"); ("frame", VStr "2015"); ("digital", VBool false);
    ("border_color", VStr "black"); ("frame_effects", VList []);
    ("collector_number", VStr "123"); ("nonfoil", VBool true);
    ("highres_image", VBool true); ("lang", VStr "en") ].

Definition crypt_rna : card :=
  make_card "Blood Crypt" "o-crypt" "rna" "245" "2015" "black" "en"
            false true true [].
Definition crypt_rtr : card :=
  make_card "Blood Crypt" "o-crypt" "rtr" "238" "2003" "black" "en"
            false true true [].
Definition crypt_promo : card :=
  make_card "Blood Crypt" "o-crypt" "prna" "245p" "2015" "black" "en"
            false false true [].
Definition crypt_digital : card :=
  make_card "Blood Crypt" "o-crypt" "vma" "7" "2015" "black" "en"
            true true false [].
Definition forest : card :=
  make_card "Forest" "o-forest" "m21" "313" "2015" "black" "en"
            false true true [].

Definition sample_db : list card :=
  [crypt_rtr; crypt_promo; crypt_rna; crypt_digital; forest].

(** A sanitizer that knows the names of [sample_db] and resolves each of
    them to one record of that name. *)
Definition sample_sanitizing : Sanitizing :=
  {| validate_card_name := fun name =>
       if String.eqb name "Blood Crypt" || String.eqb name "Forest"
       then (Some name, [])
       else (None, ["Unable to find card " ++ name]%string);
     validate_print := fun name set_id collector_number =>
       (if String.eqb name "Forest" then VDict forest else VDict crypt_rna,
        []) |}.

End Samples.

(* ================================================================== *)
(** * scryfall/scryfall.py: image files and paginated results *)
(* ================================================================== *)

(** [get_file(file_name, url)]: the path of the cached copy of [url],
    downloaded first when the cache has no file of that name.  It works
    on the file system and the network and is a parameter here. *)
Class FileCache : Type := {
  get_file : string -> string -> result string
}.

(** What can go wrong in a request, beside the exceptions of [exn]. *)
Inductive failure : Type :=
| PyError (e : exn)
| AssertionError
| RequestError (reason : string)
| RecursionError.

Inductive outcome (A : Type) : Type :=
| Return (a : A)
| Failure (f : failure).
Arguments Return {A} a.
Arguments Failure {A} f.

(** [requests.get(url).json()]: the decoded body of the response, or the
    exception that [requests] raises. *)
Class Http : Type := {
  get_json : value -> outcome value
}.

Module ScryfallApi.
Import Scryfall.

(** [s.split(sep)] for a separator of one character. *)
Fixpoint split (sep : ascii) (s : string) : list string :=
  match s with
  | EmptyString => [EmptyString]
  | String c s' =>
      if Ascii.eqb c sep then EmptyString :: split sep s'
      else
        match split sep s' with
        | part :: parts => String c part :: parts
        | [] => [String c EmptyString]
        end
  end.

(** [xs[-k]] for [1 <= k] *)
Definition list_getitem_neg {A : Type} (xs : list A) (k : nat) : result A :=
  if (k <=? List.length xs)%nat then list_getitem xs (List.length xs - k)
  else Raise IndexError.

(** The first two statements of [get_image]: the name of the cached
    file. *)
Definition image_file_name (image_uri : string) : result string :=
  let split := split "/" image_uri in
  size <- list_getitem_neg split 5;;
  face <- list_getitem_neg split 4;;
  last <- list_getitem_neg split 1;;
  file <- list_getitem (ScryfallApi.split "?" last) 0;;
  Ok (size ++ "_" ++ face ++ "_" ++ file)%string.

(** [get_image(image_uri)] *)
Definition get_image `{FileCache} (image_uri : string) : result string :=
  file_name <- image_file_name image_uri;;
  get_file file_name image_uri.

Definition obind {A B : Type} (m : outcome A) (k : A -> outcome B)
  : outcome B :=
  match m with
  | Return a => k a
  | Failure f => Failure f
  end.

Definition lift {A : Type} (r : result A) : outcome A :=
  match r with
  | Ok a => Return a
  | Raise e => Failure (PyError e)
  end.

(** [v[key]] for a string [key]: only a dict can be indexed by a
    string. *)
Definition subscript (v : value) (key : string) : result value :=
  match v with
  | VDict d => getitem d key
  | _ => Raise TypeError
  end.

(** [a + b] *)
Definition py_add (a b : value) : result value :=
  match a, b with
  | VList xs, VList ys => Ok (VList (xs ++ ys))
  | VStr x, VStr y => Ok (VStr (x ++ y))
  | VInt x, VInt y => Ok (VInt (x + y))
  | VInt x, VBool y => Ok (VInt (x + Z_of_bool y))
  | VBool x, VInt y => Ok (VInt (Z_of_bool x + y))
  | VBool x, VBool y => Ok (VInt (Z_of_bool x + Z_of_bool y))
  | _, _ => Raise TypeError
  end.

(** [depaginate(url)].  The result comes with the URLs requested, in the
    order of the requests; [depth] is the number of nested calls that
    the interpreter still allows.  [rate_limit] only delays a request. *)
Fixpoint depaginate `{Http} (depth : nat) (url : value)
  : list value * outcome value :=
  match depth with
  | O => ([], Failure RecursionError)
  | S depth' =>
      match get_json url with
      | Failure f => ([url], Failure f)
      | Return response =>
          match subscript response "object" with
          | Raise e => ([url], Failure (PyError e))
          | Ok object =>
              if negb (truthy object) then ([url], Failure AssertionError)
              else
                match str_in "data" response with
                | Raise e => ([url], Failure (PyError e))
                | Ok false => ([url], Return (VList []))
                | Ok true =>
                    match subscript response "data" with
                    | Raise e => ([url], Failure (PyError e))
                    | Ok data =>
                        match subscript response "has_more" with
                        | Raise e => ([url], Failure (PyError e))
                        | Ok has_more =>
                            if truthy has_more then
                              match subscript response "next_page" with
                              | Raise e => ([url], Failure (PyError e))
                              | Ok next_page =>
                                  let (requests, rest) :=
                                    depaginate depth' next_page in
                                  (url :: requests,
                                   obind rest (fun rest =>
                                     lift (py_add data rest)))
                              end
                            else ([url], Return data)
                        end
                    end
                end
          end
      end
  end.

(** [search(q, include_extras, include_multilingual, unique)] *)
Definition search `{Http} (depth : nat)
    (q include_extras include_multilingual unique : string)
  : list value * outcome value :=
  depaginate depth
    (VStr ("https://api.scryfall.com/cards/search?q=" ++ q
           ++ "&format=json&include_extras=" ++ include_extras
           ++ "&include_multilingual=" ++ include_multilingual
           ++ "&unique=" ++ unique)%string).

End ScryfallApi.

(* ================================================================== *)
(** * mtgproxies/decklists/decklist.py: images and totals *)
(* ================================================================== *)

Module DecklistViews.
Import Decklist.

(** [v[0]] *)
Definition getitem_first (v : value) : result value :=
  match v with
  | VStr s =>
      match s with
      | String c _ => Ok (VStr (String c EmptyString))
      | EmptyString => Raise IndexError
      end
  | VList xs =>
      match xs with
      | x :: _ => Ok x
      | [] => Raise IndexError
      end
  | VDict _ => Raise (KeyError "0")
  | VNone | VBool _ | VInt _ => Raise TypeError
  end.

(** The values that [for x in v] goes through. *)
Definition iterate (v : value) : result (list value) :=
  match v with
  | VList xs => Ok xs
  | VStr s =>
      Ok (map (fun c => VStr (String c EmptyString)) (list_ascii_of_string s))
  | VDict d => Ok (map VStr (keys d))
  | VNone | VBool _ | VInt _ => Raise TypeError
  end.

(** The property [Card.image_uris]. *)
Definition image_uris `{Builtins} (card : value) : result (list value) :=
  single <- str_in "image_uris" card;;
  if single : bool then
    uris <- card_getitem card "image_uris";;
    Ok [uris]
  else
    cond <- (has_faces <- str_in "card_faces" card;;
             if has_faces : bool then
               faces <- card_getitem card "card_faces";;
               first <- getitem_first faces;;
               str_in "image_uris" first
             else Ok false);;
    if cond : bool then
      faces <- card_getitem card "card_faces";;
      faces <- iterate faces;;
      map_result (fun face => card_getitem face "image_uris") faces
    else
      layout <- card_getitem card "layout";;
      Raise (ValueError ("Unknown layout " ++ str_of_value layout)%string).

Definition count_of (e : entry) : Z :=
  match e with
  | Card count _ => count
  | Comment _ => 0
  end.

(** The property [total_count]: the sum of the counts of the cards. *)
Definition total_count (self : Decklist) : Z :=
  fold_left Z.add (map count_of (cards self)) 0.

(** The property [total_count_unique] *)
Definition total_count_unique (self : Decklist) : nat :=
  List.length (cards self).

End DecklistViews.

(* ================================================================== *)
(** * Specifications of the further properties *)
(* ================================================================== *)

Module ScoreBits.
Import Scryfall ScoreTable.

(** The fields that [score] reads. *)
Definition score_keys : list string :=
  ["set"; "frame"; "digital"; "border_color"; "frame_effects";
   "collector_number"; "nonfoil"; "highres_image"; "lang"].

(** The position of the bit of a criterion in the score. *)
Definition bit (k : criterion) : Z :=
  match k with
  | NotMysteryBooster => 0
  | ModernFrame => 1
  | NotDigital => 2
  | BlackBorderNoExtendedArt => 3
  | RegularNonfoil => 4
  | HighresImage => 5
  | English => 6
  end.

End ScoreBits.

Module ApiSpec.
Import Scryfall ScryfallApi LineFormat.

(** The characters of [s] other than [sep]. *)
Definition free_of (sep : ascii) (s : string) : bool :=
  all_chars (fun c => negb (Ascii.eqb c sep)) s.

(** [pages url urls data]: the responses starting at [url] form a finite
    chain of result pages; [urls] are the URLs of the pages and [data] is
    the concatenation of their [data] lists.  The chain ends at a page
    whose [has_more] is false or that has no [data]. *)
Inductive pages `{Http} : value -> list value -> list value -> Prop :=
| pages_last url d object data has_more :
    get_json url = Return (VDict d) ->
    lookup "object" d = Some object -> truthy object = true ->
    lookup "data" d = Some (VList data) ->
    lookup "has_more" d = Some has_more -> truthy has_more = false ->
    pages url [url] data
| pages_empty url d object :
    get_json url = Return (VDict d) ->
    lookup "object" d = Some object -> truthy object = true ->
    lookup "data" d = None ->
    pages url [url] []
| pages_more url d object data has_more next_page urls rest :
    get_json url = Return (VDict d) ->
    lookup "object" d = Some object -> truthy object = true ->
    lookup "data" d = Some (VList data) ->
    lookup "has_more" d = Some has_more -> truthy has_more = true ->
    lookup "next_page" d = Some next_page ->
    pages next_page urls rest ->
    pages url (url :: urls) (data ++ rest).

(** [broken url urls f]: the responses starting at [url] lead, through
    pages that announce a next page, to a request that fails with [f] or
    to a response whose [object] is false. *)
Inductive broken `{Http} : value -> list value -> failure -> Prop :=
| broken_request url f :
    get_json url = Failure f ->
    broken url [url] f
| broken_object url d object :
    get_json url = Return (VDict d) ->
    lookup "object" d = Some object -> truthy object = false ->
    broken url [url] AssertionError
| broken_later url d object data has_more next_page urls f :
    get_json url = Return (VDict d) ->
    lookup "object" d = Some object -> truthy object = true ->
    lookup "data" d = Some data ->
    lookup "has_more" d = Some has_more -> truthy has_more = true ->
    lookup "next_page" d = Some next_page ->
    broken next_page urls f ->
    broken url (url :: urls) f.

End ApiSpec.

Module EntrySpec.
Import Decklist.

Definition is_card (e : entry) : bool :=
  match e with
  | Card _ _ => true
  | Comment _ => false
  end.

End EntrySpec.

Module StringSpec.

(** [s] is empty or starts with a character outside [cls]. *)
Definition starts_outside (cls : ascii -> bool) (s : string) : Prop :=
  match s with
  | EmptyString => True
  | String c _ => cls c = false
  end.

(** [s] is empty or ends with a character outside [cls]. *)
Definition ends_outside (cls : ascii -> bool) (s : string) : Prop :=
  match last_char s with
  | Some c => cls c = false
  | None => True
  end.

End StringSpec.

Module IntSpec.
Import Decimal.

(** The number that a string of decimal digits denotes, continuing from
    [acc]. *)
Fixpoint uint_value (d : uint) (acc : Z) : Z :=
  match d with
  | Nil => acc
  | D0 d => uint_value d (10 * acc)
  | D1 d => uint_value d (10 * acc + 1)
  | D2 d => uint_value d (10 * acc + 2)
  | D3 d => uint_value d (10 * acc + 3)
  | D4 d => uint_value d (10 * acc + 4)
  | D5 d => uint_value d (10 * acc + 5)
  | D6 d => uint_value d (10 * acc + 6)
  | D7 d => uint_value d (10 * acc + 7)
  | D8 d => uint_value d (10 * acc + 8)
  | D9 d => uint_value d (10 * acc + 9)
  end.

Definition int_step (acc : Z) (c : ascii) : Z :=
  10 * acc + (Z.of_nat (nat_of_ascii c) - 48).

End IntSpec.

Module RoundTripSpec.
Import Regex LineFormat.

Definition first_char (s : string) : option ascii :=
  match s with
  | String c _ => Some c
  | EmptyString => None
  end.

(** A name that the parser reads back from a formatted line: on one
    line, starting and ending with a character that is not white
    space. *)
Definition plain_name (name : string) : Prop :=
  all_chars is_dot name = true
  /\ (exists c, first_char name = Some c /\ is_space c = false)
  /\ (exists c, last_char name = Some c /\ is_space c = false).

(** Any character but an opening parenthesis. *)
Definition no_paren (c : ascii) : bool := negb (Ascii.eqb c "(").

(** A set code or a collector number: without white space. *)
Definition word (s : string) : Prop := all_chars is_nonspace s = true.

(** What the body of the loop of [parse_decklist_stream] does with a
    line once the pattern has given the count, the name, the set and
    the collector number. *)
Definition enter_card `{Sanitizing} (st : Decklist.state)
    (line : string) (count : Z) (name : string)
    (set_id collector_number : option string) : Decklist.state :=
  let (card_name, warnings) := validate_card_name name in
  match card_name with
  | None =>
      {| Decklist.decklist :=
           Decklist.append_comment (Decklist.decklist st)
                                   (Decklist.strip line);
         Decklist.ok := false;
         Decklist.stdout := Decklist.stdout st ++ warnings |}
  | Some card_name =>
      let (card, warnings') :=
        validate_print card_name set_id collector_number in
      {| Decklist.decklist :=
           Decklist.append_card (Decklist.decklist st) count card;
         Decklist.ok := Decklist.ok st;
         Decklist.stdout :=
           (Decklist.stdout st ++ warnings) ++ warnings' |}
  end.

(** An entry that reading back the arena format restores: a card whose
    name, set and collector number the pattern finds again and the
    sanitizer resolves to the same record, or a comment that is not a
    card line and has no white space around it.  [trail] is what ends a
    line of the stream. *)
Definition restored `{Builtins} `{Sanitizing} (trail : string)
    (e : Decklist.entry) : Prop :=
  match e with
  | Decklist.Card count card =>
      0 <= count
      /\ exists name set_id number name',
           Decklist.card_getitem card "name" = Ok (VStr name)
           /\ Decklist.card_getitem card "set" = Ok (VStr set_id)
           /\ Decklist.card_getitem card "collector_number"
              = Ok (VStr number)
           /\ plain_name name /\ word (str_upper set_id)
           /\ word number /\ number <> ""
           /\ fst (validate_card_name name) = Some name'
           /\ fst (validate_print name' (Some (str_upper set_id))
                                  (Some number)) = card
  | Decklist.Comment text =>
      Regex.search Decklist.line_pattern (text ++ trail) = None
      /\ Decklist.strip (text ++ trail) = text
  end.

Definition final : string -> groups -> option groups := fun _ g => Some g.

Definition line_end : regex := Seq (Rep true 0 is_space) (Seq Dollar Eps).

Definition set_suffix : regex :=
  seq_of [ Rep true 1 is_space; Lit "("; Group 3 (Rep true 0 is_nonspace);
           Lit ")"; Rep true 1 is_space; Group 4 (Rep true 1 is_nonspace) ].


Definition tail_pattern : regex := Seq (Opt set_suffix) line_end.

End RoundTripSpec.

Module MoreSamples.
Import Scryfall Decklist ScryfallApi.

(** A card of the transform layout: the images belong to the faces. *)
Definition two_faced : card :=
  [ ("name", VStr "Delver of Secrets // Insectile Aberration");
    ("layout", VStr "transform");
    ("card_faces",
     VList [ VDict [("name", VStr "Delver of Secrets");
                    ("image_uris", VDict [("png", VStr "front.png")])];
             VDict [("name", VStr "Insectile Aberration");
                    ("image_uris", VDict [("png", VStr "back.png")])] ]) ].

Definition page_1 : string :=
  "https://api.scryfall.com/cards/search?q=crypt&page=1".

Definition page_2 : string :=
  "https://api.scryfall.com/cards/search?q=crypt&page=2".

(** A server with one search whose result has two pages. *)
Definition sample_http : Http :=
  {| get_json := fun url =>
       match url with
       | VStr u =>
           if String.eqb u page_1 then
             Return (VDict [ ("object", VStr "list");
                             ("has_more", VBool true);
                             ("next_page", VStr page_2);
                             ("data", VList [VDict Samples.crypt_rtr;
                                             VDict Samples.crypt_promo]) ])
           else if String.eqb u page_2 then
             Return (VDict [ ("object", VStr "list");
                             ("has_more", VBool false);
                             ("data", VList [VDict Samples.crypt_rna]) ])
           else Failure (RequestError "404")
       | _ => Failure (RequestError "invalid URL")
       end |}.

(** The same server when the request for the second page fails. *)
Definition failing_http : Http :=
  {| get_json := fun url =>
       match url with
       | VStr u =>
           if String.eqb u page_1 then get_json (Http := sample_http) url
           else Failure (RequestError "503")
       | _ => Failure (RequestError "invalid URL")
       end |}.

(** A cache that holds every file. *)
Definition sample_cache : FileCache :=
  {| get_file := fun file_name url =>
       Ok ("/tmp/scryfall_cache/" ++ file_name)%string |}.

(** The variables of the loop of the parser before the first line. *)
Definition start : state :=
  {| decklist := {| entries := [] |}; ok := true; stdout := [] |}.

Definition end_of_line : string := String (ascii_of_nat 10) EmptyString.

(** A decklist as the parser gives it for [Samples.sample_sanitizing]. *)
Definition sample_decklist : Decklist :=
  {| entries := [ Card 4 (VDict Samples.crypt_rna);
                  Comment "// Lands";
                  Card 1 (VDict Samples.forest) ] |}.

End MoreSamples.

(* ================================================================== *)
(** * Facts about Python values *)
(* ================================================================== *)

Module PyFacts.

Lemma lookup_has_key k d : has_key k d = true <-> In k (keys d).
Proof.
  unfold has_key. induction d as [|[k' v] d IH]; simpl.
  - split; [discriminate | tauto].
  - destruct (String.eqb_spec k k') as [->|Hne].
    + split; auto.
    + rewrite IH. split; [auto | intros [Heq|Hin]; [congruence | exact Hin]].
Qed.

Lemma lookup_None_keys k d : lookup k d = None <-> ~ In k (keys d).
Proof.
  rewrite <- lookup_has_key. unfold has_key.
  destruct (lookup k d); split; intros; try congruence; auto.
Qed.

Lemma lookup_In k v d : lookup k d = Some v -> In (k, v) d.
Proof.
  induction d as [|[k' v'] d IH]; simpl; [discriminate|].
  destruct (String.eqb_spec k k') as [->|Hne].
  - intros [= ->]; auto.
  - auto.
Qed.

Lemma dict_eq_unfold d1 d2 :
  dict_eq d1 d2 = forallb (fun k => has_key k d1) (keys d2) && items_eq d1 d2.
Proof.
  unfold dict_eq; simpl. f_equal.
  unfold items_eq. induction d1 as [|[k v] d1 IH]; simpl; [reflexivity|].
  now rewrite IH.
Qed.

Lemma dict_eq_lookup d1 d2 k v :
  dict_eq d1 d2 = true -> lookup k d1 = Some v ->
  exists v', lookup k d2 = Some v' /\ py_eq v v' = true.
Proof.
  rewrite dict_eq_unfold, andb_true_iff. intros [_ Hitems] Hk.
  unfold items_eq in Hitems. rewrite forallb_forall in Hitems.
  specialize (Hitems _ (lookup_In _ _ _ Hk)). simpl in Hitems.
  destruct (lookup k d2) as [v'|]; [eauto | discriminate].
Qed.

Lemma dict_eq_lookup_None d1 d2 k :
  dict_eq d1 d2 = true -> lookup k d1 = None -> lookup k d2 = None.
Proof.
  rewrite dict_eq_unfold, andb_true_iff. intros [Hkeys _] Hk.
  rewrite forallb_forall in Hkeys.
  apply lookup_None_keys. intros Hin.
  specialize (Hkeys _ Hin). unfold has_key in Hkeys.
  now rewrite Hk in Hkeys.
Qed.

Lemma dict_eq_has_key d1 d2 k :
  dict_eq d1 d2 = true -> has_key k d1 = has_key k d2.
Proof.
  intros H. unfold has_key. destruct (lookup k d1) as [v|] eqn:E.
  - destruct (dict_eq_lookup _ _ _ _ H E) as (v' & -> & _). reflexivity.
  - now rewrite (dict_eq_lookup_None _ _ _ H E).
Qed.

Lemma items_eq_incl d1 d2 :
  items_eq d1 d2 = true -> incl (keys d1) (keys d2).
Proof.
  unfold items_eq. rewrite forallb_forall. intros Hitems k Hk.
  apply in_map_iff in Hk. destruct Hk as ([k' v] & <- & Hin).
  specialize (Hitems _ Hin). simpl in *.
  apply lookup_has_key. unfold has_key.
  now destruct (lookup k' d2).
Qed.

(** For dicts, whose keys are unique, [dict_eq] is the test of CPython:
    the same number of items, and every item of the left dict bound to an
    equal value in the right one. *)
Lemma dict_eq_length d1 d2 :
  dict_wf d1 -> dict_wf d2 ->
  dict_eq d1 d2
  = Nat.eqb (List.length d1) (List.length d2) && items_eq d1 d2.
Proof.
  unfold dict_wf. intros Hwf1 Hwf2. rewrite dict_eq_unfold.
  destruct (items_eq d1 d2) eqn:Hitems; [|now rewrite !andb_false_r].
  rewrite !andb_true_r. apply items_eq_incl in Hitems.
  rewrite <- (length_map fst d1), <- (length_map fst d2).
  fold (keys d1) (keys d2).
  apply eq_iff_eq_true. rewrite forallb_forall, Nat.eqb_eq. split.
  - intros Hkeys.
    assert (Hincl : incl (keys d2) (keys d1))
      by (intros k Hk; now apply lookup_has_key, Hkeys).
    apply Nat.le_antisymm; now apply NoDup_incl_length.
  - intros Hlen k Hk. apply lookup_has_key.
    refine (NoDup_length_incl Hwf1 _ Hitems k Hk). lia.
Qed.

Lemma py_eq_VStr_r v s : py_eq v (VStr s) = true -> v = VStr s.
Proof.
  destruct v; simpl; try discriminate.
  intros H. apply String.eqb_eq in H. now subst.
Qed.

Lemma py_eq_VStr_l v s : py_eq (VStr s) v = true -> v = VStr s.
Proof.
  destruct v; simpl; try discriminate.
  intros H. apply String.eqb_eq in H. now subst.
Qed.

Lemma py_eq_str_cases v v' :
  py_eq v v' = true ->
  (exists s, v = VStr s /\ v' = VStr s) \/
  ((forall s, v <> VStr s) /\ (forall s, v' <> VStr s)).
Proof.
  intros H. destruct v; try (right; split; [congruence|];
    destruct v'; simpl in H; try discriminate; try congruence;
    try (destruct xs; discriminate)).
  left. apply py_eq_VStr_l in H. eauto.
Qed.

Lemma py_eq_cong_str v v' s :
  py_eq v v' = true -> py_eq v (VStr s) = py_eq v' (VStr s).
Proof.
  intros H. destruct (py_eq_str_cases _ _ H) as [(s0 & -> & ->)|[Hv Hv']].
  - reflexivity.
  - destruct (py_eq v (VStr s)) eqn:E1.
    + apply py_eq_VStr_r in E1. now apply Hv in E1.
    + destruct (py_eq v' (VStr s)) eqn:E2; [|reflexivity].
      apply py_eq_VStr_r in E2. now apply Hv' in E2.
Qed.

Lemma py_eq_cong_str_l v v' s :
  py_eq v v' = true -> py_eq (VStr s) v = py_eq (VStr s) v'.
Proof.
  intros H. destruct (py_eq_str_cases _ _ H) as [(s0 & -> & ->)|[Hv Hv']].
  - reflexivity.
  - destruct (py_eq (VStr s) v) eqn:E1.
    + apply py_eq_VStr_l in E1. now apply Hv in E1.
    + destruct (py_eq (VStr s) v') eqn:E2; [|reflexivity].
      apply py_eq_VStr_l in E2. now apply Hv' in E2.
Qed.

Lemma py_eq_VList xs ys :
  py_eq (VList xs) (VList ys) = true <->
  Forall2 (fun x y => py_eq x y = true) xs ys.
Proof.
  revert ys. induction xs as [|x xs IH]; intros [|y ys]; simpl;
    try (split; [discriminate | intros H; inversion H]).
  - split; constructor.
  - rewrite andb_true_iff. split.
    + intros [Hx Hxs]. constructor; [exact Hx|]. apply IH. exact Hxs.
    + intros H. inversion H; subst. split; [assumption|]. now apply IH.
Qed.

Lemma truthy_eq v v' : py_eq v v' = true -> truthy v = truthy v'.
Proof.
  intros H. destruct v, v'; try discriminate; simpl.
  - reflexivity.
  - now apply Bool.eqb_prop.
  - simpl in H. apply Z.eqb_eq in H. subst. now destruct b.
  - simpl in H. apply Z.eqb_eq in H. subst. now destruct b.
  - simpl in H. apply Z.eqb_eq in H. now subst.
  - simpl in H. apply String.eqb_eq in H. now subst.
  - destruct xs, xs0; try discriminate; reflexivity.
  - change (dict_eq kvs kvs0 = true) in H. destruct kvs as [|[k v] d1].
    + rewrite dict_eq_unfold, andb_true_iff in H. destruct H as [H _].
      destruct kvs0 as [|[k' v'] d2]; [reflexivity|]. discriminate.
    + destruct (dict_eq_lookup _ _ k v H) as (v' & Hv' & _).
      { simpl. now rewrite String.eqb_refl. }
      destruct kvs0; [discriminate | reflexivity].
Qed.

Lemma str_in_eq s v v' : py_eq v v' = true -> str_in s v = str_in s v'.
Proof.
  intros H. destruct v, v'; try discriminate; try reflexivity.
  - apply py_eq_VStr_l in H. congruence.
  - apply py_eq_VList in H. simpl. f_equal.
    induction H as [|x y xs ys Hxy _ IH]; simpl; [reflexivity|].
    now rewrite IH, (py_eq_cong_str _ _ s Hxy).
  - simpl. f_equal. now apply dict_eq_has_key.
Qed.

Lemma getitem_eq a b k :
  dict_eq a b = true -> result_eq (getitem a k) (getitem b k).
Proof.
  intros H. unfold getitem. destruct (lookup k a) as [v|] eqn:E.
  - destruct (dict_eq_lookup _ _ _ _ H E) as (v' & -> & Hv). exact Hv.
  - now rewrite (dict_eq_lookup_None _ _ _ H E).
Qed.

Lemma last_Forall2 {A B} (R : A -> B -> Prop) xs ys x y :
  Forall2 R xs ys -> R x y -> R (List.last xs x) (List.last ys y).
Proof.
  intros H. revert x y. induction H as [|x' y' xs ys Hxy Hrest IH];
    intros x y Hd; simpl; [exact Hd|].
  destruct Hrest; [exact Hxy|]. apply IH. exact Hd.
Qed.

Lemma getitem_last_eq v v' :
  py_eq v v' = true -> result_eq (getitem_last v) (getitem_last v').
Proof.
  intros H. destruct v, v'; try discriminate; simpl; try reflexivity.
  - apply py_eq_VStr_l in H. injection H as ->.
    destruct (last_char s); simpl; [now rewrite Ascii.eqb_refl | reflexivity].
  - apply py_eq_VList in H. destruct H as [|x y xs ys Hxy Hrest]; simpl.
    + reflexivity.
    + apply (last_Forall2 (fun x y => py_eq x y = true)); assumption.
Qed.

Lemma in_p_s_eq v v' : py_eq v v' = true -> in_p_s v = in_p_s v'.
Proof.
  intros H. unfold in_p_s.
  now rewrite (py_eq_cong_str_l _ _ "p" H), (py_eq_cong_str_l _ _ "s" H).
Qed.

End PyFacts.

(* ================================================================== *)
(** * The print scorer *)
(* ================================================================== *)

Module ScoreFacts.
Import Scryfall PyFacts ScoreTable.

(** Read the field [k] of two equal records [a] and [b]: both reads
    raise the same exception, or give equal values (hypothesis [Hv]). *)
Ltac field a b k Hab Hv :=
  let Ha := fresh "Ha" in let Hb := fresh "Hb" in
  let v := fresh "v" in let v' := fresh "v'" in
  pose proof (getitem_eq a b k Hab) as Hv;
  destruct (getitem a k) as [v|] eqn:Ha, (getitem b k) as [v'|] eqn:Hb;
  simpl in Hv; try contradiction;
  [ cbn [bind] | now rewrite Hv ].

(** Equal records have the same score, or fail to score the same way. *)
Lemma score_dict_eq a b : dict_eq a b = true -> score a = score b.
Proof.
  intros Hab. unfold score.
  field a b "set" Hab Hset. rewrite (py_eq_cong_str _ _ "mb1" Hset).
  field a b "frame" Hab Hframe. rewrite (py_eq_cong_str _ _ "2015" Hframe).
  field a b "digital" Hab Hdig. rewrite (truthy_eq _ _ Hdig).
  field a b "border_color" Hab Hbc. rewrite (py_eq_cong_str _ _ "black" Hbc).
  rewrite (dict_eq_has_key _ _ "frame_effects" Hab).
  assert (Hfe : (fe <- getitem a "frame_effects";;
                 b0 <- str_in "extendedart" fe;; Ok (negb b0))
              = (fe <- getitem b "frame_effects";;
                 b0 <- str_in "extendedart" fe;; Ok (negb b0))).
  { field a b "frame_effects" Hab Hv.
    now rewrite (str_in_eq "extendedart" _ _ Hv). }
  rewrite Hfe. clear Hfe.
  match goal with
  | |- bind ?c _ = bind ?c _ => destruct c as [cond|]; [|reflexivity]
  end.
  cbn [bind].
  field a b "collector_number" Hab Hcn.
  pose proof (getitem_last_eq _ _ Hcn) as Hl.
  match type of Hl with
  | result_eq ?x ?y => destruct x as [l|], y as [l'|]
  end; simpl in Hl; try contradiction; [cbn [bind] | now rewrite Hl].
  rewrite (in_p_s_eq _ _ Hl).
  assert (Hnf : (v <- getitem a "nonfoil";; Ok (truthy v))
              = (v <- getitem b "nonfoil";; Ok (truthy v))).
  { field a b "nonfoil" Hab Hv. now rewrite (truthy_eq _ _ Hv). }
  rewrite Hnf. clear Hnf.
  match goal with
  | |- bind ?c _ = bind ?c _ => destruct c as [cond'|]; [|reflexivity]
  end.
  cbn [bind].
  field a b "highres_image" Hab Hhi. rewrite (truthy_eq _ _ Hhi).
  field a b "lang" Hab Hlang. rewrite (py_eq_cong_str _ _ "en" Hlang).
  reflexivity.
Qed.

Lemma get_str_getitem c k s :
  get_str c k = Some s -> getitem c k = Ok (VStr s).
Proof.
  unfold get_str, getitem. destruct (lookup k c) as [[]|]; congruence.
Qed.

Lemma get_bool_getitem c k b :
  get_bool c k = Some b -> getitem c k = Ok (VBool b).
Proof.
  unfold get_bool, getitem. destruct (lookup k c) as [[]|]; congruence.
Qed.

Lemma strings_of_existsb s xs l :
  strings_of xs = Some l ->
  existsb (fun item => py_eq item (VStr s)) xs = existsb (String.eqb s) l.
Proof.
  revert l. induction xs as [|x xs IH]; simpl; intros l H.
  - injection H as <-. reflexivity.
  - destruct x; try discriminate. destruct (strings_of xs) as [l'|];
      [|discriminate]. injection H as <-. simpl.
    now rewrite (IH l' eq_refl), String.eqb_sym.
Qed.

(** The test of the fourth row, as the code evaluates it. *)
Lemma frame_effects_test c effects :
  get_opt_str_list c "frame_effects" = Some effects ->
  (if negb (has_key "frame_effects" c) then Ok true
   else fe <- getitem c "frame_effects";;
        b <- str_in "extendedart" fe;; Ok (negb b))
  = Ok (negb (extendedart_present effects)).
Proof.
  unfold get_opt_str_list, has_key, getitem.
  destruct (lookup "frame_effects" c) as [v|].
  - destruct v; try discriminate.
    destruct (strings_of xs) as [l|] eqn:E; [|discriminate].
    intros [= <-]. simpl. now rewrite (strings_of_existsb _ _ _ E).
  - intros [= <-]. reflexivity.
Qed.

Lemma last_char_None s : last_char s = None -> s = "".
Proof.
  induction s as [|a s IH]; [reflexivity|]. simpl.
  destruct s; [discriminate|]. intros H. specialize (IH H). discriminate.
Qed.

Lemma eqb_single a b :
  String.eqb (String a "") (String b "") = Ascii.eqb a b.
Proof. simpl. now destruct (Ascii.eqb a b). Qed.

(** The test of the fifth row, as the code evaluates it. *)
Lemma collector_number_test number :
  number <> "" ->
  exists l, getitem_last (VStr number) = Ok l /\
            in_p_s l = last_is_p_or_s number.
Proof.
  intros Hne. unfold last_is_p_or_s, getitem_last.
  destruct (last_char number) as [ch|] eqn:E.
  - eexists; split; [reflexivity|]. unfold in_p_s.
    change (py_eq (VStr "p") (VStr (String ch "")))
      with (String.eqb (String "p" "") (String ch "")).
    change (py_eq (VStr "s") (VStr (String ch "")))
      with (String.eqb (String "s" "") (String ch "")).
    now rewrite !eqb_single, (Ascii.eqb_sym ch "p"), (Ascii.eqb_sym ch "s").
  - now apply last_char_None in E.
Qed.

Lemma score_fields c f :
  fields_of c = Some f -> collector_number f <> "" ->
  score c = Ok (tabulated_score f).
Proof.
  unfold fields_of, obind. intros H Hne.
  destruct (get_str c "set") as [v_set|] eqn:Eset; [|discriminate].
  destruct (get_str c "frame") as [v_frame|] eqn:Eframe; [|discriminate].
  destruct (get_bool c "digital") as [v_dig|] eqn:Edig; [|discriminate].
  destruct (get_str c "border_color") as [v_bc|] eqn:Ebc; [|discriminate].
  destruct (get_opt_str_list c "frame_effects") as [v_fe|] eqn:Efe;
    [|discriminate].
  destruct (get_str c "collector_number") as [v_cn|] eqn:Ecn; [|discriminate].
  destruct (get_bool c "nonfoil") as [v_nf|] eqn:Enf; [|discriminate].
  destruct (get_bool c "highres_image") as [v_hi|] eqn:Ehi; [|discriminate].
  destruct (get_str c "lang") as [v_lang|] eqn:Elang; [|discriminate].
  injection H as <-. simpl in Hne.
  destruct (collector_number_test _ Hne) as (l & Hl & Hps).
  unfold score.
  rewrite (frame_effects_test _ _ Efe).
  rewrite (get_str_getitem _ _ _ Eset), (get_str_getitem _ _ _ Eframe),
    (get_bool_getitem _ _ _ Edig), (get_str_getitem _ _ _ Ebc),
    (get_str_getitem _ _ _ Ecn), (get_bool_getitem _ _ _ Enf),
    (get_bool_getitem _ _ _ Ehi), (get_str_getitem _ _ _ Elang).
  cbn [bind]. rewrite Hl. cbn [bind]. rewrite Hps.
  unfold tabulated_score, points_for, criteria, satisfied. cbn [map fold_right weight].
  cbn [set frame digital border_color frame_effects collector_number nonfoil
       highres_image lang py_eq truthy].
  destruct (String.eqb v_set "mb1"), (String.eqb v_frame "2015"), v_dig,
    (String.eqb v_bc "black"), (extendedart_present v_fe),
    (last_is_p_or_s v_cn), v_nf, v_hi, (String.eqb v_lang "en");
    reflexivity.
Qed.

Lemma tabulated_score_sum f :
  tabulated_score f =
    (if negb (String.eqb (set f) "mb1") then 1 else 0)
    + (if String.eqb (frame f) "2015" then 2 else 0)
    + (if negb (digital f) then 4 else 0)
    + (if String.eqb (border_color f) "black"
          && negb (extendedart_present (frame_effects f)) then 8 else 0)
    + (if negb (last_is_p_or_s (collector_number f)) && nonfoil f
       then 16 else 0)
    + (if highres_image f then 32 else 0)
    + (if String.eqb (lang f) "en" then 64 else 0).
Proof.
  unfold tabulated_score, points_for, criteria, satisfied.
  cbn [map fold_right weight]. lia.
Qed.

(** Whatever the record holds, a score is a sum of some of the seven
    weights. *)
Lemma score_range c n : score c = Ok n -> 0 <= n <= 127.
Proof.
  unfold score.
  repeat match goal with
         | |- bind ?m _ = Ok _ -> _ =>
             destruct m; cbn [bind]; [|discriminate]
         end.
  intros [= <-].
  repeat match goal with
         | |- context [if ?b then _ else _] => destruct b
         end; lia.
Qed.

(** C1.  For a record that holds the fields of the table with their
    types, and whose collector number is not empty, the score is the sum
    of the weights of the satisfied criteria: 1 when [set] is not "mb1",
    2 when [frame] is "2015", 4 when [digital] is false, 8 when
    [border_color] is "black" and "extendedart" is not among the
    [frame_effects], 16 when the last character of [collector_number] is
    neither 'p' nor 's' and [nonfoil] is true, 32 when [highres_image] is
    true, 64 when [lang] is "en".  The score is not negative and is a
    function of these fields alone; the example card of the
    specification scores 126. *)
Theorem score_is_tabulated_sum (c : card) (f : print_fields) :
  fields_of c = Some f ->
  collector_number f <> "" ->
  score c = Ok (tabulated_score f)
  /\ tabulated_score f =
       (if negb (String.eqb (set f) "mb1") then 1 else 0)
       + (if String.eqb (frame f) "2015" then 2 else 0)
       + (if negb (digital f) then 4 else 0)
       + (if String.eqb (border_color f) "black"
             && negb (extendedart_present (frame_effects f)) then 8 else 0)
       + (if negb (last_is_p_or_s (collector_number f)) && nonfoil f
          then 16 else 0)
       + (if highres_image f then 32 else 0)
       + (if String.eqb (lang f) "en" then 64 else 0)
  /\ 0 <= tabulated_score f
  /\ score Samples.card_A = Ok 126.
Proof.
  intros Hf Hne. pose proof (score_fields c f Hf Hne) as Hs.
  repeat split.
  - exact Hs.
  - apply tabulated_score_sum.
  - apply (score_range c). exact Hs.
Qed.

Lemma score_is_tabulated_sum_witness :
  score Samples.card_A = Ok 126.
Proof.
  destruct (score_is_tabulated_sum Samples.card_A
              {| set := "mb1"; frame := "2015"; digital := false;
                 border_color := "black"; frame_effects := Some [];
                 collector_number := "123"; nonfoil := true;
                 highres_image := true; lang := "en" |}
              eq_refl ltac:(discriminate)) as (Hs & _).
  exact Hs.
Defined.

(** C9.  When one criterion is unsatisfied by a record and satisfied by
    another, and every other criterion has the same truth value on both,
    the score of the second is the score of the first plus the weight of
    that criterion, which is positive. *)
Theorem score_axis_monotone (c c' : card) (f f' : print_fields)
    (k : criterion) :
  fields_of c = Some f -> collector_number f <> "" ->
  fields_of c' = Some f' -> collector_number f' <> "" ->
  satisfied k f = false ->
  satisfied k f' = true ->
  (forall j, j <> k -> satisfied j f' = satisfied j f) ->
  exists n, score c = Ok n /\ score c' = Ok (n + weight k)
            /\ 0 < weight k
            /\ In (weight k) [1; 2; 4; 8; 16; 32; 64].
Proof.
  intros Hf Hne Hf' Hne' Hk Hk' Hothers.
  exists (tabulated_score f).
  rewrite (score_fields _ _ Hf Hne), (score_fields _ _ Hf' Hne').
  split; [reflexivity|]. split.
  - f_equal. unfold tabulated_score, points_for, criteria.
    cbn [map fold_right].
    destruct k; rewrite Hk, Hk';
      repeat (rewrite Hothers by discriminate); cbn [weight]; lia.
  - destruct k; cbn; intuition lia.
Qed.

Lemma score_axis_monotone_witness :
  exists n, score Samples.card_A = Ok n
            /\ score Samples.card_A_rna = Ok (n + 1).
Proof.
  destruct (score_axis_monotone Samples.card_A Samples.card_A_rna
              {| set := "mb1"; frame := "2015"; digital := false;
                 border_color := "black"; frame_effects := Some [];
                 collector_number := "123"; nonfoil := true;
                 highres_image := true; lang := "en" |}
              {| set := "rna"; frame := "2015"; digital := false;
                 border_color := "black"; frame_effects := Some [];
                 collector_number := "123"; nonfoil := true;
                 highres_image := true; lang := "en" |}
              NotMysteryBooster
              eq_refl ltac:(discriminate) eq_refl ltac:(discriminate)
              eq_refl eq_refl
              ltac:(intros [] Hj; try reflexivity; now elim Hj))
    as (n & H1 & H2 & _).
  exists n. split; [exact H1 | exact H2].
Defined.

End ScoreFacts.

(* ================================================================== *)
(** * The card database *)
(* ================================================================== *)

Module QueryFacts.
Import Scryfall QuerySpec.

Section Query.
Context `{Builtins}.

Lemma filter_result_sound {A} (p : A -> result bool) (q : A -> bool) xs ys :
  (forall x b, In x xs -> p x = Ok b -> b = q x) ->
  filter_result p xs = Ok ys -> ys = filter q xs.
Proof.
  revert ys. induction xs as [|x xs IH]; simpl; intros ys Hp.
  - now intros [= <-].
  - destruct (p x) as [b|] eqn:Ep; [|discriminate]. cbn [bind].
    destruct (filter_result p xs) as [zs|]; [|discriminate]. cbn [bind].
    intros [= <-]. rewrite <- (Hp x b (or_introl eq_refl) Ep).
    rewrite (IH zs); [reflexivity | | reflexivity].
    intros x' b' Hin. apply Hp. now right.
Qed.

Lemma filter_result_total {A} (p : A -> result bool) xs :
  (forall x, In x xs -> exists b, p x = Ok b) ->
  exists ys, filter_result p xs = Ok ys.
Proof.
  induction xs as [|x xs IH]; simpl; intros Hp; [eauto|].
  destruct (Hp x (or_introl eq_refl)) as [b ->]. cbn [bind].
  destruct IH as [ys ->]; [intros; apply Hp; now right|].
  cbn [bind]. eauto.
Qed.

Lemma field_matches_sound key wanted c b :
  field_matches key (str_lower wanted) c = Ok b ->
  b = passes (key, VStr wanted) c.
Proof.
  unfold field_matches, passes, has_key, getitem, lower. simpl.
  destruct (lookup key c) as [v|]; [|now intros [= <-]].
  cbn [bind]. destruct v; cbn [bind]; try discriminate.
  now intros [= <-].
Qed.

Lemma get_cards_step_sound cards kw cards' :
  get_cards_step cards kw = Ok cards' ->
  cards' = filter (passes kw) cards.
Proof.
  destruct kw as [key v]. unfold get_cards_step, lower.
  destruct v; cbn [bind]; try discriminate.
  - intros [= <-]. unfold passes; simpl.
    induction cards as [|c cs IH]; simpl; congruence.
  - apply filter_result_sound. intros c b _.
    apply field_matches_sound.
Qed.

Lemma filter_filter {A} (f g : A -> bool) l :
  filter f (filter g l) = filter (fun x => g x && f x) l.
Proof.
  induction l as [|x l IH]; simpl; [reflexivity|].
  destruct (g x); simpl; [destruct (f x)|]; now rewrite IH.
Qed.

Lemma get_cards_loop_sound kwargs cards cards' :
  get_cards_loop cards kwargs = Ok cards' ->
  cards' = filter (passes_all kwargs) cards.
Proof.
  revert cards. induction kwargs as [|kw kwargs IH]; intros cards.
  - simpl. intros [= <-]. induction cards; simpl; congruence.
  - cbn [get_cards_loop].
    destruct (get_cards_step cards kw) as [cs|] eqn:E; [|discriminate].
    cbn [bind]. intros Hloop. apply IH in Hloop.
    apply get_cards_step_sound in E. subst.
    now rewrite filter_filter.
Qed.

(** Whenever [get_cards] returns, it returns the records that pass
    every filter, in the order of the database. *)
Lemma get_cards_sound db kwargs cards :
  get_cards db kwargs = Ok cards ->
  cards = filter (passes_all kwargs) db.
Proof. apply get_cards_loop_sound. Qed.

Lemma get_cards_step_total cards kw :
  filter_typed kw -> Forall (field_typed kw) cards ->
  exists cards', get_cards_step cards kw = Ok cards'.
Proof.
  destruct kw as [key v]. unfold filter_typed, field_typed. simpl.
  intros [->|[s ->]] Hcards; [simpl; eauto|].
  unfold get_cards_step, lower. cbn [bind].
  apply filter_result_total. intros c Hc.
  rewrite Forall_forall in Hcards.
  unfold field_matches, has_key, getitem, lower.
  destruct (Hcards c Hc) as [?|[->|[s' ->]]];
    [discriminate | eauto | cbn [bind]; eauto].
Qed.

Lemma get_cards_loop_total kwargs cards :
  Forall filter_typed kwargs ->
  Forall (fun c => Forall (fun kw => field_typed kw c) kwargs) cards ->
  exists cards', get_cards_loop cards kwargs = Ok cards'.
Proof.
  revert cards. induction kwargs as [|kw kwargs IH]; intros cards Hk Hc.
  - simpl; eauto.
  - inversion Hk as [|? ? Hkw Hrest]; subst. cbn [get_cards_loop].
    destruct (get_cards_step_total cards kw Hkw) as [cs Hcs].
    { rewrite Forall_forall in *. intros c Hin.
      specialize (Hc c Hin). now inversion Hc. }
    rewrite Hcs. cbn [bind]. apply IH; [assumption|].
    apply get_cards_step_sound in Hcs. subst cs.
    rewrite Forall_forall in *. intros c Hin.
    apply filter_In in Hin. destruct Hin as [Hin _].
    specialize (Hc c Hin). now inversion Hc.
Qed.

Lemma get_card_head db name set_id number cards :
  get_cards db [("name", name); ("set", set_id);
                ("collector_number", number)] = Ok cards ->
  get_card db name set_id number = Ok (hd_error cards).
Proof.
  unfold get_card. intros ->. cbn [bind]. now destruct cards.
Qed.

(** C5.  When every filter value is absent or a string, and the records
    hold text in the filtered fields they have, [get_cards] returns the
    records of the database that pass every filter that is not absent:
    those that hold the filtered field with a text equal, without
    regard to case, to the text of the filter; a record without the
    field is left out.  When no record passes, the result is the empty
    list and nothing is raised; [get_card] returns the first record of
    that result, and [None] when it is empty. *)
Theorem get_cards_exact (db : list card) (kwargs : list (string * value)) :
  Forall filter_typed kwargs ->
  Forall (fun c => Forall (fun kw => field_typed kw c) kwargs) db ->
  get_cards db kwargs = Ok (filter (passes_all kwargs) db)
  /\ (forall c, In c (filter (passes_all kwargs) db) <->
                In c db /\
                forall key wanted, In (key, VStr wanted) kwargs ->
                  exists s, lookup key c = Some (VStr s) /\
                            str_lower s = str_lower wanted)
  /\ (filter (passes_all kwargs) db = [] -> get_cards db kwargs = Ok [])
  /\ (forall name set_id number,
        kwargs = [("name", name); ("set", set_id);
                  ("collector_number", number)] ->
        get_card db name set_id number
        = Ok (hd_error (filter (passes_all kwargs) db))).
Proof.
  intros Hk Hdb.
  assert (Hget : get_cards db kwargs = Ok (filter (passes_all kwargs) db)).
  { destruct (get_cards_loop_total kwargs db Hk Hdb) as [cards Hc].
    unfold get_cards. rewrite Hc. f_equal.
    now apply get_cards_loop_sound. }
  split; [exact Hget|]. split; [|split].
  - intros c. rewrite filter_In. unfold passes_all.
    rewrite forallb_forall. split; intros [Hin Hpass]; (split; [exact Hin|]).
    + intros key wanted Hkw. specialize (Hpass _ Hkw).
      unfold passes in Hpass. simpl in Hpass.
      destruct (lookup key c) as [[]|]; try discriminate.
      apply String.eqb_eq in Hpass. eauto.
    + intros [key v] Hkw. unfold passes. simpl.
      rewrite Forall_forall in Hk.
      destruct (Hk _ Hkw) as [Hv|[s Hv]]; simpl in Hv; subst v;
        [reflexivity|].
      destruct (Hpass _ _ Hkw) as (s' & -> & Heq).
      now apply String.eqb_eq.
  - intros Hnil. now rewrite Hget, Hnil.
  - intros name set_id number ->. now apply get_card_head.
Qed.
End Query.

Ltac typed_filters :=
  repeat (apply Forall_cons || apply Forall_nil);
  solve [ left; reflexivity
        | right; left; reflexivity
        | right; eexists; reflexivity
        | right; right; eexists; reflexivity ].

Lemma get_cards_exact_witness :
  get_cards (H := Samples.ascii_builtins) Samples.sample_db
    [("name", VStr "blood crypt"); ("set", VStr "RNA");
     ("collector_number", VNone)]
  = Ok [Samples.crypt_rna]
  /\ get_card (H := Samples.ascii_builtins) Samples.sample_db
       (VStr "blood crypt") (VStr "RNA") VNone
     = Ok (Some Samples.crypt_rna).
Proof.
  destruct (get_cards_exact (H := Samples.ascii_builtins) Samples.sample_db
              [("name", VStr "blood crypt"); ("set", VStr "RNA");
               ("collector_number", VNone)]
              ltac:(typed_filters) ltac:(typed_filters))
    as (Hget & _ & _ & Hcard).
  split; [exact Hget | exact (Hcard _ _ _ eq_refl)].
Defined.

End QueryFacts.

(* ================================================================== *)
(** * Lists, maxima and permutations *)
(* ================================================================== *)

Module ListFacts.

Lemma map_result_Forall2 {A B} (f : A -> result B) xs ys :
  map_result f xs = Ok ys -> Forall2 (fun x y => f x = Ok y) xs ys.
Proof.
  revert ys. induction xs as [|x xs IH]; simpl; intros ys.
  - intros [= <-]. constructor.
  - destruct (f x) as [y|] eqn:E; [|discriminate].
    destruct (map_result f xs) as [ys'|]; [|discriminate].
    intros [= <-]. constructor; auto.
Qed.

Lemma map_result_total {A B} (f : A -> result B) xs :
  Forall (fun x => exists y, f x = Ok y) xs ->
  exists ys, map_result f xs = Ok ys.
Proof.
  induction 1 as [|x xs [y Hy] _ [ys Hys]]; simpl; [eauto|].
  rewrite Hy, Hys. eauto.
Qed.

Lemma Forall2_nth_error_l {A B} (R : A -> B -> Prop) xs ys i x :
  Forall2 R xs ys -> nth_error xs i = Some x ->
  exists y, nth_error ys i = Some y /\ R x y.
Proof.
  intros H. revert i. induction H as [|x' y' xs ys Hxy _ IH]; intros [|i];
    simpl; try discriminate.
  - intros [= <-]. eauto.
  - apply IH.
Qed.

Lemma Forall2_nth_error_r {A B} (R : A -> B -> Prop) xs ys i y :
  Forall2 R xs ys -> nth_error ys i = Some y ->
  exists x, nth_error xs i = Some x /\ R x y.
Proof.
  intros H. revert i. induction H as [|x' y' xs ys Hxy _ IH]; intros [|i];
    simpl; try discriminate.
  - intros [= <-]. eauto.
  - apply IH.
Qed.

Lemma Forall2_In_l {A B} (R : A -> B -> Prop) xs ys x :
  Forall2 R xs ys -> In x xs -> exists y, In y ys /\ R x y.
Proof.
  induction 1 as [|x' y' xs ys Hxy _ IH]; simpl; [tauto|].
  intros [<-|Hin]; [eauto|]. destruct (IH Hin) as (y & ? & ?). eauto.
Qed.

Lemma fold_max_ge xs : forall x,
  x <= fold_left Z.max xs x /\ Forall (fun y => y <= fold_left Z.max xs x) xs.
Proof.
  induction xs as [|y xs IH]; simpl; intros x.
  - split; [lia | constructor].
  - destruct (IH (Z.max x y)) as [H1 H2]. split; [lia|].
    constructor; [lia | exact H2].
Qed.

Lemma fold_max_In xs : forall x, In (fold_left Z.max xs x) (x :: xs).
Proof.
  induction xs as [|y xs IH]; simpl; intros x; [auto|].
  destruct (IH (Z.max x y)) as [H|H]; [|auto].
  rewrite <- H. destruct (Z.max_spec x y) as [[_ ->]|[_ ->]]; auto.
Qed.

Lemma first_index_of_spec m xs : forall i,
  In m xs ->
  exists j, Scryfall.first_index_of m xs i = (i + j)%nat
            /\ nth_error xs j = Some m.
Proof.
  induction xs as [|x xs IH]; simpl; intros i; [tauto|].
  intros Hin. destruct (Z.eqb_spec x m) as [->|Hne].
  - exists O. split; [lia | reflexivity].
  - destruct Hin as [?|Hin]; [contradiction|].
    destruct (IH (S i) Hin) as (j & -> & Hj).
    exists (S j). split; [lia | exact Hj].
Qed.

Lemma map_nth_error_seq {A} (l : list A) :
  map (nth_error l) (seq 0 (List.length l)) = map Some l.
Proof.
  induction l as [|a l IH]; [reflexivity|].
  cbn [List.length seq map nth_error]. f_equal.
  rewrite <- seq_shift, map_map. exact IH.
Qed.

Lemma map_Some_inj {A} (l l' : list A) : map Some l = map Some l' -> l = l'.
Proof.
  revert l'. induction l as [|a l IH]; intros [|a' l']; simpl;
    try discriminate; [reflexivity|].
  intros [= -> H]. f_equal. now apply IH.
Qed.

(** Indexing a list by a permutation of its indices gives a permutation
    of the list. *)
Lemma getitems_permutation {A} (l : list A) idxs :
  Permutation idxs (seq 0 (List.length l)) ->
  exists l', map_result (Scryfall.list_getitem l) idxs = Ok l'
             /\ Forall2 (fun i a => nth_error l i = Some a) idxs l'
             /\ Permutation l' l.
Proof.
  intros Hperm.
  assert (Hex : exists l', map_result (Scryfall.list_getitem l) idxs = Ok l').
  { apply map_result_total. rewrite Forall_forall. intros i Hi.
    apply (Permutation_in _ Hperm), in_seq in Hi.
    unfold Scryfall.list_getitem.
    destruct (nth_error l i) eqn:E; [eauto|].
    apply nth_error_None in E. lia. }
  destruct Hex as [l' Hl']. exists l'. split; [exact Hl'|].
  assert (HF : Forall2 (fun i a => nth_error l i = Some a) idxs l').
  { apply map_result_Forall2 in Hl'. revert Hl'. apply Forall2_impl.
    intros i a. unfold Scryfall.list_getitem.
    destruct (nth_error l i); congruence. }
  split; [exact HF|].
  assert (Hmap : map (nth_error l) idxs = map Some l').
  { clear -HF. induction HF; simpl; congruence. }
  pose proof (Permutation_map (nth_error l) Hperm) as Hp.
  rewrite Hmap, map_nth_error_seq in Hp.
  apply Permutation_map_inv in Hp. destruct Hp as (l3 & Heq & Hp).
  apply map_Some_inj in Heq. subst. now apply Permutation_sym.
Qed.

Lemma StronglySorted_Forall2 {A B} (R1 : A -> A -> Prop)
    (R2 : B -> B -> Prop) (P : A -> B -> Prop) xs ys :
  Forall2 P xs ys ->
  (forall x x' y y', P x y -> P x' y' -> R1 x x' -> R2 y y') ->
  StronglySorted R1 xs -> StronglySorted R2 ys.
Proof.
  intros HF Hrel. induction HF as [|x y xs ys Hxy HF IH]; intros Hs.
  - constructor.
  - apply StronglySorted_inv in Hs. destruct Hs as [Hs Hx].
    constructor; [now apply IH|].
    clear IH Hs. induction HF as [|x' y' xs ys Hxy' _ IH]; [constructor|].
    inversion Hx; subst. constructor; eauto.
Qed.

Lemma StronglySorted_snoc {A} (R : A -> A -> Prop) l a :
  StronglySorted R l -> Forall (fun x => R x a) l ->
  StronglySorted R (l ++ [a]).
Proof.
  induction 1 as [|x l Hs IH Hx]; intros Ha; simpl.
  - repeat constructor.
  - inversion Ha; subst. constructor; [now apply IH|].
    apply Forall_app. split; [assumption | now constructor].
Qed.

Lemma StronglySorted_rev {A} (R : A -> A -> Prop) l :
  StronglySorted R l -> StronglySorted (fun a b => R b a) (rev l).
Proof.
  induction 1 as [|x l Hs IH Hx]; simpl; [constructor|].
  apply StronglySorted_snoc; [exact IH|]. now apply Forall_rev.
Qed.

Lemma StronglySorted_remove_middle {A} (R : A -> A -> Prop) l1 c l2 :
  StronglySorted R (l1 ++ c :: l2) -> StronglySorted R (l1 ++ l2).
Proof.
  induction l1 as [|x l1 IH]; simpl; intros Hs.
  - now apply StronglySorted_inv in Hs.
  - apply StronglySorted_inv in Hs. destruct Hs as [Hs Hx].
    constructor; [now apply IH|].
    apply Forall_app in Hx. destruct Hx as [H1 H2].
    apply Forall_app. split; [exact H1 | now inversion H2].
Qed.

Lemma existsb_Permutation {A} (f : A -> bool) l l' :
  Permutation l l' -> existsb f l = existsb f l'.
Proof.
  induction 1; simpl; try congruence.
  now destruct (f x), (f y).
Qed.

End ListFacts.

(* ================================================================== *)
(** * The print recommender *)
(* ================================================================== *)

Module RecommendFacts.
Import Scryfall PyFacts ScoreFacts RecommendSpec ListFacts.

Lemma is_none_false v : v <> VNone -> is_none v = false.
Proof. destruct v; simpl; congruence. Qed.

Lemma list_index_spec x xs i :
  list_index x xs = Ok i ->
  exists a, nth_error xs i = Some a /\ dict_eq a x = true.
Proof.
  revert i. induction xs as [|a xs IH]; simpl; intros i; [discriminate|].
  destruct (dict_eq a x) eqn:E.
  - intros [= <-]. exists a. split; [reflexivity | exact E].
  - destruct (list_index x xs) as [j|]; [|discriminate]. cbn [bind].
    intros [= <-]. apply IH. reflexivity.
Qed.

Lemma list_contains_index x xs :
  list_contains x xs = true -> exists i, list_index x xs = Ok i.
Proof.
  unfold list_contains. induction xs as [|a xs IH]; simpl; [discriminate|].
  destruct (dict_eq a x); simpl; [eauto|].
  intros H. destruct (IH H) as [i ->]. cbn [bind]. eauto.
Qed.

Lemma list_index_contains x xs i :
  list_index x xs = Ok i -> list_contains x xs = true.
Proof.
  unfold list_contains. revert i.
  induction xs as [|a xs IH]; simpl; intros i; [discriminate|].
  destruct (dict_eq a x); simpl; [reflexivity|].
  destruct (list_index x xs) as [j|]; [|discriminate]. intros _. now apply (IH j).
Qed.

Lemma list_remove_spec x xs :
  list_contains x xs = true ->
  exists l1 c l2, xs = l1 ++ c :: l2 /\ dict_eq c x = true
                  /\ list_remove x xs = Ok (l1 ++ l2).
Proof.
  unfold list_contains. induction xs as [|a xs IH]; simpl; [discriminate|].
  destruct (dict_eq a x) eqn:E; simpl.
  - intros _. exists [], a, xs. auto.
  - intros H. destruct (IH H) as (l1 & c & l2 & -> & Hc & ->).
    exists (a :: l1), c, l2. auto.
Qed.

Lemma np_max_spec x xs :
  exists m, np_max (x :: xs) = Ok m /\ In m (x :: xs)
            /\ Forall (fun y => y <= m) (x :: xs).
Proof.
  exists (fold_left Z.max xs x). split; [reflexivity|].
  split; [apply fold_max_In|].
  destruct (fold_max_ge xs x). now constructor.
Qed.

Lemma np_argmax_spec x xs m :
  np_max (x :: xs) = Ok m ->
  exists j, np_argmax (x :: xs) = Ok j /\ nth_error (x :: xs) j = Some m.
Proof.
  intros [= <-]. unfold np_argmax.
  destruct (first_index_of_spec (fold_left Z.max xs x) (x :: xs) 0
              (fold_max_In xs x)) as (j & -> & Hj).
  eauto.
Qed.

Section Recommend.
Context `{Builtins} `{Numpy}.

(** C2.  In the mode "best", when the current print resolves and occurs
    among the alternatives (by [==]), the result is [None] when the score
    of the current print equals the maximum of the scores of the
    alternatives, whether another alternative reaches that maximum or
    not; otherwise the result is an alternative whose score is the
    maximum. *)
Theorem recommend_best_keeps_optimal (db : list card)
    (card_name set_id collector_number oracle_id : value)
    (current : card) (alternatives : list card) (scores : list Z) :
  set_id <> VNone -> collector_number <> VNone ->
  get_card db card_name set_id collector_number = Ok (Some current) ->
  get_cards db [("name", card_name); ("oracle_id", oracle_id)]
    = Ok alternatives ->
  list_contains current alternatives = true ->
  map_result score alternatives = Ok scores ->
  exists s m,
    score current = Ok s
    /\ np_max scores = Ok m
    /\ (forall a, In a alternatives -> exists sa, score a = Ok sa /\ sa <= m)
    /\ (s = m ->
        recommend_print db card_name set_id collector_number oracle_id "best"
        = Ok VNone)
    /\ (s <> m ->
        exists a,
          recommend_print db card_name set_id collector_number oracle_id "best"
          = Ok (VDict a)
          /\ In a alternatives /\ score a = Ok m).
Proof.
  intros Hset Hnum Hcur Halt Hin Hscores.
  destruct (list_contains_index _ _ Hin) as [i Hi].
  destruct (list_index_spec _ _ _ Hi) as (a0 & Ha0 & Heq).
  pose proof (map_result_Forall2 _ _ _ Hscores) as HF.
  destruct (Forall2_nth_error_l _ _ _ _ _ HF Ha0) as (s & Hs & Hsa0).
  exists s.
  assert (Hsc : score current = Ok s)
    by now rewrite <- (score_dict_eq _ _ Heq).
  destruct scores as [|x xs]; [now destruct i|].
  destruct (np_max_spec x xs) as (m & Hm & Hmin & Hmax).
  exists m. split; [exact Hsc|]. split; [exact Hm|]. split.
  { intros a Ha. destruct (Forall2_In_l _ _ _ _ HF Ha) as (sa & Hsa & Hscore).
    exists sa. split; [exact Hscore|].
    rewrite Forall_forall in Hmax. now apply Hmax. }
  assert (Hrec :
    recommend_print db card_name set_id collector_number oracle_id "best"
    = if s =? m then Ok VNone
      else i <- np_argmax (x :: xs);;
           recommendation <- list_getitem alternatives i;;
           Ok (VDict recommendation)).
  { unfold recommend_print.
    rewrite (is_none_false _ Hset), (is_none_false _ Hnum). cbn [negb andb].
    rewrite Hcur, Halt. cbn [bind]. rewrite Hscores. cbn [bind].
    change (String.eqb "best" "best") with true. cbv iota.
    rewrite Hi. cbn [bind]. unfold list_getitem at 1. rewrite Hs.
    cbn [bind]. rewrite Hm. reflexivity. }
  rewrite Hrec. split.
  - intros ->. now rewrite Z.eqb_refl.
  - intros Hne. destruct (Z.eqb_spec s m) as [?|_]; [contradiction|].
    destruct (np_argmax_spec _ _ _ Hm) as (j & -> & Hj). cbn [bind].
    destruct (Forall2_nth_error_r _ _ _ _ _ HF Hj) as (a & Ha & Hscore).
    unfold list_getitem. rewrite Ha. cbn [bind].
    exists a. split; [reflexivity|]. split; [|exact Hscore].
    eapply nth_error_In; eauto.
Qed.

Lemma sorted_by_argsort (alternatives : list card) (scores : list Z) :
  argsort_spec ->
  Forall2 (fun a s => score a = Ok s) alternatives scores ->
  exists sorted,
    map_result (list_getitem alternatives) (argsort scores) = Ok sorted
    /\ Permutation sorted alternatives
    /\ descending (rev sorted).
Proof.
  intros Hargsort HF.
  destruct (Hargsort scores) as [Hperm Hascending].
  rewrite <- (Forall2_length HF) in Hperm.
  destruct (getitems_permutation alternatives _ Hperm)
    as (sorted & Hsorted & Hidx & Hp).
  exists sorted. split; [exact Hsorted|]. split; [exact Hp|].
  apply StronglySorted_rev.
  apply (StronglySorted_Forall2
           (fun i j => nth i scores 0 <= nth j scores 0) _ _ _ _ Hidx);
    [|exact Hascending].
  intros i j a b Hi Hj Hij.
  destruct (Forall2_nth_error_l _ _ _ _ _ HF Hi) as (sa & Hsa & Ha).
  destruct (Forall2_nth_error_l _ _ _ _ _ HF Hj) as (sb & Hsb & Hb).
  rewrite (nth_error_nth _ _ 0 Hsa), (nth_error_nth _ _ 0 Hsb) in Hij.
  exists sa, sb. auto.
Qed.

(** C3.  In the mode "all", for an [argsort] that does what
    [argsort_spec] says, when the current print resolves, the result is a
    list whose first element is the current print, whatever its score;
    the elements after it are in descending order of score, and they are
    the alternatives, less the first record of the ranking that equals
    the current print when there is one. *)
Theorem recommend_all_current_first (db : list card)
    (card_name set_id collector_number oracle_id : value)
    (current : card) (alternatives : list card) (scores : list Z) :
  argsort_spec ->
  set_id <> VNone -> collector_number <> VNone ->
  get_card db card_name set_id collector_number = Ok (Some current) ->
  get_cards db [("name", card_name); ("oracle_id", oracle_id)]
    = Ok alternatives ->
  map_result score alternatives = Ok scores ->
  exists rest,
    recommend_print db card_name set_id collector_number oracle_id "all"
    = Ok (VList (map VDict (current :: rest)))
    /\ descending rest
    /\ (list_contains current alternatives = true ->
        exists c, dict_eq c current = true
                  /\ Permutation (c :: rest) alternatives)
    /\ (list_contains current alternatives = false ->
        Permutation rest alternatives).
Proof.
  intros Hargsort Hset Hnum Hcur Halt Hscores.
  pose proof (map_result_Forall2 _ _ _ Hscores) as HF.
  destruct (sorted_by_argsort _ _ Hargsort HF)
    as (sorted & Hsorted & Hp & Hdesc).
  assert (Hp' : Permutation (rev sorted) alternatives).
  { eapply Permutation_trans; [|exact Hp].
    apply Permutation_sym, Permutation_rev. }
  assert (Hrec :
    recommend_print db card_name set_id collector_number oracle_id "all"
    = (recommendations <-
         (if list_contains current (rev sorted)
          then list_remove current (rev sorted)
          else Ok (rev sorted));;
       Ok (VList (map VDict (current :: recommendations))))).
  { unfold recommend_print.
    rewrite (is_none_false _ Hset), (is_none_false _ Hnum). cbn [negb andb].
    rewrite Hcur, Halt. cbn [bind]. rewrite Hscores. cbn [bind].
    change (String.eqb "all" "best") with false.
    change (String.eqb "all" "all") with true. cbv iota.
    rewrite Hsorted. cbn [bind].
    destruct (list_contains current (rev sorted)); [|reflexivity].
    now destruct (list_remove current (rev sorted)). }
  rewrite Hrec.
  assert (Hc : list_contains current alternatives
               = list_contains current (rev sorted))
    by (symmetry; apply existsb_Permutation; exact Hp').
  rewrite Hc. clear Hc.
  destruct (list_contains current (rev sorted)) eqn:Hin.
  - destruct (list_remove_spec _ _ Hin) as (l1 & c & l2 & Hsplit & Hc & ->).
    cbn [bind]. exists (l1 ++ l2). split; [reflexivity|]. split; [|split].
    + unfold descending in *. rewrite Hsplit in Hdesc.
      now apply StronglySorted_remove_middle in Hdesc.
    + intros _. exists c. split; [exact Hc|].
      rewrite Hsplit in Hp'.
      eapply Permutation_trans; [apply Permutation_middle | exact Hp'].
    + discriminate.
  - cbn [bind]. exists (rev sorted). split; [reflexivity|].
    split; [exact Hdesc|]. split; [discriminate | intros _; exact Hp'].
Qed.

(** With no alternative, the mode "all" returns the current print alone
    when there is one, and the empty list otherwise. *)
Lemma recommend_all_no_alternatives (db : list card)
    (card_name set_id collector_number oracle_id : value)
    (current : option card) :
  argsort_spec ->
  (if negb (is_none set_id) && negb (is_none collector_number)
   then get_card db card_name set_id collector_number
   else Ok None) = Ok current ->
  get_cards db [("name", card_name); ("oracle_id", oracle_id)] = Ok [] ->
  recommend_print db card_name set_id collector_number oracle_id "all"
  = Ok (VList (map VDict match current with
                         | Some c => [c]
                         | None => []
                         end)).
Proof.
  intros Hargsort Hcur Halt. unfold recommend_print.
  rewrite Hcur, Halt. cbn [bind map_result].
  change (String.eqb "all" "best") with false.
  change (String.eqb "all" "all") with true. cbv iota.
  destruct (sorted_by_argsort [] [] Hargsort (Forall2_nil _))
    as (sorted & -> & Hp & _).
  apply Permutation_sym, Permutation_nil in Hp. subst sorted.
  cbn [bind rev]. now destruct current.
Qed.

(** With no alternative, the mode "best" raises [ValueError]: from
    [alternatives.index(current)] when there is a current print, and from
    [numpy.argmax] of an empty list otherwise. *)
Lemma recommend_best_no_alternatives (db : list card)
    (card_name set_id collector_number oracle_id : value)
    (current : option card) :
  (if negb (is_none set_id) && negb (is_none collector_number)
   then get_card db card_name set_id collector_number
   else Ok None) = Ok current ->
  get_cards db [("name", card_name); ("oracle_id", oracle_id)] = Ok [] ->
  exists msg,
    recommend_print db card_name set_id collector_number oracle_id "best"
    = Raise (ValueError msg).
Proof.
  intros Hcur Halt. unfold recommend_print.
  rewrite Hcur, Halt. cbn [bind map_result].
  change (String.eqb "best" "best") with true. cbv iota.
  destruct current; cbn; eauto.
Qed.

End Recommend.

(** ** [insertion_numpy] sorts *)

Lemma insert_index_perm keys i l :
  Permutation (insert_index keys i l) (i :: l).
Proof.
  induction l as [|j l IH]; simpl; [reflexivity|].
  destruct (nth i keys 0 <=? nth j keys 0); [reflexivity|].
  rewrite IH. apply perm_swap.
Qed.

Lemma insert_index_sorted keys i l :
  StronglySorted (fun i j => nth i keys 0 <= nth j keys 0) l ->
  StronglySorted (fun i j => nth i keys 0 <= nth j keys 0)
                 (insert_index keys i l).
Proof.
  induction 1 as [|j l Hs IH Hj]; simpl.
  - repeat constructor.
  - destruct (Z.leb_spec (nth i keys 0) (nth j keys 0)) as [Hle|Hgt].
    + constructor; [now constructor|].
      constructor; [exact Hle|].
      revert Hj. apply Forall_impl. intros; lia.
    + constructor; [exact IH|].
      apply (Permutation_Forall (Permutation_sym (insert_index_perm keys i l))).
      constructor; [lia | exact Hj].
Qed.

Lemma insertion_argsort_perm keys :
  Permutation (insertion_argsort keys) (seq 0 (List.length keys)).
Proof.
  unfold insertion_argsort.
  induction (seq 0 (List.length keys)) as [|i l IH]; simpl; [reflexivity|].
  rewrite insert_index_perm. now constructor.
Qed.

Lemma insertion_argsort_sorted keys :
  StronglySorted (fun i j => nth i keys 0 <= nth j keys 0)
                 (insertion_argsort keys).
Proof.
  unfold insertion_argsort.
  induction (seq 0 (List.length keys)) as [|i l IH]; simpl; [constructor|].
  now apply insert_index_sorted.
Qed.

Lemma insertion_argsort_spec : argsort_spec (H := insertion_numpy).
Proof.
  intros keys. split;
    [apply insertion_argsort_perm | apply insertion_argsort_sorted].
Qed.

Lemma recommend_best_keeps_optimal_witness :
  exists s m,
    score Samples.crypt_rna = Ok s
    /\ np_max [125; 111; 127; 91] = Ok m
    /\ (forall a, In a [Samples.crypt_rtr; Samples.crypt_promo;
                        Samples.crypt_rna; Samples.crypt_digital] ->
                  exists sa, score a = Ok sa /\ sa <= m)
    /\ (s = m ->
        recommend_print (H := Samples.ascii_builtins) (H0 := insertion_numpy)
          Samples.sample_db (VStr "Blood Crypt") (VStr "RNA") (VStr "245")
          VNone "best"
        = Ok VNone)
    /\ (s <> m ->
        exists a,
          recommend_print (H := Samples.ascii_builtins)
            (H0 := insertion_numpy)
            Samples.sample_db (VStr "Blood Crypt") (VStr "RNA") (VStr "245")
            VNone "best"
          = Ok (VDict a)
          /\ In a [Samples.crypt_rtr; Samples.crypt_promo;
                   Samples.crypt_rna; Samples.crypt_digital]
          /\ score a = Ok m).
Proof.
  apply (recommend_best_keeps_optimal
           (H := Samples.ascii_builtins) (H0 := insertion_numpy)
           Samples.sample_db (VStr "Blood Crypt") (VStr "RNA") (VStr "245")
           VNone Samples.crypt_rna).
  - discriminate.
  - discriminate.
  - reflexivity.
  - reflexivity.
  - reflexivity.
  - reflexivity.
Defined.

Lemma recommend_all_current_first_witness :
  exists rest,
    recommend_print (H := Samples.ascii_builtins) (H0 := insertion_numpy)
      Samples.sample_db (VStr "Blood Crypt") (VStr "PRNA") (VStr "245p")
      VNone "all"
    = Ok (VList (map VDict (Samples.crypt_promo :: rest)))
    /\ descending rest.
Proof.
  destruct (recommend_all_current_first
              (H := Samples.ascii_builtins) (H0 := insertion_numpy)
              Samples.sample_db (VStr "Blood Crypt") (VStr "PRNA")
              (VStr "245p") VNone Samples.crypt_promo
              [Samples.crypt_rtr; Samples.crypt_promo;
               Samples.crypt_rna; Samples.crypt_digital]
              [125; 111; 127; 91]
              insertion_argsort_spec
              ltac:(discriminate) ltac:(discriminate)
              eq_refl eq_refl eq_refl) as (rest & Hrec & Hdesc & _).
  exists rest. split; [exact Hrec | exact Hdesc].
Defined.

Example recommend_all_sample :
  recommend_print (H := Samples.ascii_builtins) (H0 := insertion_numpy)
    Samples.sample_db (VStr "Blood Crypt") (VStr "PRNA") (VStr "245p")
    VNone "all"
  = Ok (VList (map VDict [Samples.crypt_promo; Samples.crypt_rna;
                          Samples.crypt_rtr; Samples.crypt_digital])).
Proof. reflexivity. Qed.

Example recommend_best_sample :
  recommend_print (H := Samples.ascii_builtins) (H0 := insertion_numpy)
    Samples.sample_db (VStr "Blood Crypt") (VStr "PRNA") (VStr "245p")
    VNone "best"
  = Ok (VDict Samples.crypt_rna).
Proof. reflexivity. Qed.

(** C4.  For a card name that no record of the database has, the query
    for the alternatives returns the empty list; the mode "all" then
    returns the empty list, but the mode "best" does not return [None]:
    [numpy.argmax] of the empty list of scores raises [ValueError]. *)
Theorem recommend_best_unknown_name_raises :
  get_cards (H := Samples.ascii_builtins) Samples.sample_db
    [("name", VStr "Black Lotus"); ("oracle_id", VNone)] = Ok []
  /\ recommend_print (H := Samples.ascii_builtins) (H0 := insertion_numpy)
       Samples.sample_db (VStr "Black Lotus") VNone VNone VNone "best"
     = Raise (ValueError "attempt to get argmax of an empty sequence")
  /\ recommend_print (H := Samples.ascii_builtins) (H0 := insertion_numpy)
       Samples.sample_db (VStr "Black Lotus") VNone VNone VNone "all"
     = Ok (VList []).
Proof. repeat split. Qed.

End RecommendFacts.

(* ================================================================== *)
(** * The matcher and the meaning of patterns *)
(* ================================================================== *)

Module RegexFacts.
Import Regex LineFormat.

Lemma or_else_Some {R} (a b : option R) r :
  or_else a b = Some r -> a = Some r \/ (a = None /\ b = Some r).
Proof. destruct a; simpl; intros; [left | right]; auto. Qed.

Lemma or_else_defined_l {R} (a b : option R) r :
  a = Some r -> exists r', or_else a b = Some r'.
Proof. intros ->. simpl. eauto. Qed.

Lemma or_else_defined_r {R} (a b : option R) r :
  b = Some r -> exists r', or_else a b = Some r'.
Proof. intros ->. destruct a; simpl; eauto. Qed.

Lemma rep_greedy_sound {R} cls (k : string -> option R) s : forall min r,
  rep_greedy cls min s k = Some r ->
  exists p s', s = (p ++ s')%string /\ all_chars cls p = true
               /\ (min <= String.length p)%nat /\ k s' = Some r.
Proof.
  induction s as [|c s IH]; intros min r; cbn [rep_greedy].
  - destruct min; [|discriminate]. intros Hk.
    exists "", "". auto.
  - assert (Hstop : match min with O => k (String c s) | S _ => None end
                    = Some r ->
                    exists p s', String c s = (p ++ s')%string
                      /\ all_chars cls p = true
                      /\ (min <= String.length p)%nat /\ k s' = Some r).
    { destruct min; [|discriminate]. intros Hk.
      exists "", (String c s). auto. }
    destruct (cls c) eqn:Ec; [|exact Hstop].
    intros H. apply or_else_Some in H. destruct H as [H|[_ H]]; [|auto].
    destruct (IH _ _ H) as (p & s' & -> & Hp & Hmin & Hk).
    exists (String c p), s'. simpl. rewrite Ec, Hp.
    repeat split; [lia | exact Hk].
Qed.

Lemma rep_lazy_sound {R} cls (k : string -> option R) s : forall min r,
  rep_lazy cls min s k = Some r ->
  exists p s', s = (p ++ s')%string /\ all_chars cls p = true
               /\ (min <= String.length p)%nat /\ k s' = Some r.
Proof.
  induction s as [|c s IH]; intros min r; cbn [rep_lazy].
  - destruct min; [|discriminate]. simpl.
    destruct (k "") eqn:Hk; [|discriminate]. intros [= <-].
    exists "", "". auto.
  - assert (Hmore : (if cls c then rep_lazy cls (Nat.pred min) s k else None)
                    = Some r ->
                    exists p s', String c s = (p ++ s')%string
                      /\ all_chars cls p = true
                      /\ (min <= String.length p)%nat /\ k s' = Some r).
    { destruct (cls c) eqn:Ec; [|discriminate]. intros H.
      destruct (IH _ _ H) as (p & s' & -> & Hp & Hmin & Hk).
      exists (String c p), s'. simpl. rewrite Ec, Hp.
      repeat split; [lia | exact Hk]. }
    destruct min; [|exact Hmore].
    intros H. apply or_else_Some in H. destruct H as [H|[_ H]]; [|auto].
    exists "", (String c s). simpl. repeat split; [lia | exact H].
Qed.

Lemma rep_greedy_complete {R} cls (k : string -> option R) s' r p :
  forall min,
  all_chars cls p = true -> (min <= String.length p)%nat ->
  k s' = Some r ->
  exists r', rep_greedy cls min (p ++ s') k = Some r'.
Proof.
  induction p as [|c p IH]; intros min Hp Hmin Hk.
  - simpl in Hmin. assert (min = O) by lia. subst min. simpl.
    destruct s' as [|c s']; cbn [rep_greedy]; [eauto|].
    destruct (cls c); [|eauto]. eapply or_else_defined_r; eauto.
  - simpl in Hp. apply andb_true_iff in Hp. destruct Hp as [Hc Hp].
    cbn [append rep_greedy]. rewrite Hc.
    destruct (IH (Nat.pred min) Hp ltac:(simpl in Hmin; lia) Hk) as [r' Hr'].
    eapply or_else_defined_l; eauto.
Qed.

Lemma rep_lazy_complete {R} cls (k : string -> option R) s' r p :
  forall min,
  all_chars cls p = true -> (min <= String.length p)%nat ->
  k s' = Some r ->
  exists r', rep_lazy cls min (p ++ s') k = Some r'.
Proof.
  induction p as [|c p IH]; intros min Hp Hmin Hk.
  - simpl in Hmin. assert (min = O) by lia. subst min. simpl.
    destruct s' as [|c s']; cbn [rep_lazy]; rewrite Hk; simpl; eauto.
  - simpl in Hp. apply andb_true_iff in Hp. destruct Hp as [Hc Hp].
    destruct (IH (Nat.pred min) Hp ltac:(simpl in Hmin; lia) Hk) as [r' Hr'].
    cbn [append rep_lazy]. rewrite Hc, Hr'.
    destruct min; [|eauto]. eapply or_else_defined_r; eauto.
Qed.

(** Every result of the matcher comes from a match of the pattern. *)
Lemma run_sound r : forall s g k res,
  run r s g k = Some res ->
  exists s' g', matches r s s' g g' /\ k s' g' = Some res.
Proof.
  induction r as [|c|greedy min cls|n r IH|r IH|r1 IH1 r2 IH2|];
    intros s g k res; cbn [run].
  - intros Hk. exists s, g. split; [constructor | exact Hk].
  - destruct s as [|c' s]; [discriminate|].
    destruct (Ascii.eqb_spec c c') as [<-|_]; [|discriminate].
    intros Hk. exists s, g. split; [constructor | exact Hk].
  - intros H.
    assert (Hex : exists p s', s = (p ++ s')%string /\ all_chars cls p = true
                    /\ (min <= String.length p)%nat /\ k s' g = Some res).
    { destruct greedy;
        [apply rep_greedy_sound in H | apply rep_lazy_sound in H]; exact H. }
    destruct Hex as (p & s' & -> & Hp & Hmin & Hk).
    exists s', g. split; [now constructor | exact Hk].
  - intros H. apply IH in H. destruct H as (s' & g' & Hm & Hk).
    exists s', ((n, consumed s s') :: g'). split; [now constructor | exact Hk].
  - intros H. apply or_else_Some in H. destruct H as [H|[_ H]].
    + apply IH in H. destruct H as (s' & g' & Hm & Hk).
      exists s', g'. split; [now apply M_Opt_some | exact Hk].
    + exists s, g. split; [apply M_Opt_none | exact H].
  - intros H. apply IH1 in H. destruct H as (s1 & g1 & Hm1 & H).
    apply IH2 in H. destruct H as (s2 & g2 & Hm2 & Hk).
    exists s2, g2. split; [econstructor; eauto | exact Hk].
  - destruct (at_end s) eqn:E; [|discriminate].
    intros Hk. exists s, g. split; [now constructor | exact Hk].
Qed.

(** When the pattern has a match that the rest of the search accepts, the
    matcher returns a result. *)
Lemma run_complete r s s' g g' :
  matches r s s' g g' ->
  forall k res, k s' g' = Some res -> exists res', run r s g k = Some res'.
Proof.
  induction 1 as [s g|c s g|greedy min cls p s g Hp Hmin
                 |n r s s' g g' Hm IH|r s s' g g' Hm IH|r s g
                 |r1 r2 s s1 s2 g g1 g2 Hm1 IH1 Hm2 IH2|s g Hend];
    intros k res Hk; cbn [run].
  - eauto.
  - rewrite Ascii.eqb_refl. eauto.
  - destruct greedy.
    + apply (rep_greedy_complete cls (fun s' => k s' g) s res p min Hp Hmin Hk).
    + apply (rep_lazy_complete cls (fun s' => k s' g) s res p min Hp Hmin Hk).
  - apply (IH (fun s0 g0 => k s0 ((n, consumed s s0) :: g0)) res Hk).
  - destruct (IH k res Hk) as [res' Hres'].
    eapply or_else_defined_l; eauto.
  - eapply or_else_defined_r; eauto.
  - destruct (IH2 k res Hk) as [res2 Hres2].
    apply (IH1 (fun s0 g0 => run r2 s0 g0 k) res2 Hres2).
  - rewrite Hend. eauto.
Qed.

Lemma match_here_sound r s g :
  match_here r s = Some g -> matches_from r s g.
Proof.
  unfold match_here. intros H. apply run_sound in H.
  destruct H as (s' & g' & Hm & [= <-]). now exists s'.
Qed.

Lemma match_here_complete r s g :
  matches_from r s g -> exists g', match_here r s = Some g'.
Proof.
  intros [s' Hm]. unfold match_here.
  apply (run_complete _ _ _ _ _ Hm (fun _ g0 => Some g0) g eq_refl).
Qed.

Lemma search_sound r s g :
  search r s = Some g ->
  exists pre t, s = (pre ++ t)%string /\ matches_from r t g.
Proof.
  induction s as [|c s IH]; cbn [search]; intros H;
    apply or_else_Some in H; destruct H as [H|[_ H]]; try discriminate.
  - exists "", "". split; [reflexivity | now apply match_here_sound].
  - exists "", (String c s). split; [reflexivity | now apply match_here_sound].
  - destruct (IH H) as (pre & t & -> & Hm).
    exists (String c pre), t. split; [reflexivity | exact Hm].
Qed.

Lemma search_complete r pre : forall t g,
  matches_from r t g -> exists g', search r (pre ++ t) = Some g'.
Proof.
  induction pre as [|c pre IH]; intros t g Hm.
  - destruct (match_here_complete _ _ _ Hm) as [g' Hg'].
    destruct t; cbn [append search]; eapply or_else_defined_l; eauto.
  - destruct (IH t g Hm) as [g' Hg'].
    cbn [append search]. eapply or_else_defined_r; eauto.
Qed.

(** [re.search] finds a match exactly when the pattern matches from some
    position of the string. *)
Lemma search_iff r s :
  search r s <> None <->
  exists pre t g, s = (pre ++ t)%string /\ matches_from r t g.
Proof.
  split.
  - destruct (search r s) as [g|] eqn:E; [|congruence]. intros _.
    destruct (search_sound _ _ _ E) as (pre & t & Hs & Hm). eauto.
  - intros (pre & t & g & -> & Hm).
    destruct (search_complete r pre t g Hm) as [g' ->]. discriminate.
Qed.

Lemma string_length_app (p s : string) :
  String.length (p ++ s) = (String.length p + String.length s)%nat.
Proof. induction p; simpl; congruence. Qed.

Lemma take_string_app (p s : string) : take (String.length p) (p ++ s) = p.
Proof. induction p; simpl; [now destruct s | congruence]. Qed.

Lemma consumed_app (p s : string) : consumed (p ++ s) s = p.
Proof.
  unfold consumed. rewrite string_length_app.
  replace (String.length p + String.length s - String.length s)%nat
    with (String.length p) by lia.
  apply take_string_app.
Qed.

Ltac invert H := inversion H; subst; clear H.

(** Invert a match of a pattern that is not an [Opt]. *)
Ltac invert_match :=
  match goal with
  | H : matches (Seq _ _) _ _ _ _ |- _ => invert H
  | H : matches (Group _ _) _ _ _ _ |- _ => invert H
  | H : matches (Rep _ _ _) _ _ _ _ |- _ => invert H
  | H : matches (Lit _) _ _ _ _ |- _ => invert H
  | H : matches Dollar _ _ _ _ |- _ => invert H
  | H : matches Eps _ _ _ _ |- _ => invert H
  end.

Lemma line_pattern_groups t g :
  matches_from Decklist.line_pattern t g -> card_line_groups g.
Proof.
  intros [s' H]. unfold Decklist.line_pattern, seq_of in H.
  cbn [fold_right] in H. repeat invert_match.
  match goal with H : matches (Opt _) _ _ _ _ |- _ => invert H end;
    repeat invert_match; rewrite !consumed_app;
    match goal with
    | |- card_line_groups ((_, ?name) :: (_, ?count) :: nil) =>
        exists count, name
    | |- card_line_groups (_ :: _ :: (_, ?name) :: (_, ?count) :: nil) =>
        exists count, name
    end;
    cbn [group Nat.eqb]; repeat (split; [assumption || reflexivity|]).
  - (* with a set and a collector number *)
    right. do 2 eexists. repeat (split; [eassumption || reflexivity|]).
    assumption.
  - (* without them *)
    left. auto.
Qed.

Lemma search_line_pattern_groups line m :
  search Decklist.line_pattern line = Some m -> card_line_groups m.
Proof.
  intros H. destruct (search_sound _ _ _ H) as (pre & t & _ & Hm).
  now apply line_pattern_groups in Hm.
Qed.

Lemma int_step_nonneg acc c :
  0 <= acc -> is_digit c = true ->
  0 <= 10 * acc + (Z.of_nat (nat_of_ascii c) - 48).
Proof.
  unfold is_digit. rewrite andb_true_iff, !Nat.leb_le. lia.
Qed.

Lemma int_digits_nonneg s :
  all_chars is_digit s = true -> 0 <= Decklist.int s.
Proof.
  unfold Decklist.int.
  assert (H : forall acc, 0 <= acc -> all_chars is_digit s = true ->
            0 <= fold_left
                   (fun acc c => 10 * acc + (Z.of_nat (nat_of_ascii c) - 48))
                   (list_ascii_of_string s) acc).
  { induction s as [|c s IH]; simpl; intros acc Hacc Hs; [exact Hacc|].
    apply andb_true_iff in Hs. destruct Hs as [Hc Hs].
    apply IH; [now apply int_step_nonneg | exact Hs]. }
  apply H. lia.
Qed.

End RegexFacts.

(* ================================================================== *)
(** * Decklists: formatting and parsing *)
(* ================================================================== *)

Module DecklistFacts.
Import Regex LineFormat Decklist DecklistSpec RegexFacts.

Section Formatting.
Context `{Builtins}.

Lemma Card_format_ValueError count card format_spec msg :
  Card_format count card format_spec = Raise (ValueError msg) ->
  format_spec <> "text" /\ format_spec <> "arena"
  /\ msg = ("Unkown format " ++ format_spec)%string.
Proof.
  unfold Card_format, card_getitem, upper, getitem.
  destruct (String.eqb_spec format_spec "text") as [->|Htext].
  - destruct card; try discriminate.
    destruct (lookup "name" kvs); discriminate.
  - destruct (String.eqb_spec format_spec "arena") as [->|Harena].
    + destruct card; try discriminate.
      destruct (lookup "name" kvs); [|discriminate]. cbn [bind].
      destruct (lookup "set" kvs) as [v_set|]; [|discriminate]. cbn [bind].
      destruct v_set; try discriminate. cbn [bind].
      destruct (lookup "collector_number" kvs); discriminate.
    + intros [= <-]. auto.
Qed.

Lemma map_result_Raise {A B} (f : A -> result B) xs e :
  map_result f xs = Raise e -> exists x, In x xs /\ f x = Raise e.
Proof.
  induction xs as [|x xs IH]; simpl; [discriminate|].
  destruct (f x) as [y|e'] eqn:E.
  - destruct (map_result f xs); [discriminate|].
    intros [= <-]. destruct (IH eq_refl) as (x' & ? & ?). eauto.
  - intros [= <-]. eauto.
Qed.

Lemma map_result_comments format_spec es :
  Forall is_comment es ->
  map_result (fun e => format e format_spec) es = Ok (map text_of es).
Proof.
  induction 1 as [|e es He _ IH]; simpl; [reflexivity|].
  destruct e; [contradiction|]. simpl. now rewrite IH.
Qed.

(** C10.  Whatever the format, formatting a [Comment] returns its text
    as it is stored, also for a format that [Card] does not support; so a
    decklist of comments alone formats to the join of their texts and
    raises nothing.  When formatting a decklist raises the error of an
    unknown format, the decklist holds a [Card] whose formatting raised
    it, and the format is neither "text" nor "arena". *)
Theorem comments_format_verbatim (d : Decklist) (format_spec : string) :
  Forall is_comment (entries d) ->
  (forall text, format (Comment text) format_spec = Ok text)
  /\ Decklist_format d format_spec
     = Ok (join linesep (map text_of (entries d)))
  /\ (forall d' msg,
        Decklist_format d' format_spec = Raise (ValueError msg) ->
        exists count card,
          In (Card count card) (entries d')
          /\ Card_format count card format_spec = Raise (ValueError msg)
          /\ format_spec <> "text" /\ format_spec <> "arena"
          /\ msg = ("Unkown format " ++ format_spec)%string).
Proof.
  intros Hd. split; [reflexivity|]. split.
  - unfold Decklist_format. now rewrite (map_result_comments _ _ Hd).
  - intros d' msg. unfold Decklist_format.
    destruct (map_result (fun e => format e format_spec) (entries d'))
      as [parts|e] eqn:E; [discriminate|].
    cbn [bind]. intros [= ->].
    destruct (map_result_Raise _ _ _ E) as ([count card|text] & Hin & Hf);
      [|discriminate].
    exists count, card. split; [exact Hin|]. split; [exact Hf|].
    now apply Card_format_ValueError in Hf.
Qed.

End Formatting.

Lemma comments_format_verbatim_witness :
  Decklist_format (H := Samples.ascii_builtins)
    {| entries := [Comment "// sideboard"; Comment "Deck"] |} "mtgo"
  = Ok ("// sideboard" ++ String Regex.newline "Deck")%string.
Proof.
  destruct (comments_format_verbatim (H := Samples.ascii_builtins)
              {| entries := [Comment "// sideboard"; Comment "Deck"] |} "mtgo"
              ltac:(repeat constructor)) as (_ & Hfmt & _).
  exact Hfmt.
Defined.

Section Parsing.
Context `{Sanitizing}.

Lemma parse_line_spec st line :
  entries (decklist (parse_line st line))
  = entries (decklist st) ++ [line_entry line]
  /\ ok (parse_line st line) = ok st && line_ok line.
Proof.
  unfold parse_line, line_entry, line_ok.
  destruct (search line_pattern line) as [m|].
  - destruct (validate_card_name _) as [[name|] warnings]; simpl.
    + destruct (validate_print _ _ _) as [card warnings']. simpl.
      now rewrite andb_true_r.
    + now rewrite andb_false_r.
  - simpl. now rewrite andb_true_r.
Qed.

Lemma parse_fold_spec stream : forall st,
  entries (decklist (fold_left parse_line stream st))
  = entries (decklist st) ++ map line_entry stream
  /\ ok (fold_left parse_line stream st) = ok st && forallb line_ok stream.
Proof.
  induction stream as [|line stream IH]; intros st; simpl.
  - now rewrite app_nil_r, andb_true_r.
  - destruct (IH (parse_line st line)) as [-> ->].
    destruct (parse_line_spec st line) as [-> ->].
    now rewrite <- app_assoc, andb_assoc.
Qed.

Lemma parse_decklist_stream_spec stream :
  entries (fst (parse_decklist_stream stream)) = map line_entry stream
  /\ snd (parse_decklist_stream stream) = forallb line_ok stream.
Proof.
  unfold parse_decklist_stream, parse_loop. simpl.
  destruct (parse_fold_spec stream
              {| decklist := {| entries := [] |}; ok := true; stdout := [] |})
    as [-> ->].
  auto.
Qed.

Lemma line_ok_false line :
  line_ok line = false <->
  exists m name,
    search line_pattern line = Some m /\ group 2 m = Some name
    /\ fst (validate_card_name name) = None.
Proof.
  unfold line_ok. split.
  - destruct (search line_pattern line) as [m|] eqn:E; [|discriminate].
    destruct (search_line_pattern_groups _ _ E)
      as (count & name & _ & _ & _ & Hname & _).
    rewrite Hname.
    destruct (fst (validate_card_name name)) eqn:Ev; [discriminate|].
    intros _. exists m, name. auto.
  - intros (m & name & -> & -> & ->). reflexivity.
Qed.

(** C6.  [parse_decklist_stream] returns a decklist and a flag.  The
    flag is false exactly when some line matched the pattern and
    [validate_card_name] returned no name for its group 2.  Every line
    yields one entry, at its own position, so a failure stops nothing: a
    line without a match becomes a [Comment] holding the stripped line
    and leaves the flag alone; a line whose name is not recognised
    becomes such a [Comment] too; any other line becomes a [Card]. *)
Theorem parse_success_iff (stream : list string) :
  (snd (parse_decklist_stream stream) = false <->
   exists line m name,
     In line stream /\ search line_pattern line = Some m
     /\ group 2 m = Some name /\ fst (validate_card_name name) = None)
  /\ List.length (entries (fst (parse_decklist_stream stream)))
     = List.length stream
  /\ (forall i line,
        nth_error stream i = Some line ->
        search line_pattern line = None ->
        nth_error (entries (fst (parse_decklist_stream stream))) i
        = Some (Comment (strip line)))
  /\ (forall i line m name,
        nth_error stream i = Some line ->
        search line_pattern line = Some m -> group 2 m = Some name ->
        fst (validate_card_name name) = None ->
        nth_error (entries (fst (parse_decklist_stream stream))) i
        = Some (Comment (strip line)))
  /\ (forall i line m name,
        nth_error stream i = Some line ->
        search line_pattern line = Some m -> group 2 m = Some name ->
        fst (validate_card_name name) <> None ->
        exists count card,
          nth_error (entries (fst (parse_decklist_stream stream))) i
          = Some (Card count card))
  /\ parse_decklist_stream ["// sideboard" ++ String newline ""]%string
     = ({| entries := [Comment "// sideboard"] |}, true).
Proof.
  destruct (parse_decklist_stream_spec stream) as [Hentries Hok].
  rewrite Hentries, Hok. split; [|split; [|split; [|split; [|split]]]].
  - split.
    + intros Hfalse.
      destruct (forallb line_ok stream) eqn:E; [discriminate|].
      assert (Hex : exists line, In line stream /\ line_ok line = false).
      { clear -E. induction stream as [|l stream IH]; [discriminate|].
        simpl in E. destruct (line_ok l) eqn:El.
        - destruct (IH E) as (line & ? & ?). exists line. simpl. auto.
        - exists l. simpl. auto. }
      destruct Hex as (line & Hin & Hline).
      apply line_ok_false in Hline. destruct Hline as (m & name & ? & ? & ?).
      exists line, m, name. auto.
    + intros (line & m & name & Hin & Hm & Hname & Hv).
      destruct (forallb line_ok stream) eqn:E; [|reflexivity].
      rewrite forallb_forall in E. specialize (E _ Hin).
      assert (line_ok line = false) by (apply line_ok_false; eauto).
      congruence.
  - apply length_map.
  - intros i line Hi Hnone. rewrite nth_error_map, Hi. simpl.
    unfold line_entry. now rewrite Hnone.
  - intros i line m name Hi Hm Hname Hv. rewrite nth_error_map, Hi. simpl.
    unfold line_entry. now rewrite Hm, Hname, Hv.
  - intros i line m name Hi Hm Hname Hv. rewrite nth_error_map, Hi. simpl.
    unfold line_entry. rewrite Hm, Hname.
    destruct (fst (validate_card_name name)); [eauto | contradiction].
  - reflexivity.
Qed.

(** C7, amended.  The count of every [Card] of a parsed decklist is the
    value of the digits that group 1 captured in some line of the stream,
    and is not negative; it can be zero. *)
Theorem parsed_counts_nonnegative (stream : list string) (count : Z)
    (card : value) :
  In (Card count card) (entries (fst (parse_decklist_stream stream))) ->
  0 <= count
  /\ exists line m digits,
       In line stream /\ search line_pattern line = Some m
       /\ group 1 m = Some digits /\ all_chars is_digit digits = true
       /\ count = int digits.
Proof.
  destruct (parse_decklist_stream_spec stream) as [-> _].
  rewrite in_map_iff. intros (line & Hentry & Hin).
  unfold line_entry in Hentry.
  destruct (search line_pattern line) as [m|] eqn:Hm; [|discriminate].
  destruct (search_line_pattern_groups _ _ Hm)
    as (digits & name & Hcount & Hdigits & _ & Hname & _).
  rewrite Hcount, Hname in Hentry.
  destruct (fst (validate_card_name name)); [|discriminate].
  injection Hentry as <- _.
  split; [now apply int_digits_nonneg|].
  exists line, m, digits. auto.
Qed.

Lemma spec_pattern_matches t g :
  matches_from spec_pattern t g -> exists g', matches_from line_pattern t g'.
Proof.
  intros [s' Hm]. unfold spec_pattern, seq_of in Hm. cbn [fold_right] in Hm.
  invert Hm.
  match goal with H : matches (Seq (Rep _ _ _) _) _ _ _ _ |- _ => invert H end.
  match goal with H : matches (Seq (Group 2 _) _) _ _ _ _ |- _ => invert H end.
  match goal with H : matches (Seq (Opt _) _) _ _ _ _ |- _ => invert H end.
  match goal with H : matches (Opt _) _ _ _ _ |- _ => invert H end.
  - match goal with H : matches (Seq (Rep _ _ _) (Seq (Lit _) _)) _ _ _ _ |- _ =>
      invert H end.
    match goal with H : matches (Seq (Lit _) _) _ _ _ _ |- _ => invert H end.
    match goal with H : matches (Seq (Group 3 _) _) _ _ _ _ |- _ => invert H end.
    match goal with H : matches (Group 3 _) _ _ _ _ |- _ => invert H end.
    match goal with H : matches (Rep _ _ is_nonspace) _ _ _ _ |- _ => invert H end.
    eexists. exists s'. unfold line_pattern, seq_of. cbn [fold_right].
    eapply M_Seq; [eassumption|]. eapply M_Seq; [eassumption|].
    eapply M_Seq; [eassumption|]. eapply M_Seq; [|eassumption].
    apply M_Opt_some. eapply M_Seq; [eassumption|].
    eapply M_Seq; [eassumption|]. eapply M_Seq; [|eassumption].
    apply M_Group. apply M_Rep; [assumption | lia].
  - eexists. exists s'. unfold line_pattern, seq_of. cbn [fold_right].
    eapply M_Seq; [eassumption|]. eapply M_Seq; [eassumption|].
    eapply M_Seq; [eassumption|]. eapply M_Seq; [|eassumption].
    apply M_Opt_none.
Qed.

Lemma spec_search_card_line line :
  spec_search line <> None -> search line_pattern line <> None.
Proof.
  unfold spec_search. destruct (match_here spec_pattern line) as [g|] eqn:E;
    [|congruence].
  intros _. apply match_here_sound, spec_pattern_matches in E.
  destruct E as [g' Hg']. apply search_iff. exists "", line, g'. auto.
Qed.

(** C8, amended.  A line is handled as a card line exactly when
    [re.search] finds the pattern of [line_pattern_text] in it, that is,
    when the pattern matches from some position of the line: the count
    need not start the line, and group 3 may be empty.  Every line that
    the anchored pattern of the specification accepts is such a line.
    Group 1 is the count, a string of digits, group 2 the name, groups 3
    and 4 the optional set and collector number; they are what the parser
    passes on.  A line without a match is kept as a comment.  The line
    "4 Blood Crypt (RNA) 245" gives 4, "Blood Crypt", "RNA" and "245". *)
Theorem card_line_iff_search (st : state) (line : string) :
  (search line_pattern line = None ->
   parse_line st line
   = {| decklist := append_comment (decklist st) (strip line);
        ok := ok st; stdout := stdout st |})
  /\ (forall m,
        search line_pattern line = Some m ->
        card_line_groups m
        /\ exists count name,
             group 1 m = Some count /\ group 2 m = Some name
             /\ entries (decklist (parse_line st line))
                = entries (decklist st)
                  ++ [match fst (validate_card_name name) with
                      | Some name' =>
                          Card (int count)
                               (fst (validate_print name' (group 3 m)
                                                    (group 4 m)))
                      | None => Comment (strip line)
                      end])
  /\ (search line_pattern line <> None <->
      exists pre t g,
        line = (pre ++ t)%string /\ matches_from line_pattern t g)
  /\ (spec_search line <> None -> search line_pattern line <> None)
  /\ (exists m,
        search line_pattern "4 Blood Crypt (RNA) 245" = Some m
        /\ group 1 m = Some "4" /\ int "4" = 4
        /\ group 2 m = Some "Blood Crypt"
        /\ group 3 m = Some "RNA" /\ group 4 m = Some "245").
Proof.
  split; [|split; [|split; [|split]]].
  - intros Hnone. unfold parse_line. now rewrite Hnone.
  - intros m Hm. pose proof (search_line_pattern_groups _ _ Hm) as Hg.
    split; [exact Hg|].
    destruct Hg as (count & name & Hcount & _ & _ & Hname & _).
    exists count, name. split; [exact Hcount|]. split; [exact Hname|].
    destruct (parse_line_spec st line) as [-> _].
    unfold line_entry. now rewrite Hm, Hcount, Hname.
  - apply search_iff.
  - apply spec_search_card_line.
  - eexists. split; [reflexivity|]. repeat split.
Qed.

End Parsing.

Lemma parsed_counts_nonnegative_witness :
  0 <= 4
  /\ exists line m digits,
       In line ["4 Blood Crypt (RNA) 245"]
       /\ search line_pattern line = Some m
       /\ group 1 m = Some digits /\ all_chars is_digit digits = true
       /\ 4 = int digits.
Proof.
  apply (parsed_counts_nonnegative (H := Samples.sample_sanitizing)
           ["4 Blood Crypt (RNA) 245"] 4 (VDict Samples.crypt_rna)).
  left. reflexivity.
Defined.

(** C7, as stated, fails: the line "0 Forest" becomes a [Card] of
    count 0. *)
Lemma zero_count_card_entry :
  In (Card 0 (VDict Samples.forest))
     (entries (fst (parse_decklist_stream (H := Samples.sample_sanitizing)
                      ["0 Forest"])))
  /\ ~ 1 <= 0.
Proof. split; [left; reflexivity | lia]. Qed.

(** C8, as stated, fails: a line whose count does not start the line is
    a card line for the parser and not for the anchored pattern; and on a
    line with an empty set in parentheses the two patterns capture
    different names. *)
Lemma card_line_not_anchored :
  (spec_search "Deck: 4 Blood Crypt" = None
   /\ parse_decklist_stream (H := Samples.sample_sanitizing)
        ["Deck: 4 Blood Crypt"]
      = ({| entries := [Card 4 (VDict Samples.crypt_rna)] |}, true))
  /\ (exists m,
        spec_search "4 Blood Crypt () 245" = Some m
        /\ group 2 m = Some "Blood Crypt () 245" /\ group 3 m = None)
  /\ (exists m,
        search line_pattern "4 Blood Crypt () 245" = Some m
        /\ group 2 m = Some "Blood Crypt" /\ group 3 m = Some ""
        /\ group 4 m = Some "245").
Proof.
  split; [split; reflexivity|].
  split; eexists; (split; [reflexivity|]); repeat split.
Qed.

End DecklistFacts.

(* ================================================================== *)
(** * Facts about numerals and strings *)
(* ================================================================== *)

Module IntText.
Import Decimal DecimalPos DecimalZ.
Import Regex LineFormat Decklist IntSpec.

Lemma of_uint_acc_value d : forall acc,
  Z.pos (Pos.of_uint_acc d acc) = uint_value d (Z.pos acc).
Proof.
  induction d; intros acc; cbn [Pos.of_uint_acc uint_value];
    try reflexivity; rewrite IHd; f_equal;
    rewrite ?Pos2Z.inj_add, Pos2Z.inj_mul; lia.
Qed.

Lemma of_uint_value d : Z.of_N (Pos.of_uint d) = uint_value d 0.
Proof.
  induction d; cbn [Pos.of_uint uint_value Z.of_N];
    try reflexivity; try exact IHd; apply of_uint_acc_value.
Qed.

Lemma int_fold_value d : forall acc,
  fold_left int_step (list_ascii_of_string (NilEmpty.string_of_uint d)) acc
  = uint_value d acc.
Proof.
  induction d; intros acc; cbn [NilEmpty.string_of_uint list_ascii_of_string
                                fold_left uint_value];
    try reflexivity; rewrite IHd; f_equal; unfold int_step;
    match goal with
    | |- context [Z.of_nat (nat_of_ascii ?c) - 48] =>
        let v := eval vm_compute in (Z.of_nat (nat_of_ascii c) - 48) in
        change (Z.of_nat (nat_of_ascii c) - 48) with v
    end; lia.
Qed.

Lemma string_of_uint_digits d :
  all_chars is_digit (NilEmpty.string_of_uint d) = true.
Proof. induction d; simpl; auto. Qed.

Lemma to_uint_not_Nil p : Pos.to_uint p <> Nil.
Proof.
  intros Hnil. pose proof (DecimalPos.Unsigned.of_to p) as Hp.
  rewrite Hnil in Hp. discriminate.
Qed.

Lemma str_of_int_pos p :
  str_of_int (Z.pos p) = NilEmpty.string_of_uint (Pos.to_uint p).
Proof.
  unfold str_of_int. simpl. unfold NilZero.string_of_uint.
  destruct (Pos.to_uint p) eqn:E; try reflexivity.
  now apply to_uint_not_Nil in E.
Qed.

(** [str(n)] is a non-empty string of digits that [int] reads back. *)
Lemma str_of_int_digits n :
  0 <= n ->
  all_chars is_digit (str_of_int n) = true
  /\ str_of_int n <> ""
  /\ int (str_of_int n) = n.
Proof.
  intros Hn. destruct n as [|p|p]; [| |lia].
  - repeat split. discriminate.
  - rewrite str_of_int_pos. split; [apply string_of_uint_digits|]. split.
    + pose proof (to_uint_not_Nil p). destruct (Pos.to_uint p);
        simpl; congruence.
    + unfold int. change (fun acc c => 10 * acc + (Z.of_nat (nat_of_ascii c) - 48))
        with int_step.
      rewrite int_fold_value, <- of_uint_value.
      now rewrite DecimalPos.Unsigned.of_to.
Qed.

End IntText.

Module StringFacts.
Import Regex LineFormat StringSpec.

Lemma string_app_assoc (a b c : string) :
  ((a ++ b) ++ c)%string = (a ++ b ++ c)%string.
Proof. induction a; simpl; congruence. Qed.

Lemma string_app_nil_r (a : string) : (a ++ "")%string = a.
Proof. induction a; simpl; congruence. Qed.

Lemma all_chars_app p a b :
  all_chars p (a ++ b) = all_chars p a && all_chars p b.
Proof.
  induction a as [|c a IH]; simpl; [reflexivity|].
  now rewrite IH, andb_assoc.
Qed.

Lemma last_char_app a b : b <> "" -> last_char (a ++ b) = last_char b.
Proof.
  intros Hb. induction a as [|c a IH]; [reflexivity|].
  cbn [append last_char]. rewrite IH.
  destruct (a ++ b)%string eqn:E; [|reflexivity].
  destruct a, b; simpl in E; congruence.
Qed.

Lemma last_char_Some s : s <> "" -> exists c, last_char s = Some c.
Proof.
  induction s as [|a s IH]; [congruence|]. intros _.
  destruct s as [|b s]; [now exists a|].
  destruct IH as [c Hc]; [discriminate|]. exists c. exact Hc.
Qed.

Lemma all_chars_last p s c :
  all_chars p s = true -> last_char s = Some c -> p c = true.
Proof.
  induction s as [|a s IH]; [discriminate|].
  cbn [all_chars]. intros Hs. apply andb_true_iff in Hs.
  destruct Hs as [Ha Hs]. destruct s as [|b s].
  - simpl. now intros [= <-].
  - intros Hl. now apply IH.
Qed.

Lemma ends_outside_all p s :
  ends_outside p s -> all_chars p s = true -> s = "".
Proof.
  unfold ends_outside. intros Hend Hall.
  destruct s as [|a s]; [reflexivity|].
  destruct (last_char_Some (String a s)) as [c Hc]; [discriminate|].
  rewrite Hc in Hend. rewrite (all_chars_last _ _ _ Hall Hc) in Hend.
  discriminate.
Qed.

Lemma ends_outside_tail p c s :
  ends_outside p (String c s) -> ends_outside p s.
Proof.
  unfold ends_outside. destruct s as [|b s]; [now simpl|]. now simpl.
Qed.

(** A string splits in one way only into a part that does not end in
    [p] and a run of [p]. *)
Lemma rsplit_unique p : forall x y a b,
  all_chars p a = true -> all_chars p b = true ->
  ends_outside p x -> ends_outside p y ->
  (x ++ a)%string = (y ++ b)%string -> x = y /\ a = b.
Proof.
  induction x as [|c x IH]; intros y a b Ha Hb Hx Hy E.
  - simpl in E. subst a. rewrite all_chars_app in Ha.
    apply andb_true_iff in Ha. destruct Ha as [Hy' _].
    rewrite (ends_outside_all _ _ Hy Hy'). auto.
  - destruct y as [|c' y].
    + assert (Hb' : all_chars p (String c x ++ a) = true)
        by (rewrite E; exact Hb).
      rewrite all_chars_app in Hb'. apply andb_true_iff in Hb'.
      destruct Hb' as [Hx' _].
      now apply (ends_outside_all _ _ Hx) in Hx'.
    + simpl in E. injection E as <- E.
      destruct (IH y a b Ha Hb (ends_outside_tail _ _ _ Hx)
                  (ends_outside_tail _ _ _ Hy) E) as [-> ->].
      auto.
Qed.

Lemma starts_outside_all p q s :
  starts_outside p s -> all_chars p q = true -> q <> "" ->
  forall s', s <> (q ++ s')%string.
Proof.
  intros Hs Hq Hne s' ->. destruct q as [|c q]; [congruence|].
  simpl in Hs, Hq. now rewrite Hs in Hq.
Qed.

End StringFacts.

Module PriorityFacts.
Import Regex LineFormat RegexFacts StringSpec StringFacts.

(** A greedy repetition followed by [k] returns what [k] returns after
    the longest run on which [k] succeeds. *)
Lemma rep_greedy_longest {R} cls (k : string -> option R) r p : forall min s',
  all_chars cls p = true -> (min <= String.length p)%nat ->
  k s' = Some r ->
  (forall q s'', q <> "" -> all_chars cls q = true ->
                 s' = (q ++ s'')%string -> k s'' = None) ->
  rep_greedy cls min (p ++ s') k = Some r.
Proof.
  induction p as [|c p IH]; intros min s' Hp Hmin Hk Hlonger.
  - simpl in Hmin. assert (min = O) by lia. subst min. simpl.
    destruct s' as [|c s']; cbn [rep_greedy]; [exact Hk|].
    destruct (cls c) eqn:Hc; [|exact Hk].
    destruct (rep_greedy cls (Nat.pred 0) s' k) as [r'|] eqn:E;
      [|exact Hk].
    apply rep_greedy_sound in E.
    destruct E as (q & s'' & -> & Hq & _ & Hk').
    rewrite (Hlonger (String c q) s'') in Hk'; try discriminate.
    + simpl. now rewrite Hc, Hq.
    + reflexivity.
  - simpl in Hp. apply andb_true_iff in Hp. destruct Hp as [Hc Hp].
    cbn [append rep_greedy]. rewrite Hc.
    rewrite (IH (Nat.pred min) s' Hp ltac:(simpl in Hmin; lia) Hk Hlonger).
    reflexivity.
Qed.

(** The special case of a run that cannot be longer. *)
Lemma rep_greedy_run {R} cls (k : string -> option R) r p min s' :
  all_chars cls p = true -> (min <= String.length p)%nat ->
  starts_outside cls s' -> k s' = Some r ->
  rep_greedy cls min (p ++ s') k = Some r.
Proof.
  intros Hp Hmin Hs Hk. apply rep_greedy_longest; try assumption.
  intros q s'' Hq Hall E. exfalso.
  now apply (starts_outside_all _ _ _ Hs Hall Hq s'').
Qed.

(** A lazy repetition followed by [k] returns what [k] returns after
    the shortest run on which [k] succeeds. *)
Lemma rep_lazy_shortest {R} cls (k : string -> option R) r s' p : forall min,
  all_chars cls p = true -> (min <= String.length p)%nat ->
  k s' = Some r ->
  (forall p1 p2, p = (p1 ++ p2)%string -> p2 <> "" ->
                 (min <= String.length p1)%nat ->
                 k (p2 ++ s')%string = None) ->
  rep_lazy cls min (p ++ s') k = Some r.
Proof.
  induction p as [|c p IH]; intros min Hp Hmin Hk Hshorter.
  - simpl in Hmin. assert (min = O) by lia. subst min. simpl.
    destruct s'; cbn [rep_lazy]; now rewrite Hk.
  - simpl in Hp. apply andb_true_iff in Hp. destruct Hp as [Hc Hp].
    cbn [append rep_lazy]. rewrite Hc.
    assert (Hrec : rep_lazy cls (Nat.pred min) (p ++ s') k = Some r).
    { apply IH; [assumption | simpl in Hmin; lia | assumption |].
      intros p1 p2 -> Hp2 Hlen.
      apply (Hshorter (String c p1) p2); [reflexivity | assumption |].
      simpl. lia. }
    destruct min; [|exact Hrec].
    pose proof (Hshorter "" (String c p) eq_refl ltac:(discriminate)
                  ltac:(simpl; lia)) as Hnone.
    cbn [append] in Hnone. rewrite Hnone. exact Hrec.
Qed.

End PriorityFacts.

(* ================================================================== *)
(** * Further facts about scoring, queries and recommendation *)
(* ================================================================== *)

Module ScoreMore.
Import Scryfall ScoreTable ScoreBits PyFacts ScoreFacts.

(** X1.  The score of a print depends on nine fields of the record only
    (set, frame, digital, border_color, frame_effects, collector_number,
    nonfoil, highres_image, lang): two records that agree on these fields
    get the same score, or raise the same exception. *)
Theorem score_reads_nine_fields (c c' : card) :
  (forall k, In k score_keys -> lookup k c = lookup k c') ->
  score c = score c'.
Proof.
  intros H. unfold score, getitem, has_key.
  rewrite (H "set"), (H "frame"), (H "digital"), (H "border_color"),
    (H "frame_effects"), (H "collector_number"), (H "nonfoil"),
    (H "highres_image"), (H "lang") by (simpl; tauto).
  reflexivity.
Qed.

Lemma score_reads_nine_fields_witness :
  score (("name", VStr "Blood Crypt") :: Samples.card_A)
  = score Samples.card_A.
Proof.
  apply score_reads_nine_fields.
  intros k Hk. simpl in Hk.
  repeat (destruct Hk as [<- | Hk]; [reflexivity|]). contradiction.
Defined.

(** X2.  When score returns, the record has the fields set, frame,
    digital, border_color, collector_number, highres_image and lang, its
    collector number has a last character, and it has the field nonfoil
    unless that character is p or s, in which case the source does not
    look nonfoil up. *)
Theorem score_needs_fields (c : card) (n : Z) :
  score c = Ok n ->
  Forall (fun k => has_key k c = true)
         ["set"; "frame"; "digital"; "border_color"; "collector_number";
          "highres_image"; "lang"]
  /\ exists number last,
       lookup "collector_number" c = Some number
       /\ getitem_last number = Ok last
       /\ (in_p_s last = false -> has_key "nonfoil" c = true).
Proof.
  unfold score, getitem.
  destruct (lookup "set" c) eqn:Hset; [|discriminate]. cbn [bind].
  destruct (lookup "frame" c) eqn:Hframe; [|discriminate]. cbn [bind].
  destruct (lookup "digital" c) eqn:Hdigital; [|discriminate]. cbn [bind].
  destruct (lookup "border_color" c) eqn:Hborder; [|discriminate].
  cbn [bind].
  match goal with
  | |- bind ?m _ = _ -> _ => destruct m; [|discriminate]
  end. cbn [bind].
  destruct (lookup "collector_number" c) as [number|] eqn:Hnumber;
    [|discriminate].
  cbn [bind].
  destruct (getitem_last number) as [final|] eqn:Hfinal; [|discriminate].
  cbn [bind]. intros Hscore.
  assert (Hkeys : has_key "highres_image" c = true
                  /\ has_key "lang" c = true
                  /\ (in_p_s final = false -> has_key "nonfoil" c = true)).
  { unfold has_key. revert Hscore.
    destruct (in_p_s final); cbn [negb bind].
    - destruct (lookup "highres_image" c); [|discriminate]. cbn [bind].
      destruct (lookup "lang" c); [|discriminate]. intros _.
      repeat split. discriminate.
    - destruct (lookup "nonfoil" c); [|discriminate]. cbn [bind].
      destruct (lookup "highres_image" c); [|discriminate]. cbn [bind].
      destruct (lookup "lang" c); [|discriminate]. intros _.
      repeat split. }
  destruct Hkeys as (Hhigh & Hlang & Hnonfoil).
  split.
  - repeat constructor; unfold has_key;
      rewrite ?Hset, ?Hframe, ?Hdigital, ?Hborder, ?Hnumber; auto.
  - exists number, final. auto.
Qed.

Lemma score_needs_fields_witness :
  has_key "lang" Samples.card_A = true.
Proof.
  destruct (score_needs_fields Samples.card_A 126 eq_refl) as [H _].
  rewrite Forall_forall in H. apply H. simpl. tauto.
Defined.

Lemma tabulated_score_bits f k :
  satisfied k f = Z.testbit (tabulated_score f) (bit k).
Proof.
  rewrite tabulated_score_sum.
  destruct k; cbn [satisfied bit];
    destruct (negb (String.eqb (set f) "mb1")),
      (String.eqb (frame f) "2015"), (negb (digital f)),
      (String.eqb (border_color f) "black"
       && negb (extendedart_present (frame_effects f))),
      (negb (last_is_p_or_s (collector_number f)) && nonfoil f),
      (highres_image f), (String.eqb (lang f) "en"); reflexivity.
Qed.

(** X3.  For a record with well-typed fields and a non-empty collector
    number the score is a bit field: each bit of the score tells whether
    one criterion holds, so two such records with the same score satisfy
    the same criteria. *)
Theorem score_is_bit_field (c : card) (f : print_fields) :
  fields_of c = Some f -> collector_number f <> "" ->
  exists n,
    score c = Ok n
    /\ (forall k, satisfied k f = Z.testbit n (bit k))
    /\ (forall c' f',
          fields_of c' = Some f' -> collector_number f' <> "" ->
          score c' = Ok n -> forall k, satisfied k f' = satisfied k f).
Proof.
  intros Hf Hne. exists (tabulated_score f).
  split; [now apply score_fields|]. split; [apply tabulated_score_bits|].
  intros c' f' Hf' Hne' Hs k.
  rewrite (score_fields _ _ Hf' Hne') in Hs. injection Hs as Hs.
  now rewrite !tabulated_score_bits, Hs.
Qed.

Lemma points_for_bounds f k : 0 <= points_for f k <= weight k.
Proof. unfold points_for. destruct (satisfied k f), k; simpl; lia. Qed.

(** X4.  A criterion outweighs all criteria of lower weight together: of
    two well-typed records that agree on every criterion of higher weight
    than k, the one that satisfies k scores strictly higher than the one
    that does not, whatever the lower criteria are. *)
Theorem score_higher_axis_dominates (c c' : card) (f f' : print_fields)
    (k : criterion) :
  fields_of c = Some f -> collector_number f <> "" ->
  fields_of c' = Some f' -> collector_number f' <> "" ->
  satisfied k f = false -> satisfied k f' = true ->
  (forall j, weight k < weight j -> satisfied j f' = satisfied j f) ->
  exists n n', score c = Ok n /\ score c' = Ok n' /\ n < n'.
Proof.
  intros Hf Hne Hf' Hne' Hk Hk' Hhigher.
  exists (tabulated_score f), (tabulated_score f').
  rewrite (score_fields _ _ Hf Hne), (score_fields _ _ Hf' Hne').
  split; [reflexivity|]. split; [reflexivity|].
  unfold tabulated_score, criteria. cbn [map fold_right].
  assert (Hsame : forall j, weight k < weight j ->
                            points_for f' j = points_for f j).
  { intros j Hj. unfold points_for. now rewrite Hhigher. }
  assert (Hlow : points_for f k = 0) by (unfold points_for; now rewrite Hk).
  assert (Hhigh : points_for f' k = weight k)
    by (unfold points_for; now rewrite Hk').
  pose proof (points_for_bounds f NotMysteryBooster).
  pose proof (points_for_bounds f ModernFrame).
  pose proof (points_for_bounds f NotDigital).
  pose proof (points_for_bounds f BlackBorderNoExtendedArt).
  pose proof (points_for_bounds f RegularNonfoil).
  pose proof (points_for_bounds f HighresImage).
  pose proof (points_for_bounds f English).
  pose proof (points_for_bounds f' NotMysteryBooster).
  pose proof (points_for_bounds f' ModernFrame).
  pose proof (points_for_bounds f' NotDigital).
  pose proof (points_for_bounds f' BlackBorderNoExtendedArt).
  pose proof (points_for_bounds f' RegularNonfoil).
  pose proof (points_for_bounds f' HighresImage).
  pose proof (points_for_bounds f' English).
  destruct k; cbn [weight] in *;
    repeat match goal with
           | |- context [points_for f' ?j] =>
               rewrite (Hsame j) by (cbn [weight]; lia)
           end;
    lia.
Qed.

Lemma score_is_bit_field_witness :
  exists n,
    score Samples.card_A = Ok n
    /\ Z.testbit n (bit NotMysteryBooster) = false
    /\ Z.testbit n (bit English) = true.
Proof.
  destruct (score_is_bit_field Samples.card_A _ eq_refl
              ltac:(discriminate)) as (n & Hn & Hbits & _).
  exists n. split; [exact Hn|]. rewrite <- !Hbits. split; reflexivity.
Defined.

Lemma score_higher_axis_dominates_witness :
  exists n n',
    score Samples.card_A = Ok n /\ score Samples.card_A_rna = Ok n'
    /\ n < n'.
Proof.
  apply (score_higher_axis_dominates Samples.card_A Samples.card_A_rna
           _ _ NotMysteryBooster eq_refl ltac:(discriminate) eq_refl
           ltac:(discriminate) eq_refl eq_refl).
  intros j Hj. destruct j; try reflexivity. simpl in Hj. lia.
Defined.

End ScoreMore.

Module QueryMore.
Import Scryfall QuerySpec QueryFacts.

Section Query.
Context `{Builtins}.

Lemma filter_result_app {A} (p : A -> result bool) xs ys zs :
  filter_result p (xs ++ ys) = Ok zs <->
  exists xs' ys', filter_result p xs = Ok xs'
                  /\ filter_result p ys = Ok ys' /\ zs = xs' ++ ys'.
Proof.
  revert zs. induction xs as [|x xs IH]; intros zs; simpl.
  - split.
    + intros Hys. exists [], zs. auto.
    + intros (xs' & ys' & [= <-] & Hys & ->). exact Hys.
  - destruct (p x) as [b|]; cbn [bind].
    + destruct (filter_result p (xs ++ ys)) as [r|] eqn:E; cbn [bind].
      * destruct (proj1 (IH r) eq_refl) as (xs' & ys' & -> & Hys & ->).
        cbn [bind]. split.
        -- intros [= <-]. exists (if b then x :: xs' else xs'), ys'.
           split; [reflexivity|]. split; [exact Hys|]. now destruct b.
        -- intros (xs2 & ys2 & [= <-] & Hys2 & ->).
           rewrite Hys in Hys2. injection Hys2 as <-. now destruct b.
      * split; [discriminate|].
        intros (xs2 & ys2 & Hx & Hy & ->).
        destruct (filter_result p xs) as [xs'|] eqn:Ex; [|discriminate].
        assert (Hsome : Raise e = Ok (xs' ++ ys2)) by (apply IH; eauto).
        discriminate.
    + split; [discriminate|]. intros (? & ? & ? & _). discriminate.
Qed.

Lemma get_cards_step_app xs ys kw zs :
  get_cards_step (xs ++ ys) kw = Ok zs <->
  exists xs' ys', get_cards_step xs kw = Ok xs'
                  /\ get_cards_step ys kw = Ok ys' /\ zs = xs' ++ ys'.
Proof.
  destruct kw as [key v]. unfold get_cards_step.
  destruct v; cbn [lower bind];
    try (split; [discriminate | intros (? & ? & ? & _); discriminate]).
  - split.
    + intros [= <-]. eauto.
    + intros (? & ? & [= <-] & [= <-] & ->). reflexivity.
  - apply filter_result_app.
Qed.

Lemma get_cards_loop_app kwargs : forall xs ys zs,
  get_cards_loop (xs ++ ys) kwargs = Ok zs <->
  exists xs' ys', get_cards_loop xs kwargs = Ok xs'
                  /\ get_cards_loop ys kwargs = Ok ys' /\ zs = xs' ++ ys'.
Proof.
  induction kwargs as [|kw kwargs IH]; intros xs ys zs; cbn [get_cards_loop].
  - split.
    + intros [= <-]. eauto.
    + intros (? & ? & [= <-] & [= <-] & ->). reflexivity.
  - split.
    + destruct (get_cards_step (xs ++ ys) kw) as [r|] eqn:E; [|discriminate].
      cbn [bind]. apply get_cards_step_app in E.
      destruct E as (xs1 & ys1 & -> & -> & ->). cbn [bind]. apply IH.
    + intros (xs' & ys' & Hx & Hy & ->).
      destruct (get_cards_step xs kw) as [xs1|] eqn:Ex; [|discriminate].
      destruct (get_cards_step ys kw) as [ys1|] eqn:Ey; [|discriminate].
      cbn [bind] in Hx, Hy.
      assert (Hstep : get_cards_step (xs ++ ys) kw = Ok (xs1 ++ ys1))
        by (apply get_cards_step_app; eauto).
      rewrite Hstep. cbn [bind]. apply IH. eauto.
Qed.

(** X5.  get_cards works record by record: on a database followed by
    further records it returns exactly when it returns on both parts, and
    the result is the result on the first part followed by the result on
    the second. *)
Theorem get_cards_app (db extra : list card)
    (kwargs : list (string * value)) (cards : list card) :
  get_cards (db ++ extra) kwargs = Ok cards <->
  exists old new,
    get_cards db kwargs = Ok old /\ get_cards extra kwargs = Ok new
    /\ cards = old ++ new.
Proof. apply get_cards_loop_app. Qed.

(** X6.  Adding records at the end of the database does not change the
    record that get_card finds, as long as the query does not raise on the
    added records. *)
Theorem get_card_stable (db extra : list card)
    (card_name set_id collector_number : value) (c : card)
    (new : list card) :
  get_card db card_name set_id collector_number = Ok (Some c) ->
  get_cards extra [("name", card_name); ("set", set_id);
                   ("collector_number", collector_number)] = Ok new ->
  get_card (db ++ extra) card_name set_id collector_number = Ok (Some c).
Proof.
  unfold get_card. intros Hdb Hextra.
  destruct (get_cards db _) as [old|] eqn:Hold; [|discriminate].
  cbn [bind] in Hdb.
  assert (Happ : get_cards (db ++ extra)
                   [("name", card_name); ("set", set_id);
                    ("collector_number", collector_number)]
                 = Ok (old ++ new)) by (apply get_cards_loop_app; eauto).
  rewrite Happ. cbn [bind]. destruct old; [discriminate|]. exact Hdb.
Qed.

Lemma passes_all_Permutation kwargs kwargs' c :
  Permutation kwargs kwargs' -> passes_all kwargs c = passes_all kwargs' c.
Proof.
  unfold passes_all. induction 1; simpl; try congruence.
  now destruct (passes x c), (passes y c).
Qed.

(** X7.  The order of the keyword filters of get_cards does not matter for
    the result: two calls whose filters are a permutation of each other
    and that both return, return the same list. *)
Theorem get_cards_filter_order (db : list card)
    (kwargs kwargs' : list (string * value)) (cards cards' : list card) :
  Permutation kwargs kwargs' ->
  get_cards db kwargs = Ok cards ->
  get_cards db kwargs' = Ok cards' ->
  cards = cards'.
Proof.
  intros Hperm Hc Hc'.
  apply get_cards_sound in Hc, Hc'. subst.
  apply filter_ext. intros c. now apply passes_all_Permutation.
Qed.

End Query.

Lemma get_cards_app_witness :
  get_cards (H := Samples.ascii_builtins)
            ([Samples.crypt_rtr; Samples.forest] ++ [Samples.crypt_rna])
            [("name", VStr "blood crypt")]
  = Ok ([Samples.crypt_rtr] ++ [Samples.crypt_rna]).
Proof.
  apply get_cards_app. exists [Samples.crypt_rtr], [Samples.crypt_rna].
  repeat split.
Defined.

Lemma get_card_stable_witness :
  get_card (H := Samples.ascii_builtins)
           ([Samples.crypt_rna; Samples.forest]
            ++ [Samples.crypt_rtr; Samples.crypt_promo])
           (VStr "Blood Crypt") VNone VNone
  = Ok (Some Samples.crypt_rna).
Proof.
  apply (get_card_stable (H := Samples.ascii_builtins)
           [Samples.crypt_rna; Samples.forest]
           [Samples.crypt_rtr; Samples.crypt_promo]
           (VStr "Blood Crypt") VNone VNone Samples.crypt_rna
           [Samples.crypt_rtr; Samples.crypt_promo] eq_refl eq_refl).
Defined.

Lemma get_cards_filter_order_witness :
  Permutation [("name", VStr "Blood Crypt"); ("set", VStr "RNA")]
              [("set", VStr "RNA"); ("name", VStr "Blood Crypt")]
  /\ get_cards (H := Samples.ascii_builtins) Samples.sample_db
       [("name", VStr "Blood Crypt"); ("set", VStr "RNA")]
     = Ok [Samples.crypt_rna]
  /\ [Samples.crypt_rna] = [Samples.crypt_rna].
Proof.
  split; [apply perm_swap|]. split; [reflexivity|].
  exact (get_cards_filter_order (H := Samples.ascii_builtins)
           Samples.sample_db
           [("name", VStr "Blood Crypt"); ("set", VStr "RNA")]
           [("set", VStr "RNA"); ("name", VStr "Blood Crypt")]
           [Samples.crypt_rna] [Samples.crypt_rna]
           (perm_swap _ _ _) eq_refl eq_refl).
Defined.

End QueryMore.

Module RecommendMore.
Import Scryfall QuerySpec QueryFacts RecommendSpec ListFacts RecommendFacts.

Lemma first_index_of_least m xs : forall i,
  In m xs ->
  exists j, first_index_of m xs i = (i + j)%nat
            /\ nth_error xs j = Some m
            /\ forall j' x, (j' < j)%nat -> nth_error xs j' = Some x -> x <> m.
Proof.
  induction xs as [|x xs IH]; simpl; intros i; [tauto|].
  intros Hin. destruct (Z.eqb_spec x m) as [->|Hne].
  - exists O. split; [lia|]. split; [reflexivity|]. intros; lia.
  - destruct Hin as [?|Hin]; [contradiction|].
    destruct (IH (S i) Hin) as (j & -> & Hj & Hleast).
    exists (S j). split; [lia|]. split; [exact Hj|].
    intros [|j'] y Hlt; simpl.
    + now intros [= <-].
    + apply Hleast. lia.
Qed.

Lemma no_current set_id collector_number :
  set_id = VNone \/ collector_number = VNone ->
  negb (is_none set_id) && negb (is_none collector_number) = false.
Proof. intros [->| ->]; simpl; [reflexivity | apply andb_false_r]. Qed.

Lemma map_result_getitem_In {A} (l : list A) idxs l' :
  map_result (list_getitem l) idxs = Ok l' -> incl l' l.
Proof.
  intros Hm. apply map_result_Forall2 in Hm.
  induction Hm as [|i a idxs l' Hi _ IH]; intros x; simpl; [tauto|].
  intros [<-|Hin]; [|now apply IH].
  unfold list_getitem in Hi. destruct (nth_error l i) eqn:E; [|discriminate].
  injection Hi as <-. eapply nth_error_In; eauto.
Qed.

Lemma list_remove_incl x xs ys : list_remove x xs = Ok ys -> incl ys xs.
Proof.
  revert ys. induction xs as [|a xs IH]; simpl; intros ys; [discriminate|].
  destruct (dict_eq a x).
  - intros [= <-]. apply incl_tl, incl_refl.
  - destruct (list_remove x xs) as [zs|]; [|discriminate]. cbn [bind].
    intros [= <-]. intros y [<-|Hy]; [now left | right; now apply (IH zs)].
Qed.

Section Recommend.
Context `{Builtins} `{Numpy}.

(** X8.  Without a current print (no set or no collector number), mode
    best returns, for a non-empty list of alternatives that can all be
    scored, the earliest alternative in database order among those with
    the highest score. *)
Theorem recommend_best_first_maximal (db : list card)
    (card_name set_id collector_number oracle_id : value)
    (alternatives : list card) (scores : list Z) :
  set_id = VNone \/ collector_number = VNone ->
  get_cards db [("name", card_name); ("oracle_id", oracle_id)]
    = Ok alternatives ->
  map_result score alternatives = Ok scores ->
  alternatives <> [] ->
  exists i a m,
    recommend_print db card_name set_id collector_number oracle_id "best"
    = Ok (VDict a)
    /\ nth_error alternatives i = Some a
    /\ score a = Ok m
    /\ (forall b, In b alternatives -> exists sb, score b = Ok sb /\ sb <= m)
    /\ (forall j b, (j < i)%nat -> nth_error alternatives j = Some b ->
                    exists sb, score b = Ok sb /\ sb < m).
Proof.
  intros Hno Halt Hscores Hne.
  pose proof (map_result_Forall2 _ _ _ Hscores) as HF.
  destruct scores as [|x xs].
  { inversion HF; subst. contradiction. }
  destruct (np_max_spec x xs) as (m & Hm & Hmin & Hmax).
  rewrite Forall_forall in Hmax.
  destruct (first_index_of_least m (x :: xs) 0 Hmin)
    as (i & Hi & Hnth & Hleast).
  rewrite Nat.add_0_l in Hi.
  destruct (Forall2_nth_error_r _ _ _ _ _ HF Hnth) as (a & Ha & Hsa).
  exists i, a, m. split.
  { unfold recommend_print. rewrite (no_current _ _ Hno), Halt. cbn [bind].
    rewrite Hscores. cbn [bind].
    change (String.eqb "best" "best") with true. cbv iota. cbn [bind].
    unfold np_argmax. injection Hm as Hm. rewrite Hm, Hi. cbn [bind].
    unfold list_getitem. now rewrite Ha. }
  split; [exact Ha|]. split; [exact Hsa|]. split.
  - intros b Hb. destruct (Forall2_In_l _ _ _ _ HF Hb) as (sb & Hsb & Hscore).
    exists sb. split; [exact Hscore | now apply Hmax].
  - intros j b Hj Hb.
    destruct (Forall2_nth_error_l _ _ _ _ _ HF Hb) as (sb & Hsb & Hscore).
    exists sb. split; [exact Hscore|].
    assert (sb <= m) by (apply Hmax; eapply nth_error_In; eauto).
    assert (sb <> m) by (eapply Hleast; eauto).
    lia.
Qed.

(** X9.  Whatever recommend_print returns is taken from the database:
    None, one record of the database that has the requested name and
    oracle id, or a list of records of the database. *)
Theorem recommend_print_in_database (db : list card)
    (card_name set_id collector_number oracle_id : value) (mode : string)
    (r : value) :
  recommend_print db card_name set_id collector_number oracle_id mode = Ok r ->
  match r with
  | VNone => True
  | VDict a =>
      In a db /\ passes ("name", card_name) a = true
      /\ passes ("oracle_id", oracle_id) a = true
  | VList l => Forall (fun v => exists a, v = VDict a /\ In a db) l
  | _ => False
  end.
Proof.
  unfold recommend_print.
  destruct (if negb (is_none set_id) && negb (is_none collector_number)
            then get_card db card_name set_id collector_number
            else Ok None) as [current|] eqn:Hcur; [|discriminate].
  cbn [bind].
  assert (Hcurrent : forall c, current = Some c -> In c db).
  { intros c ->. destruct (negb (is_none set_id) && _); [|discriminate].
    unfold get_card in Hcur.
    destruct (get_cards db _) as [cards|] eqn:Hcards; [|discriminate].
    cbn [bind] in Hcur. apply get_cards_sound in Hcards.
    destruct cards as [|c' cards]; [discriminate|]. injection Hcur as ->.
    assert (Hin : In c (c :: cards)) by now left.
    rewrite Hcards in Hin. now apply filter_In in Hin. }
  destruct (get_cards db _) as [alternatives|] eqn:Halt; [|discriminate].
  cbn [bind]. apply get_cards_sound in Halt.
  assert (Hpass : forall a, In a alternatives ->
            In a db /\ passes ("name", card_name) a = true
            /\ passes ("oracle_id", oracle_id) a = true).
  { intros a Ha. rewrite Halt in Ha. apply filter_In in Ha.
    destruct Ha as [Hdb Hp]. unfold passes_all in Hp. simpl in Hp.
    rewrite andb_true_r in Hp. apply andb_true_iff in Hp. tauto. }
  destruct (map_result score alternatives) as [scores|]; [|discriminate].
  cbn [bind]. destruct (String.eqb mode "best").
  - match goal with
    | |- bind ?m _ = _ -> _ => destruct m as [[|]|]; [| |discriminate]
    end; cbn [bind].
    + now intros [= <-].
    + destruct (np_argmax scores) as [i|]; [|discriminate]. cbn [bind].
      unfold list_getitem.
      destruct (nth_error alternatives i) as [a|] eqn:Ha; [|discriminate].
      cbn [bind]. intros [= <-]. apply Hpass. eapply nth_error_In; eauto.
  - destruct (String.eqb mode "all"); [|now intros [= <-]].
    destruct (map_result (list_getitem alternatives) (argsort scores))
      as [sorted|] eqn:Hsorted; [|discriminate].
    cbn [bind]. apply map_result_getitem_In in Hsorted.
    assert (Hrev : incl (rev sorted) alternatives).
    { intros a Ha. apply Hsorted. now apply in_rev. }
    assert (Hall : forall l, incl l alternatives ->
              Forall (fun v => exists a, v = VDict a /\ In a db)
                     (map VDict l)).
    { intros l Hl. rewrite Forall_forall. intros v Hv.
      apply in_map_iff in Hv. destruct Hv as (a & <- & Ha).
      exists a. split; [reflexivity|]. now apply Hpass, Hl. }
    destruct current as [c|]; cbn [bind].
    + destruct (list_contains c (rev sorted)).
      * destruct (list_remove c (rev sorted)) as [rest|] eqn:Hrest;
          [|discriminate].
        cbn [bind]. intros [= <-]. cbn [map]. constructor.
        -- exists c. split; [reflexivity | now apply Hcurrent].
        -- apply Hall. intros a Ha. apply Hrev.
           now apply (list_remove_incl _ _ _ Hrest).
      * cbn [bind]. intros [= <-]. cbn [map]. constructor.
        -- exists c. split; [reflexivity | now apply Hcurrent].
        -- now apply Hall.
    + intros [= <-]. now apply Hall.
Qed.

(** X10.  Without a current print, mode all returns all alternatives, each
    once, in descending order of score, the first having the highest
    score; numpy.argsort only has to return a sorting permutation. *)
Theorem recommend_all_ranks_alternatives (db : list card)
    (card_name set_id collector_number oracle_id : value)
    (alternatives : list card) (scores : list Z) :
  argsort_spec ->
  set_id = VNone \/ collector_number = VNone ->
  get_cards db [("name", card_name); ("oracle_id", oracle_id)]
    = Ok alternatives ->
  map_result score alternatives = Ok scores ->
  exists ranking,
    recommend_print db card_name set_id collector_number oracle_id "all"
    = Ok (VList (map VDict ranking))
    /\ Permutation ranking alternatives
    /\ descending ranking
    /\ (forall a m, hd_error ranking = Some a -> np_max scores = Ok m ->
                    score a = Ok m).
Proof.
  intros Hargsort Hno Halt Hscores.
  pose proof (map_result_Forall2 _ _ _ Hscores) as HF.
  destruct (sorted_by_argsort _ _ Hargsort HF)
    as (sorted & Hsorted & Hp & Hdesc).
  assert (Hp' : Permutation (rev sorted) alternatives).
  { eapply Permutation_trans; [|exact Hp].
    apply Permutation_sym, Permutation_rev. }
  exists (rev sorted). split.
  { unfold recommend_print. rewrite (no_current _ _ Hno), Halt. cbn [bind].
    rewrite Hscores. cbn [bind].
    change (String.eqb "all" "best") with false.
    change (String.eqb "all" "all") with true. cbv iota.
    rewrite Hsorted. reflexivity. }
  split; [exact Hp'|]. split; [exact Hdesc|].
  intros a m Hhd Hm.
  destruct scores as [|x xs]; [discriminate|].
  destruct (np_max_spec x xs) as (m' & Hm' & Hmin & Hmax).
  rewrite Hm in Hm'. injection Hm' as <-.
  rewrite Forall_forall in Hmax.
  destruct (In_nth_error _ _ Hmin) as [j Hj].
  destruct (Forall2_nth_error_r _ _ _ _ _ HF Hj) as (b & Hb & Hsb).
  assert (Hbin : In b (rev sorted)).
  { apply (Permutation_in _ (Permutation_sym Hp')).
    eapply nth_error_In; eauto. }
  destruct (rev sorted) as [|a' rest]; [discriminate|].
  injection Hhd as ->.
  assert (Hain : In a alternatives)
    by (apply (Permutation_in _ Hp'); now left).
  destruct (Forall2_In_l _ _ _ _ HF Hain) as (sa & Hsa & Hscore).
  rewrite Hscore. f_equal.
  assert (sa <= m) by now apply Hmax.
  destruct Hbin as [->|Hbin]; [congruence|].
  unfold descending in Hdesc. apply StronglySorted_inv in Hdesc.
  destruct Hdesc as [_ Hhead]. rewrite Forall_forall in Hhead.
  destruct (Hhead b Hbin) as (sb' & sa' & Hb' & Ha' & Hle).
  rewrite Hsb in Hb'. rewrite Hscore in Ha'.
  injection Hb' as <-. injection Ha' as <-. lia.
Qed.

End Recommend.

Lemma recommend_best_first_maximal_witness :
  exists a m,
    recommend_print (H := Samples.ascii_builtins) (H0 := insertion_numpy)
      Samples.sample_db (VStr "Blood Crypt") VNone VNone VNone "best"
    = Ok (VDict a)
    /\ score a = Ok m
    /\ forall b, In b [Samples.crypt_rtr; Samples.crypt_promo;
                       Samples.crypt_rna; Samples.crypt_digital] ->
                 exists sb, score b = Ok sb /\ sb <= m.
Proof.
  destruct (recommend_best_first_maximal
              (H := Samples.ascii_builtins) (H0 := insertion_numpy)
              Samples.sample_db (VStr "Blood Crypt") VNone VNone VNone
              [Samples.crypt_rtr; Samples.crypt_promo;
               Samples.crypt_rna; Samples.crypt_digital]
              [125; 111; 127; 91]
              (or_introl eq_refl) eq_refl eq_refl ltac:(discriminate))
    as (i & a & m & Hrec & _ & Hscore & Hmax & _).
  exists a, m. auto.
Defined.

Lemma recommend_print_in_database_witness :
  In Samples.crypt_rna Samples.sample_db.
Proof.
  exact (proj1 (recommend_print_in_database
                  (H := Samples.ascii_builtins) (H0 := insertion_numpy)
                  Samples.sample_db (VStr "Blood Crypt") VNone VNone VNone
                  "best" (VDict Samples.crypt_rna) eq_refl)).
Defined.

Lemma recommend_all_ranks_alternatives_witness :
  exists ranking,
    recommend_print (H := Samples.ascii_builtins) (H0 := insertion_numpy)
      Samples.sample_db (VStr "Blood Crypt") VNone VNone VNone "all"
    = Ok (VList (map VDict ranking))
    /\ Permutation ranking [Samples.crypt_rtr; Samples.crypt_promo;
                            Samples.crypt_rna; Samples.crypt_digital]
    /\ descending ranking.
Proof.
  destruct (recommend_all_ranks_alternatives
              (H := Samples.ascii_builtins) (H0 := insertion_numpy)
              Samples.sample_db (VStr "Blood Crypt") VNone VNone VNone
              [Samples.crypt_rtr; Samples.crypt_promo;
               Samples.crypt_rna; Samples.crypt_digital]
              [125; 111; 127; 91]
              insertion_argsort_spec (or_introl eq_refl) eq_refl eq_refl)
    as (ranking & Hrec & Hperm & Hdesc & _).
  exists ranking. auto.
Defined.

End RecommendMore.

(* ================================================================== *)
(** * Further facts about decklists *)
(* ================================================================== *)

Module DecklistMore.
Import Regex LineFormat Decklist DecklistSpec DecklistViews.
Import ListFacts RegexFacts DecklistFacts EntrySpec StringFacts.

Lemma cards_app es es' :
  cards {| entries := es ++ es' |}
  = cards {| entries := es |} ++ cards {| entries := es' |}.
Proof. unfold cards. simpl. apply filter_app. Qed.

Lemma fold_add_shift l : forall acc,
  fold_left Z.add l acc = acc + fold_left Z.add l 0.
Proof.
  induction l as [|x l IH]; intros acc; simpl; [lia|].
  rewrite (IH (acc + x)), (IH x). lia.
Qed.

Lemma total_count_app es es' :
  total_count {| entries := es ++ es' |}
  = total_count {| entries := es |} + total_count {| entries := es' |}.
Proof.
  unfold total_count. rewrite cards_app, map_app, fold_left_app.
  apply fold_add_shift.
Qed.

(** X11.  append_card adds the count to total_count and one to
    total_count_unique; append_comment changes neither. *)
Theorem totals_of_append (self : Decklist) (count : Z) (card : value)
    (text : string) :
  total_count (append_card self count card) = total_count self + count
  /\ total_count_unique (append_card self count card)
     = S (total_count_unique self)
  /\ total_count (append_comment self text) = total_count self
  /\ total_count_unique (append_comment self text)
     = total_count_unique self.
Proof.
  destruct self as [es]. unfold append_card, append_comment. cbn [entries].
  rewrite !total_count_app. unfold total_count_unique.
  rewrite !cards_app, !length_app. unfold total_count, cards. simpl.
  repeat split; lia.
Qed.

Section Parsing.
Context `{Sanitizing}.

(** X12.  The parser works line by line without memory: the entries of two
    streams read one after the other are the entries of the first followed
    by those of the second, the success flag is the conjunction of the two
    flags and the total count is the sum. *)
Theorem parse_stream_app (stream stream' : list string) :
  entries (fst (parse_decklist_stream (stream ++ stream')))
  = entries (fst (parse_decklist_stream stream))
    ++ entries (fst (parse_decklist_stream stream'))
  /\ snd (parse_decklist_stream (stream ++ stream'))
     = snd (parse_decklist_stream stream)
       && snd (parse_decklist_stream stream')
  /\ total_count (fst (parse_decklist_stream (stream ++ stream')))
     = total_count (fst (parse_decklist_stream stream))
       + total_count (fst (parse_decklist_stream stream')).
Proof.
  destruct (parse_decklist_stream_spec (stream ++ stream')) as [He Hok].
  destruct (parse_decklist_stream_spec stream) as [He1 Hok1].
  destruct (parse_decklist_stream_spec stream') as [He2 Hok2].
  rewrite Hok, Hok1, Hok2, forallb_app.
  assert (Hentries :
    entries (fst (parse_decklist_stream (stream ++ stream')))
    = entries (fst (parse_decklist_stream stream))
      ++ entries (fst (parse_decklist_stream stream')))
    by now rewrite He, He1, He2, map_app.
  split; [exact Hentries|]. split; [reflexivity|].
  destruct (fst (parse_decklist_stream (stream ++ stream'))) as [es].
  destruct (fst (parse_decklist_stream stream)) as [es1].
  destruct (fst (parse_decklist_stream stream')) as [es2].
  simpl in Hentries. subst es. apply total_count_app.
Qed.

Lemma line_pattern_starts_with_digit t g :
  matches_from line_pattern t g ->
  exists c t', t = String c t' /\ is_digit c = true.
Proof.
  intros [s' Hm]. unfold line_pattern, seq_of in Hm. cbn [fold_right] in Hm.
  invert Hm.
  match goal with H : matches (Group 1 _) _ _ _ _ |- _ => invert H end.
  match goal with H : matches (Rep _ _ is_digit) _ _ _ _ |- _ => invert H end.
  match goal with
  | Hd : all_chars is_digit ?p = true, Hl : (1 <= String.length ?p)%nat |- _ =>
      destruct p as [|c p]; [simpl in Hl; lia|];
      simpl in Hd; apply andb_true_iff in Hd; destruct Hd as [Hc _];
      exists c; eexists; split; [reflexivity | exact Hc]
  end.
Qed.

Lemma no_digit_no_match line :
  all_chars (fun c => negb (is_digit c)) line = true ->
  search line_pattern line = None.
Proof.
  intros Hline. destruct (search line_pattern line) as [m|] eqn:E;
    [|reflexivity].
  destruct (search_sound _ _ _ E) as (pre & t & -> & Hm).
  destruct (line_pattern_starts_with_digit _ _ Hm) as (c & t' & -> & Hc).
  rewrite all_chars_app in Hline. apply andb_true_iff in Hline.
  destruct Hline as [_ Hline]. simpl in Hline. now rewrite Hc in Hline.
Qed.

(** X13.  A stream without any digit yields only comments, the stripped
    lines in order, and the flag True, whatever the sanitizer is. *)
Theorem lines_without_digit_are_comments (stream : list string) :
  Forall (fun line => all_chars (fun c => negb (is_digit c)) line = true)
         stream ->
  parse_decklist_stream stream
  = ({| entries := map (fun line => Comment (strip line)) stream |}, true).
Proof.
  intros Hstream.
  destruct (parse_decklist_stream_spec stream) as [He Hok].
  assert (Hentry : map line_entry stream
                   = map (fun line => Comment (strip line)) stream).
  { apply map_ext_in. intros line Hin. rewrite Forall_forall in Hstream.
    unfold line_entry. now rewrite (no_digit_no_match _ (Hstream _ Hin)). }
  assert (Hall : forallb line_ok stream = true).
  { apply forallb_forall. intros line Hin. rewrite Forall_forall in Hstream.
    unfold line_ok. now rewrite (no_digit_no_match _ (Hstream _ Hin)). }
  destruct (parse_decklist_stream stream) as [[es] ok]. simpl in *.
  now rewrite He, Hok, Hentry, Hall.
Qed.

Lemma line_entry_count_nonneg line : 0 <= count_of (line_entry line).
Proof.
  unfold line_entry.
  destruct (search line_pattern line) as [m|] eqn:Hm; [|simpl; lia].
  destruct (search_line_pattern_groups _ _ Hm)
    as (digits & name & Hcount & Hdigits & _ & Hname & _).
  rewrite Hcount, Hname.
  destruct (fst (validate_card_name name)); simpl; [|lia].
  now apply int_digits_nonneg.
Qed.

Lemma fold_add_nonneg l :
  Forall (fun x => 0 <= x) l -> 0 <= fold_left Z.add l 0.
Proof.
  induction 1 as [|x l Hx _ IH]; simpl; [lia|].
  rewrite fold_add_shift. lia.
Qed.

Lemma filter_partition_length {A} (f : A -> bool) l :
  (List.length (filter f l)
   + List.length (filter (fun x => negb (f x)) l) = List.length l)%nat.
Proof.
  induction l as [|x l IH]; simpl; [reflexivity|].
  destruct (f x); simpl; lia.
Qed.

(** X14.  Every line of the stream becomes exactly one entry: the number
    of cards plus the number of comments of a parsed decklist is the
    number of lines, and the total count is not negative. *)
Theorem parsed_totals (stream : list string) :
  let d := fst (parse_decklist_stream stream) in
  0 <= total_count d
  /\ (total_count_unique d
      + List.length (filter (fun e => negb (is_card e)) (entries d))
      = List.length stream)%nat
  /\ (total_count_unique d <= List.length stream)%nat.
Proof.
  intros d. destruct (parse_decklist_stream_spec stream) as [He _].
  fold d in He.
  assert (Hlen : (total_count_unique d
            + List.length (filter (fun e => negb (is_card e)) (entries d))
            = List.length stream)%nat).
  { unfold total_count_unique, cards.
    rewrite (filter_partition_length is_card), He. apply length_map. }
  split; [|split; [exact Hlen | lia]].
  unfold total_count, cards. apply fold_add_nonneg.
  rewrite Forall_forall. intros x Hx. apply in_map_iff in Hx.
  destruct Hx as (e & <- & He'). apply filter_In in He'.
  destruct He' as [He' _]. rewrite He in He'. apply in_map_iff in He'.
  destruct He' as (line & <- & _). apply line_entry_count_nonneg.
Qed.

End Parsing.

Section Formatting.
Context `{Builtins}.

(** X15.  Whenever the arena format of a card returns, so does the text
    format, and the arena line is the text line followed by the
    upper-cased set in parentheses and the collector number. *)
Theorem arena_extends_text (count : Z) (card : value) (line : string) :
  Card_format count card "arena" = Ok line ->
  exists d name set_id number,
    card = VDict d
    /\ lookup "name" d = Some name
    /\ lookup "set" d = Some (VStr set_id)
    /\ lookup "collector_number" d = Some number
    /\ Card_format count card "text"
       = Ok (str_of_int count ++ " " ++ str_of_value name)%string
    /\ line = ((str_of_int count ++ " " ++ str_of_value name)
               ++ " (" ++ str_upper set_id ++ ") "
               ++ str_of_value number)%string.
Proof.
  unfold Card_format.
  change (String.eqb "arena" "text") with false.
  change (String.eqb "arena" "arena") with true.
  change (String.eqb "text" "text") with true. cbv iota.
  unfold card_getitem, getitem, upper.
  destruct card as [| | | | |d]; try discriminate.
  destruct (lookup "name" d) as [name|] eqn:Hname; [|discriminate].
  cbn [bind].
  destruct (lookup "set" d) as [[| | |set_id| |]|] eqn:Hset;
    try discriminate.
  cbn [bind].
  destruct (lookup "collector_number" d) as [number|] eqn:Hnumber;
    [|discriminate].
  cbn [bind]. intros [= <-].
  exists d, name, set_id, number.
  repeat (split; [reflexivity|]).
  now rewrite string_app_assoc, (string_app_assoc " ").
Qed.

End Formatting.

Lemma lines_without_digit_are_comments_witness :
  parse_decklist_stream (H := Samples.sample_sanitizing)
    ["// sideboard"; "  Lands:  "]
  = ({| entries := [Comment "// sideboard"; Comment "Lands:"] |}, true).
Proof.
  apply (lines_without_digit_are_comments (H := Samples.sample_sanitizing)
           ["// sideboard"; "  Lands:  "]).
  repeat constructor.
Defined.

Lemma arena_extends_text_witness :
  exists line,
    Card_format (H := Samples.ascii_builtins) 4 (VDict Samples.crypt_rna)
                "text" = Ok line
    /\ ("4 Blood Crypt (RNA) 245" = line ++ " (RNA) 245")%string.
Proof.
  destruct (arena_extends_text (H := Samples.ascii_builtins) 4
              (VDict Samples.crypt_rna) "4 Blood Crypt (RNA) 245" eq_refl)
    as (d & name & set_id & number & Hcard & Hname & Hset & Hnumber
        & Htext & Hline).
  injection Hcard as <-.
  injection Hname as <-. injection Hset as <-. injection Hnumber as <-.
  eexists. split; [exact Htext | exact Hline].
Defined.

End DecklistMore.

Module FormatMore.
Import Decklist DecklistSpec DecklistViews ListFacts DecklistFacts.

Lemma map_result_first_failure {A B} (f : A -> result B) xs e :
  map_result f xs = Raise e ->
  exists pre x post,
    xs = pre ++ x :: post
    /\ Forall (fun y => exists b, f y = Ok b) pre
    /\ f x = Raise e.
Proof.
  induction xs as [|x xs IH]; simpl; [discriminate|].
  destruct (f x) as [y|e'] eqn:E.
  - destruct (map_result f xs) as [ys|e'']; [discriminate|].
    intros [= <-]. destruct (IH eq_refl) as (pre & x' & post & -> & Hpre & Hx).
    exists (x :: pre), x', post. split; [reflexivity|].
    split; [constructor; eauto | exact Hx].
  - intros [= <-]. exists [], x, xs. auto.
Qed.

Lemma map_result_Ok_iff {A B} (f : A -> result B) xs ys :
  map_result f xs = Ok ys <-> Forall2 (fun x y => f x = Ok y) xs ys.
Proof.
  split; [apply map_result_Forall2|].
  induction 1 as [|x y xs ys Hxy _ IH]; simpl; [reflexivity|].
  now rewrite Hxy, IH.
Qed.

Section Formatting.
Context `{Builtins}.

(** X16.  Formatting a decklist returns the formatted entries joined by
    the line separator exactly when every entry can be formatted, and
    otherwise raises the exception of the first entry that cannot be
    formatted. *)
Theorem decklist_format_outcome (self : Decklist) (format_spec : string) :
  (forall text,
     Decklist_format self format_spec = Ok text <->
     exists parts,
       Forall2 (fun e part => format e format_spec = Ok part)
               (entries self) parts
       /\ text = join linesep parts)
  /\ (forall e,
        Decklist_format self format_spec = Raise e ->
        exists before entry after,
          entries self = before ++ entry :: after
          /\ Forall (fun e' => exists part, format e' format_spec = Ok part)
                    before
          /\ format entry format_spec = Raise e).
Proof.
  unfold Decklist_format. split.
  - intros text. split.
    + destruct (map_result _ (entries self)) as [parts|] eqn:E;
        [|discriminate].
      cbn [bind]. intros [= <-]. exists parts.
      split; [now apply map_result_Forall2 | reflexivity].
    + intros (parts & HF & ->). apply map_result_Ok_iff in HF.
      now rewrite HF.
  - intros e. destruct (map_result _ (entries self)) as [parts|e'] eqn:E;
      [discriminate|].
    cbn [bind]. intros [= <-]. now apply map_result_first_failure in E.
Qed.

Lemma map_result_length {A B} (f : A -> result B) xs ys :
  map_result f xs = Ok ys -> List.length ys = List.length xs.
Proof.
  intros Hm. apply map_result_Forall2 in Hm. symmetry.
  eapply Forall2_length; eauto.
Qed.

(** X17.  When Card.image_uris returns, the list is not empty: it holds
    the image_uris of the record alone, or, for a record without that
    field, the image_uris of each face in order. *)
Theorem image_uris_outcome (card : value) (uris : list value) :
  image_uris card = Ok uris ->
  uris <> []
  /\ exists d,
       card = VDict d
       /\ ((exists u, lookup "image_uris" d = Some u /\ uris = [u])
           \/ (lookup "image_uris" d = None
               /\ exists faces,
                    lookup "card_faces" d = Some (VList faces)
                    /\ Forall2 (fun face u =>
                                  card_getitem face "image_uris" = Ok u)
                               faces uris)).
Proof.
  unfold image_uris.
  destruct (str_in "image_uris" card) as [single|] eqn:Hsingle;
    [|discriminate].
  cbn [bind]. destruct single.
  - destruct (card_getitem card "image_uris") as [u|] eqn:Hu; [|discriminate].
    cbn [bind]. intros [= <-]. split; [discriminate|].
    destruct card as [| | | | |d]; try discriminate.
    exists d. split; [reflexivity|]. left. exists u.
    unfold card_getitem, getitem in Hu.
    destruct (lookup "image_uris" d); [|discriminate].
    injection Hu as ->. auto.
  - destruct (str_in "card_faces" card) as [has_faces|]; [|discriminate].
    cbn [bind]. destruct has_faces; cbn [bind].
    + destruct (card_getitem card "card_faces") as [faces|] eqn:Hfaces;
        [|discriminate].
      cbn [bind].
      destruct (getitem_first faces) as [first|] eqn:Hfirst; [|discriminate].
      cbn [bind].
      destruct (str_in "image_uris" first) as [[|]|] eqn:Hin;
        [| |discriminate]; cbn [bind].
      * destruct card as [| | | | |d]; try discriminate.
        unfold card_getitem at 1, getitem in Hfaces.
        destruct (lookup "card_faces" d) as [v|] eqn:Hlookup; [|discriminate].
        injection Hfaces as ->.
        destruct faces as [| | |s|xs|d']; try discriminate.
        -- (* a string: its first character does not hold the key *)
           destruct s as [|c s]; [discriminate|]. injection Hfirst as <-.
           simpl in Hin. unfold is_substring in Hin. simpl in Hin.
           destruct (Ascii.eqb_spec c "i"); try discriminate;
             destruct s; discriminate || (simpl in Hin; discriminate).
        -- cbn [iterate bind]. intros Hmap.
           destruct xs as [|x xs]; [discriminate|].
           split.
           { apply map_result_length in Hmap. destruct uris; [|discriminate].
             discriminate. }
           exists d. split; [reflexivity|]. right. split.
           { simpl in Hsingle. unfold has_key in Hsingle.
             destruct (lookup "image_uris" d); [discriminate | reflexivity]. }
           exists (x :: xs). split; [exact Hlookup|].
           now apply map_result_Forall2.
      * destruct (card_getitem card "layout"); discriminate.
    + destruct (card_getitem card "layout"); discriminate.
Qed.

End Formatting.

Lemma image_uris_outcome_witness :
  [VDict [("png", VStr "front.png")]; VDict [("png", VStr "back.png")]]
  <> [].
Proof.
  exact (proj1 (image_uris_outcome (H := Samples.ascii_builtins)
                  (VDict MoreSamples.two_faced) _ eq_refl)).
Defined.

End FormatMore.

(* ================================================================== *)
(** * Facts about image files and paginated results *)
(* ================================================================== *)

Module ApiFacts.
Import Scryfall ScryfallApi LineFormat ApiSpec MoreSamples.

Lemma split_nonempty sep s : split sep s <> [].
Proof.
  destruct s as [|c s]; simpl; [discriminate|].
  destruct (Ascii.eqb c sep); [discriminate|].
  destruct (split sep s); discriminate.
Qed.

Lemma split_free sep s : Forall (fun part => free_of sep part = true) (split sep s).
Proof.
  induction s as [|c s IH]; simpl; [repeat constructor|].
  destruct (Ascii.eqb c sep) eqn:E; [now constructor|].
  destruct (split sep s) as [|part parts].
  - repeat constructor. unfold free_of. simpl. now rewrite E.
  - inversion IH; subst. constructor; [|assumption].
    unfold free_of in *. simpl. now rewrite E.
Qed.

Lemma split_of_free sep s : free_of sep s = true -> split sep s = [s].
Proof.
  unfold free_of. induction s as [|c s IH]; simpl; [reflexivity|].
  intros Hs. apply andb_true_iff in Hs. destruct Hs as [Hc Hs].
  apply negb_true_iff in Hc. rewrite Hc, (IH Hs). reflexivity.
Qed.

Lemma split_app sep a rest :
  free_of sep a = true ->
  split sep (a ++ String sep rest) = a :: split sep rest.
Proof.
  unfold free_of. induction a as [|c a IH]; simpl.
  - now rewrite Ascii.eqb_refl.
  - intros Hs. apply andb_true_iff in Hs. destruct Hs as [Hc Hs].
    apply negb_true_iff in Hc. rewrite Hc, (IH Hs). reflexivity.
Qed.

Lemma split_at_sep sep pre rest :
  split sep (pre ++ String sep rest) = split sep pre ++ split sep rest.
Proof.
  induction pre as [|c pre IH]; simpl.
  - now rewrite Ascii.eqb_refl.
  - rewrite IH. destruct (Ascii.eqb c sep); [reflexivity|].
    destruct (split sep pre) as [|p ps] eqn:E; [|reflexivity].
    now apply split_nonempty in E.
Qed.

Lemma list_getitem_neg_app {A} (pre l : list A) k :
  (1 <= k <= List.length l)%nat ->
  list_getitem_neg (pre ++ l) k = list_getitem_neg l k.
Proof.
  intros Hk. unfold list_getitem_neg, list_getitem. rewrite length_app.
  destruct (Nat.leb_spec k (List.length pre + List.length l)); [|lia].
  destruct (Nat.leb_spec k (List.length l)); [|lia].
  rewrite nth_error_app2 by lia.
  replace (List.length pre + List.length l - k - List.length pre)%nat
    with (List.length l - k)%nat by lia.
  reflexivity.
Qed.

Lemma list_getitem_neg_In {A} (l : list A) k x :
  list_getitem_neg l k = Ok x -> In x l.
Proof.
  unfold list_getitem_neg, list_getitem.
  destruct (k <=? List.length l)%nat; [|discriminate].
  destruct (nth_error l (List.length l - k)) eqn:E; [|discriminate].
  intros [= <-]. eapply nth_error_In; eauto.
Qed.

Lemma list_getitem_neg_Ok {A} (l : list A) k :
  (1 <= k <= List.length l)%nat -> exists x, list_getitem_neg l k = Ok x.
Proof.
  intros Hk. unfold list_getitem_neg, list_getitem.
  destruct (Nat.leb_spec k (List.length l)); [|lia].
  destruct (nth_error l (List.length l - k)) eqn:E; [eauto|].
  apply nth_error_None in E. lia.
Qed.

Lemma free_of_app sep a b :
  free_of sep (a ++ b) = free_of sep a && free_of sep b.
Proof.
  unfold free_of. induction a as [|c a IH]; simpl; [reflexivity|].
  now rewrite IH, andb_assoc.
Qed.

Lemma first_of_split_free sep s x :
  list_getitem (split sep s) 0 = Ok x -> forall c, free_of c s = true ->
  free_of c x = true.
Proof.
  unfold list_getitem. revert x. induction s as [|a s IH]; simpl; intros x.
  - now intros [= <-].
  - intros Hx c Hs. unfold free_of in Hs. simpl in Hs.
    apply andb_true_iff in Hs. destruct Hs as [Ha Hs].
    destruct (Ascii.eqb a sep).
    + simpl in Hx. now injection Hx as <-.
    + destruct (split sep s) as [|p ps] eqn:E.
      * simpl in Hx. injection Hx as <-. unfold free_of. simpl.
        now rewrite Ha.
      * simpl in Hx. injection Hx as <-. unfold free_of. simpl.
        rewrite Ha. simpl. apply (IH p eq_refl c Hs).
Qed.

Section Images.
Context `{FileCache}.

(** X18.  get_image raises IndexError for a URI with fewer than four
    slashes, before the cache is asked; otherwise it asks the cache for a
    file name that contains no slash. *)
Theorem get_image_file_name (image_uri : string) :
  ((List.length (split "/" image_uri) < 5)%nat ->
   get_image image_uri = Raise IndexError)
  /\ ((5 <= List.length (split "/" image_uri))%nat ->
      exists file_name,
        image_file_name image_uri = Ok file_name
        /\ get_image image_uri = get_file file_name image_uri
        /\ free_of "/" file_name = true).
Proof.
  unfold get_image, image_file_name. split.
  - intros Hlen. unfold list_getitem_neg at 1.
    destruct (Nat.leb_spec 5 (List.length (split "/" image_uri))); [lia|].
    reflexivity.
  - intros Hlen.
    destruct (list_getitem_neg_Ok (split "/" image_uri) 5 ltac:(lia))
      as [size Hsize].
    destruct (list_getitem_neg_Ok (split "/" image_uri) 4 ltac:(lia))
      as [face Hface].
    destruct (list_getitem_neg_Ok (split "/" image_uri) 1 ltac:(lia))
      as [last Hlast].
    rewrite Hsize, Hface, Hlast. cbn [bind].
    destruct (list_getitem (split "?" last) 0) as [file|] eqn:Hfile.
    2:{ unfold list_getitem in Hfile.
        destruct (split "?" last) eqn:E; [now apply split_nonempty in E|].
        discriminate. }
    cbn [bind]. eexists. split; [reflexivity|]. split; [reflexivity|].
    pose proof (split_free "/" image_uri) as Hfree.
    rewrite Forall_forall in Hfree.
    rewrite !free_of_app.
    rewrite (Hfree _ (list_getitem_neg_In _ _ _ Hsize)).
    rewrite (Hfree _ (list_getitem_neg_In _ _ _ Hface)).
    rewrite (first_of_split_free _ _ _ Hfile "/"
               (Hfree _ (list_getitem_neg_In _ _ _ Hlast))).
    reflexivity.
Qed.

(** X19.  For a URI that ends in size/face/dir/dir/file, with or without a
    query after a question mark, the cached file is named size_face_file:
    the two directory levels and the query are dropped. *)
Theorem image_file_name_of_uri (prefix size face dir1 dir2 file query : string) :
  free_of "/" size = true -> free_of "/" face = true ->
  free_of "/" dir1 = true -> free_of "/" dir2 = true ->
  free_of "/" file = true -> free_of "?" file = true ->
  free_of "/" query = true ->
  image_file_name (prefix ++ "/" ++ size ++ "/" ++ face ++ "/" ++ dir1
                   ++ "/" ++ dir2 ++ "/" ++ file ++ "?" ++ query)
  = Ok (size ++ "_" ++ face ++ "_" ++ file)%string
  /\ image_file_name (prefix ++ "/" ++ size ++ "/" ++ face ++ "/" ++ dir1
                      ++ "/" ++ dir2 ++ "/" ++ file)
     = Ok (size ++ "_" ++ face ++ "_" ++ file)%string.
Proof.
  intros Hsize Hface Hdir1 Hdir2 Hfile Hfileq Hquery.
  assert (Hname : forall last,
    free_of "/" last = true ->
    list_getitem (split "?" last) 0 = Ok file ->
    image_file_name (prefix ++ "/" ++ size ++ "/" ++ face ++ "/" ++ dir1
                     ++ "/" ++ dir2 ++ "/" ++ last)
    = Ok (size ++ "_" ++ face ++ "_" ++ file)%string).
  { intros last Hlast Hsplit. unfold image_file_name.
    change ("/" ++ size ++ "/" ++ face ++ "/" ++ dir1 ++ "/" ++ dir2
            ++ "/" ++ last)%string
      with (String "/" (size ++ String "/" (face ++ String "/" (dir1
              ++ String "/" (dir2 ++ String "/" last))))).
    rewrite split_at_sep, !split_app, (split_of_free _ _ Hlast)
      by assumption.
    rewrite !list_getitem_neg_app by (simpl; lia).
    cbn [list_getitem_neg List.length Nat.leb Nat.sub list_getitem
         nth_error bind].
    rewrite Hsplit. reflexivity. }
  split.
  - apply Hname.
    + rewrite free_of_app, Hfile. simpl. exact Hquery.
    + change (file ++ "?" ++ query)%string
        with (file ++ String "?" query)%string.
      now rewrite split_app.
  - apply Hname; [exact Hfile|]. now rewrite split_of_free.
Qed.

End Images.

Section Pagination.
Context `{Http}.

Lemma pages_urls url urls data :
  pages url urls data -> exists rest, urls = url :: rest.
Proof. destruct 1; eauto. Qed.

(** X20.  For a finite chain of result pages, depaginate requests each
    page once, in order, and returns the concatenation of their data
    lists, provided the chain is not longer than the recursion depth
    allows. *)
Theorem depaginate_concatenates (url : value) (urls data : list value)
    (depth : nat) :
  pages url urls data ->
  (List.length urls <= depth)%nat ->
  depaginate depth url = (urls, Return (VList data)).
Proof.
  intros Hpages. revert depth.
  induction Hpages as
    [url d object data has_more Hget Hobject Htruthy Hdata Hmore Hlast
    |url d object Hget Hobject Htruthy Hdata
    |url d object data has_more next_page urls rest Hget Hobject Htruthy
       Hdata Hmore Hcontinue Hnext _ IH];
    intros [|depth] Hdepth; simpl in Hdepth; try lia;
    cbn [depaginate]; rewrite Hget; cbn [subscript str_in];
    unfold getitem, has_key; rewrite Hobject, Htruthy; cbn [negb];
    rewrite Hdata.
  - now rewrite Hmore, Hlast.
  - reflexivity.
  - rewrite Hmore, Hcontinue, Hnext, (IH depth) by lia. reflexivity.
Qed.

(** X21.  When a request fails, or a response has a false object field, on
    some page of the chain, depaginate fails with that failure and the
    data of the pages before it is lost. *)
Theorem depaginate_failure (url : value) (urls : list value) (f : failure)
    (depth : nat) :
  broken url urls f ->
  (List.length urls <= depth)%nat ->
  depaginate depth url = (urls, Failure f).
Proof.
  intros Hbroken. revert depth.
  induction Hbroken as
    [url f Hget
    |url d object Hget Hobject Htruthy
    |url d object data has_more next_page urls f Hget Hobject Htruthy
       Hdata Hmore Hcontinue Hnext _ IH];
    intros [|depth] Hdepth; simpl in Hdepth; try lia;
    cbn [depaginate]; rewrite Hget; [reflexivity| |];
    cbn [subscript str_in]; unfold getitem, has_key;
    rewrite Hobject, Htruthy; cbn [negb]; [reflexivity|].
  rewrite Hdata, Hmore, Hcontinue, Hnext, (IH depth) by lia. reflexivity.
Qed.

End Pagination.

Lemma image_file_name_of_uri_witness :
  image_file_name
    "https://cards.scryfall.io/large/front/a/b/abc.jpg?1562"
  = Ok "large_front_abc.jpg".
Proof.
  exact (proj1 (image_file_name_of_uri "https://cards.scryfall.io" "large"
                  "front" "a" "b" "abc.jpg" "1562"
                  eq_refl eq_refl eq_refl eq_refl eq_refl eq_refl eq_refl)).
Defined.

Lemma depaginate_concatenates_witness :
  depaginate (H := sample_http) 5 (VStr page_1)
  = ([VStr page_1; VStr page_2],
     Return (VList [VDict Samples.crypt_rtr; VDict Samples.crypt_promo;
                    VDict Samples.crypt_rna])).
Proof.
  apply (depaginate_concatenates (H := sample_http) (VStr page_1)
           [VStr page_1; VStr page_2]
           ([VDict Samples.crypt_rtr; VDict Samples.crypt_promo]
            ++ [VDict Samples.crypt_rna]) 5).
  - eapply (pages_more (H := sample_http)); try reflexivity.
    eapply (pages_last (H := sample_http)); reflexivity.
  - simpl. lia.
Defined.

Lemma depaginate_failure_witness :
  depaginate (H := failing_http) 5 (VStr page_1)
  = ([VStr page_1; VStr page_2], Failure (RequestError "503")).
Proof.
  apply (depaginate_failure (H := failing_http)).
  - eapply (broken_later (H := failing_http)); try reflexivity.
    apply (broken_request (H := failing_http)). reflexivity.
  - simpl. lia.
Defined.

End ApiFacts.

(* ================================================================== *)
(** * Formatting and parsing back *)
(* ================================================================== *)

Module RoundTrip.
Import Regex LineFormat Decklist RegexFacts StringSpec StringFacts PriorityFacts.
Import IntText RoundTripSpec DecklistSpec ListFacts DecklistFacts MoreSamples.

Lemma rep_greedy_one {R} cls (k : string -> option R) r c s' :
  cls c = true -> starts_outside cls s' -> k s' = Some r ->
  rep_greedy cls 1 (String c s') k = Some r.
Proof.
  intros Hc Hs Hk.
  apply (rep_greedy_run cls k r (String c "") 1 s'); auto.
  simpl. now rewrite Hc.
Qed.

Lemma starts_outside_word_space s :
  all_chars is_space s = true -> starts_outside is_nonspace s.
Proof.
  destruct s as [|c s]; simpl; [trivial|]. intros Hs.
  apply andb_true_iff in Hs. destruct Hs as [Hc _].
  unfold is_nonspace. now rewrite Hc.
Qed.

Lemma starts_outside_space_word s :
  s <> "" -> all_chars is_nonspace s = true -> starts_outside is_space s.
Proof.
  destruct s as [|c s]; simpl; [congruence|]. intros _ Hs.
  apply andb_true_iff in Hs. destruct Hs as [Hc _].
  unfold is_nonspace in Hc. now apply negb_true_iff in Hc.
Qed.

Lemma starts_outside_app cls a b :
  a <> "" -> starts_outside cls a -> starts_outside cls (a ++ b).
Proof. destruct a; simpl; [congruence | auto]. Qed.

Lemma line_end_run trail g :
  all_chars is_space trail = true -> run line_end trail g final = Some g.
Proof.
  intros Htrail. unfold line_end. cbn [run].
  rewrite <- (string_app_nil_r trail).
  apply rep_greedy_run; [exact Htrail | simpl; lia | exact I | reflexivity].
Qed.

Lemma set_suffix_run set_id number trail g :
  word set_id -> word number -> number <> "" ->
  all_chars is_space trail = true ->
  run set_suffix
      (String " " (String "(" (set_id ++ String ")" (String " "
         (number ++ trail)))))
      g (fun s' g' => run line_end s' g' final)
  = Some ((4%nat, number) :: (3%nat, set_id) :: g).
Proof.
  intros Hset Hnumber Hne Htrail. unfold set_suffix, seq_of.
  cbn [fold_right run].
  apply rep_greedy_one; [reflexivity | reflexivity |].
  cbn [Ascii.eqb Bool.eqb]. 
  apply rep_greedy_longest; [exact Hset | lia | |].
  - rewrite consumed_app. cbn [Ascii.eqb Bool.eqb].
    apply rep_greedy_one; [reflexivity | |].
    + apply starts_outside_app; [exact Hne|].
      now apply starts_outside_space_word.
    + apply rep_greedy_run; [exact Hnumber | | |].
      * destruct number; [congruence | simpl; lia].
      * now apply starts_outside_word_space.
      * rewrite consumed_app. now apply line_end_run.
  - intros q s'' Hq Hall E.
    destruct q as [|c q]; [congruence|]. simpl in E. injection E as <- E.
    destruct q as [|c' q].
    + simpl in E. subst s''. reflexivity.
    + simpl in E. injection E as <- _. simpl in Hall. discriminate.
Qed.

Lemma at_end_space e : at_end e = true -> all_chars is_space e = true.
Proof.
  destruct e as [|c [|c' e]]; simpl; try discriminate; [reflexivity|].
  intros H. apply Ascii.eqb_eq in H. subst c. reflexivity.
Qed.

(** What is left of a line after the name: white space only, or a set in
    parentheses and a collector number between runs of white space. *)
Lemma tail_pattern_shape t g res :
  run tail_pattern t g final = Some res ->
  all_chars is_space t = true
  \/ exists w1 a w2 b w3,
       t = (w1 ++ String "(" (a ++ String ")" (w2 ++ b ++ w3)))%string
       /\ w1 <> "" /\ all_chars is_space w1 = true
       /\ all_chars is_nonspace a = true
       /\ w2 <> "" /\ all_chars is_space w2 = true
       /\ b <> "" /\ all_chars is_nonspace b = true
       /\ all_chars is_space w3 = true.
Proof.
  intros H. apply run_sound in H. destruct H as (s' & g' & Hm & _).
  unfold tail_pattern, line_end, set_suffix, seq_of in Hm.
  cbn [fold_right] in Hm.
  invert Hm.
  match goal with H : matches (Opt _) _ _ _ _ |- _ => invert H end;
    repeat invert_match.
  - right.
    match goal with
    | |- context [(?w1 ++ String _ (?a ++ String _ (?w2 ++ ?b ++ ?w3 ++ ?e)))%string] =>
        exists w1, a, w2, b, (w3 ++ e)%string
    end.
    repeat split; try assumption.
    + intros ->. simpl in *. lia.
    + intros ->. simpl in *. lia.
    + intros ->. simpl in *. lia.
    + rewrite StringFacts.all_chars_app, andb_true_iff. split; [assumption|].
      now apply at_end_space.
  - left. rewrite StringFacts.all_chars_app, andb_true_iff.
    split; [assumption | now apply at_end_space].
Qed.


Lemma ends_outside_app cls cls' a b :
  (forall c, cls' c = true -> cls c = false) ->
  b <> "" -> all_chars cls' b = true -> ends_outside cls (a ++ b).
Proof.
  intros Hcls Hb Hall. unfold ends_outside.
  rewrite last_char_app by exact Hb.
  destruct (last_char_Some b Hb) as [c Hc]. rewrite Hc.
  apply Hcls. eapply all_chars_last; eassumption.
Qed.

Lemma word_not_space c : is_nonspace c = true -> is_space c = false.
Proof. unfold is_nonspace. now rewrite negb_true_iff. Qed.

Lemma space_not_word c : is_space c = true -> is_nonspace c = false.
Proof. unfold is_nonspace. now intros ->. Qed.

Ltac regroup :=
  rewrite ?string_app_assoc; cbn [append];
  rewrite ?string_app_assoc; cbn [append].

Lemma not_all_space p2 rest c :
  last_char p2 = Some c -> is_space c = false ->
  all_chars is_space (p2 ++ rest) = true -> False.
Proof.
  intros Hlast Hc Hall. rewrite StringFacts.all_chars_app in Hall.
  apply andb_true_iff in Hall. destruct Hall as [Hall _].
  rewrite (all_chars_last _ _ _ Hall Hlast) in Hc. discriminate.
Qed.

(** After a shorter name the rest of an arena line does not match. *)
Lemma arena_tail_no_shorter p2 set_id number trail g c :
  last_char p2 = Some c -> is_space c = false ->
  word set_id -> word number -> number <> "" ->
  all_chars is_space trail = true ->
  run tail_pattern
      (p2 ++ String " " (String "(" (set_id ++ String ")" (String " "
         (number ++ trail)))))
      g final = None.
Proof.
  intros Hlast Hc Hset Hnumber Hne Htrail.
  destruct (run tail_pattern _ g final) as [res|] eqn:E; [|reflexivity].
  exfalso. apply tail_pattern_shape in E.
  destruct E as [Hall | (w1 & a & w2 & b & w3 & Heq & Hw1 & Hw1s & Ha
                         & Hw2 & Hw2s & Hb & Hbs & Hw3)].
  { eapply not_all_space; eassumption. }
  assert (H1 : (((p2 ++ String " " (String "(" (set_id ++ String ")"
                    (String " " "")))) ++ number) ++ trail
                = ((w1 ++ String "(" (a ++ String ")" w2)) ++ b) ++ w3)%string).
  { regroup. exact Heq. }
  apply (rsplit_unique is_space) in H1; try assumption;
    try (apply (ends_outside_app is_space is_nonspace);
         [exact word_not_space | assumption | assumption]).
  destruct H1 as [H2 _].
  apply (rsplit_unique is_nonspace) in H2; try assumption.
  2:{ assert (E : (p2 ++ String " " (String "(" (set_id ++ String ")"
                        (String " " "")))
                   = (p2 ++ String " " (String "(" (set_id ++ String ")" "")))
                     ++ String " " "")%string)
        by (regroup; reflexivity).
      rewrite E.
      apply (ends_outside_app is_nonspace is_space);
        [exact space_not_word | discriminate | reflexivity]. }
  2:{ assert (E : (w1 ++ String "(" (a ++ String ")" w2)
                   = (w1 ++ String "(" (a ++ String ")" "")) ++ w2)%string)
        by (regroup; reflexivity).
      rewrite E.
      apply (ends_outside_app is_nonspace is_space);
        [exact space_not_word | assumption | assumption]. }
  destruct H2 as [H3 _].
  assert (H4 : (((p2 ++ String " " "") ++ String "(" (set_id ++ String ")" ""))
                  ++ String " " ""
                = (w1 ++ String "(" (a ++ String ")" "")) ++ w2)%string).
  { regroup. exact H3. }
  apply (rsplit_unique is_space) in H4; try assumption; try reflexivity.
  2:{ apply (ends_outside_app is_space is_nonspace);
        [exact word_not_space | discriminate |].
      simpl. rewrite StringFacts.all_chars_app, Hset. reflexivity. }
  2:{       apply (ends_outside_app is_space is_nonspace);
        [exact word_not_space | discriminate |].
      simpl. rewrite StringFacts.all_chars_app, Ha. reflexivity. }
  destruct H4 as [H5 _].
  apply (rsplit_unique is_nonspace) in H5.
  - destruct H5 as [H6 _]. rewrite <- H6 in Hw1s.
    eapply not_all_space; eassumption.
  - simpl. rewrite StringFacts.all_chars_app, Hset. reflexivity.
  - simpl. rewrite StringFacts.all_chars_app, Ha. reflexivity.
  - apply (ends_outside_app is_nonspace is_space);
      [exact space_not_word | discriminate | reflexivity].
  - change w1 with ("" ++ w1)%string.
    apply (ends_outside_app is_nonspace is_space);
      [exact space_not_word | assumption | assumption].
Qed.


Lemma all_chars_weaken (p q : ascii -> bool) s :
  (forall c, p c = true -> q c = true) ->
  all_chars p s = true -> all_chars q s = true.
Proof.
  intros Hpq. induction s as [|c s IH]; simpl; [reflexivity|].
  rewrite !andb_true_iff. intros [Hc Hs]. auto.
Qed.

Lemma space_no_paren c : is_space c = true -> no_paren c = true.
Proof.
  unfold no_paren. destruct (Ascii.eqb_spec c "("); [subst c|reflexivity].
  discriminate.
Qed.

(** After a shorter name the rest of a text line does not match. *)
Lemma text_tail_no_shorter p2 trail g c :
  last_char p2 = Some c -> is_space c = false ->
  all_chars no_paren p2 = true ->
  all_chars is_space trail = true ->
  run tail_pattern (p2 ++ trail) g final = None.
Proof.
  intros Hlast Hc Hp2 Htrail.
  destruct (run tail_pattern _ g final) as [res|] eqn:E; [|reflexivity].
  exfalso. apply tail_pattern_shape in E.
  destruct E as [Hall | (w1 & a & w2 & b & w3 & Heq & _)].
  { eapply not_all_space; eassumption. }
  assert (H : all_chars no_paren (p2 ++ trail) = true).
  { rewrite StringFacts.all_chars_app, Hp2.
    now rewrite (all_chars_weaken is_space no_paren trail space_no_paren). }
  rewrite Heq, StringFacts.all_chars_app in H. simpl in H.
  rewrite andb_false_r in H. discriminate.
Qed.

(** White space alone has no set and collector number. *)
Lemma tail_pattern_space trail g :
  all_chars is_space trail = true ->
  run tail_pattern trail g final = Some g.
Proof.
  intros Htrail. unfold tail_pattern. cbn [run].
  destruct (run set_suffix trail g _) as [res|] eqn:E.
  - exfalso. apply run_sound in E. destruct E as (s' & g' & Hm & _).
    unfold set_suffix, seq_of in Hm. cbn [fold_right] in Hm.
    repeat invert_match.
    rewrite StringFacts.all_chars_app in Htrail. simpl in Htrail.
    rewrite andb_false_r in Htrail. discriminate.
  - simpl. now apply line_end_run.
Qed.

Lemma line_pattern_unfold :
  line_pattern
  = Seq (Group 1 (Rep true 1 is_digit))
        (Seq (Rep true 1 is_space)
             (Seq (Group 2 (Rep false 1 is_dot)) tail_pattern)).
Proof. reflexivity. Qed.

Lemma suffix_last (name p1 p2 : string) c :
  name = (p1 ++ p2)%string -> p2 <> "" -> last_char name = Some c ->
  last_char p2 = Some c.
Proof. intros -> Hp2. now rewrite last_char_app. Qed.

Lemma first_char_starts cls name rest c :
  first_char name = Some c -> cls c = false ->
  starts_outside cls (name ++ rest).
Proof. destruct name; simpl; [discriminate|]. now intros [= ->]. Qed.

Lemma digit_not_space_start rest : starts_outside is_digit (String " " rest).
Proof. reflexivity. Qed.

(** The head of a line: the count, one space and the name, whatever
    follows the name, as long as no shorter name will do. *)
Lemma head_run d name rest res :
  d <> "" -> all_chars is_digit d = true -> plain_name name ->
  run tail_pattern rest [(2%nat, name); (1%nat, d)] final = Some res ->
  (forall p1 p2 g, name = (p1 ++ p2)%string -> p2 <> "" ->
     run tail_pattern (p2 ++ rest) g final = None) ->
  search line_pattern (d ++ String " " (name ++ rest)) = Some res.
Proof.
  intros Hd Hdigits (Hdot & (c1 & Hfirst & Hc1) & (c2 & Hlast & Hc2))
         Hrest Hshorter.
  assert (Hhere : match_here line_pattern (d ++ String " " (name ++ rest))
                  = Some res).
  { unfold match_here. rewrite line_pattern_unfold. cbn [run].
    apply rep_greedy_run; [exact Hdigits | | reflexivity |].
    { destruct d; [congruence | simpl; lia]. }
    rewrite consumed_app.
    apply rep_greedy_one;
      [reflexivity | eapply first_char_starts; eassumption |].
    apply rep_lazy_shortest; [exact Hdot | | |].
    - destruct name; [discriminate | simpl; lia].
    - rewrite consumed_app. exact Hrest.
    - intros p1 p2 Hname Hp2 _. now apply (Hshorter p1). }
  destruct d as [|c d]; [congruence|].
  cbn [append search]. cbn [append] in Hhere. now rewrite Hhere.
Qed.

(** The groups of a line in the arena format. *)
Lemma search_arena_line d name set_id number trail :
  d <> "" -> all_chars is_digit d = true -> plain_name name ->
  word set_id -> word number -> number <> "" ->
  all_chars is_space trail = true ->
  search line_pattern
         (d ++ " " ++ name ++ " (" ++ set_id ++ ") " ++ number ++ trail)
  = Some [(4%nat, number); (3%nat, set_id); (2%nat, name); (1%nat, d)].
Proof.
  intros Hd Hdigits Hname Hset Hnumber Hne Htrail. cbn [append].
  apply head_run; try assumption.
  - unfold tail_pattern. cbn [run].
    rewrite set_suffix_run by assumption. reflexivity.
  - intros p1 p2 g Hsplit Hp2.
    destruct Hname as (_ & _ & (c & Hlast & Hc)).
    eapply arena_tail_no_shorter; try eassumption.
    eapply suffix_last; eassumption.
Qed.

(** The groups of a line in the text format. *)
Lemma search_text_line d name trail :
  d <> "" -> all_chars is_digit d = true -> plain_name name ->
  all_chars no_paren name = true ->
  all_chars is_space trail = true ->
  search line_pattern (d ++ " " ++ name ++ trail)
  = Some [(2%nat, name); (1%nat, d)].
Proof.
  intros Hd Hdigits Hname Hparen Htrail. cbn [append].
  apply head_run; try assumption.
  - now apply tail_pattern_space.
  - intros p1 p2 g Hsplit Hp2.
    destruct Hname as (_ & _ & (c & Hlast & Hc)).
    eapply text_tail_no_shorter; try eassumption.
    + eapply suffix_last; eassumption.
    + rewrite Hsplit, StringFacts.all_chars_app in Hparen.
      apply andb_true_iff in Hparen. tauto.
Qed.


Lemma group_skip k rest g :
  (forall n s, In (n, s) rest -> n <> k) ->
  group k (rest ++ g) = group k g.
Proof.
  induction rest as [|[n s] rest IH]; intros Hrest; [reflexivity|].
  simpl. destruct (Nat.eqb_spec k n) as [->|_].
  - now destruct (Hrest n s (or_introl eq_refl)).
  - apply IH. intros n' s' Hin. apply (Hrest n' s'). now right.
Qed.

Section Lines.
Context `{Builtins} `{Sanitizing}.

Lemma parse_line_groups st line d name rest :
  search line_pattern line = Some (rest ++ [(2%nat, name); (1%nat, d)]) ->
  (forall n s, In (n, s) rest -> n <> 1%nat /\ n <> 2%nat) ->
  parse_line st line
  = enter_card st line (int d) name (group 3 (rest ++ [(2%nat, name); (1%nat, d)]))
               (group 4 (rest ++ [(2%nat, name); (1%nat, d)])).
Proof.
  intros Hsearch Hrest. unfold parse_line, enter_card. rewrite Hsearch.
  rewrite (group_skip 1), (group_skip 2)
    by (intros n s Hin; now apply Hrest in Hin).
  reflexivity.
Qed.

Lemma arena_line_search count card name set_id number trail :
  0 <= count ->
  card_getitem card "name" = Ok (VStr name) ->
  card_getitem card "set" = Ok (VStr set_id) ->
  card_getitem card "collector_number" = Ok (VStr number) ->
  plain_name name -> word (str_upper set_id) ->
  word number -> number <> "" ->
  all_chars is_space trail = true ->
  exists line d,
    Card_format count card "arena" = Ok line
    /\ int d = count
    /\ search line_pattern (line ++ trail)
       = Some ([(4%nat, number); (3%nat, str_upper set_id)]
               ++ [(2%nat, name); (1%nat, d)]).
Proof.
  intros Hcount Hname Hset Hnumber Hplain Hword Hnum Hne Htrail.
  destruct (str_of_int_digits count Hcount) as (Hdigits & Hd & Hint).
  unfold Card_format. cbn [String.eqb Ascii.eqb Bool.eqb].
  rewrite Hname, Hset, Hnumber. cbn [bind upper str_of_value].
  eexists. exists (str_of_int count).
  split; [reflexivity|]. split; [exact Hint|].
  cbn [app].
  rewrite <- (search_arena_line (str_of_int count) name (str_upper set_id)
                number trail Hd Hdigits Hplain Hword Hnum Hne Htrail).
  f_equal. regroup. reflexivity.
Qed.

Lemma text_line_search count card name trail :
  0 <= count ->
  card_getitem card "name" = Ok (VStr name) ->
  plain_name name -> all_chars no_paren name = true ->
  all_chars is_space trail = true ->
  exists line d,
    Card_format count card "text" = Ok line
    /\ int d = count
    /\ search line_pattern (line ++ trail)
       = Some ([] ++ [(2%nat, name); (1%nat, d)]).
Proof.
  intros Hcount Hname Hplain Hparen Htrail.
  destruct (str_of_int_digits count Hcount) as (Hdigits & Hd & Hint).
  unfold Card_format. cbn [String.eqb Ascii.eqb Bool.eqb].
  rewrite Hname. cbn [bind str_of_value].
  eexists. exists (str_of_int count).
  split; [reflexivity|]. split; [exact Hint|].
  cbn [app].
  rewrite <- (search_text_line (str_of_int count) name trail Hd Hdigits
                Hplain Hparen Htrail).
  f_equal. regroup. reflexivity.
Qed.

(** X22.  Reading back a line in the arena format: for a count that is not
    negative, a one-line name that neither starts nor ends with white
    space, and a set and a collector number without white space, the
    parser finds in the formatted line, followed by any white space,
    exactly the count, the name, the upper-cased set and the collector
    number, and hands them to the sanitizer. *)
Theorem arena_line_round_trip st count card name set_id number trail :
  0 <= count ->
  card_getitem card "name" = Ok (VStr name) ->
  card_getitem card "set" = Ok (VStr set_id) ->
  card_getitem card "collector_number" = Ok (VStr number) ->
  plain_name name -> word (str_upper set_id) ->
  word number -> number <> "" ->
  all_chars is_space trail = true ->
  exists line,
    Card_format count card "arena" = Ok line
    /\ parse_line st (line ++ trail)
       = enter_card st (line ++ trail) count name
                    (Some (str_upper set_id)) (Some number).
Proof.
  intros Hcount Hname Hset Hnumber Hplain Hword Hnum Hne Htrail.
  destruct (arena_line_search count card name set_id number trail)
    as (line & d & Hline & Hint & Hsearch); try assumption.
  exists line. split; [exact Hline|].
  rewrite (parse_line_groups st _ _ _ _ Hsearch), Hint; [reflexivity|].
  simpl. intros n s [[= <- <-]|[[= <- <-]|[]]]; split; discriminate.
Qed.

(** X23.  Reading back a line in the text format: for a count that is not
    negative and a one-line name without an opening parenthesis that
    neither starts nor ends with white space, the parser finds in the
    formatted line exactly the count and the name, with no set and no
    collector number. *)
Theorem text_line_round_trip st count card name trail :
  0 <= count ->
  card_getitem card "name" = Ok (VStr name) ->
  plain_name name -> all_chars no_paren name = true ->
  all_chars is_space trail = true ->
  exists line,
    Card_format count card "text" = Ok line
    /\ parse_line st (line ++ trail)
       = enter_card st (line ++ trail) count name None None.
Proof.
  intros Hcount Hname Hplain Hparen Htrail.
  destruct (text_line_search count card name trail)
    as (line & d & Hline & Hint & Hsearch); try assumption.
  exists line. split; [exact Hline|].
  rewrite (parse_line_groups st _ _ _ _ Hsearch), Hint; [reflexivity|].
  intros n s [].
Qed.

Lemma restored_line trail e :
  all_chars is_space trail = true -> restored trail e ->
  exists line,
    format e "arena" = Ok line
    /\ line_entry (line ++ trail) = e
    /\ line_ok (line ++ trail) = true.
Proof.
  intros Htrail. destruct e as [count card|text]; simpl.
  - intros (Hcount & name & set_id & number & name' & Hname & Hset & Hnumber
            & Hplain & Hword & Hnum & Hne & Hvalid & Hprint).
    destruct (arena_line_search count card name set_id number trail)
      as (line & d & Hline & Hint & Hsearch); try assumption.
    exists line. split; [exact Hline|].
    unfold line_entry, line_ok. rewrite Hsearch. cbn [app group Nat.eqb].
    rewrite Hvalid, Hint, Hprint. auto.
  - intros [Hsearch Hstrip]. exists text. split; [reflexivity|].
    unfold line_entry, line_ok. rewrite Hsearch, Hstrip. auto.
Qed.

(** X24.  Parsing the lines of a decklist formatted for arena restores the
    decklist and returns the flag True, when the sanitizer resolves each
    card to its own record and each comment is a stripped line that is not
    a card line. *)
Theorem arena_decklist_round_trip (self : Decklist) (trail : string) :
  all_chars is_space trail = true ->
  Forall (restored trail) (entries self) ->
  exists lines,
    Decklist_format self "arena" = Ok (join linesep lines)
    /\ parse_decklist_stream (map (fun line => (line ++ trail)%string) lines)
       = (self, true).
Proof.
  intros Htrail Hall. destruct self as [es]. cbn [entries] in Hall.
  assert (Hlines : exists lines,
            map_result (fun e => format e "arena") es = Ok lines
            /\ map line_entry
                   (map (fun line => (line ++ trail)%string) lines) = es
            /\ forallb line_ok
                   (map (fun line => (line ++ trail)%string) lines) = true).
  { induction Hall as [|e es He _ IH].
    - exists []. auto.
    - destruct IH as (lines & Hmap & Hentries & Hok).
      destruct (restored_line trail e Htrail He)
        as (line & Hline & Hentry & Hlok).
      exists (line :: lines). cbn [map_result map forallb].
      rewrite Hline, Hmap, Hentry, Hentries, Hlok, Hok. auto. }
  destruct Hlines as (lines & Hmap & Hentries & Hok).
  exists lines. unfold Decklist_format. cbn [entries]. rewrite Hmap.
  split; [reflexivity|].
  destruct (parse_decklist_stream_spec
              (map (fun line => (line ++ trail)%string) lines))
    as [Hes Hflag].
  rewrite Hentries in Hes. rewrite Hok in Hflag.
  destruct (parse_decklist_stream _) as [[es'] flag].
  cbn [fst snd entries] in Hes, Hflag. now subst.
Qed.

End Lines.

Lemma arena_line_round_trip_witness :
  exists line,
    Card_format (H := Samples.ascii_builtins) 4 (VDict Samples.crypt_rna)
                "arena" = Ok line
    /\ parse_line (H := Samples.sample_sanitizing) start
                  (line ++ end_of_line)
       = enter_card (H := Samples.sample_sanitizing) start
                    (line ++ end_of_line) 4 "Blood Crypt"
                    (Some "RNA") (Some "245").
Proof.
  apply (arena_line_round_trip (H := Samples.ascii_builtins)
           (H0 := Samples.sample_sanitizing) start 4
           (VDict Samples.crypt_rna) "Blood Crypt" "rna" "245" end_of_line).
  - lia.
  - reflexivity.
  - reflexivity.
  - reflexivity.
  - split; [reflexivity|].
    split; eexists; split; reflexivity.
  - reflexivity.
  - reflexivity.
  - discriminate.
  - reflexivity.
Defined.

Lemma text_line_round_trip_witness :
  exists line,
    Card_format (H := Samples.ascii_builtins) 1 (VDict Samples.forest)
                "text" = Ok line
    /\ parse_line (H := Samples.sample_sanitizing) start
                  (line ++ end_of_line)
       = enter_card (H := Samples.sample_sanitizing) start
                    (line ++ end_of_line) 1 "Forest" None None.
Proof.
  apply (text_line_round_trip (H := Samples.ascii_builtins)
           (H0 := Samples.sample_sanitizing) start 1
           (VDict Samples.forest) "Forest" end_of_line).
  - lia.
  - reflexivity.
  - split; [reflexivity|].
    split; eexists; split; reflexivity.
  - reflexivity.
  - reflexivity.
Defined.

Lemma arena_decklist_round_trip_witness :
  exists lines,
    Decklist_format (H := Samples.ascii_builtins) sample_decklist "arena"
    = Ok (join (linesep (Builtins := Samples.ascii_builtins)) lines)
    /\ parse_decklist_stream (H := Samples.sample_sanitizing)
         (map (fun line => (line ++ end_of_line)%string) lines)
       = (sample_decklist, true).
Proof.
  apply (arena_decklist_round_trip (H := Samples.ascii_builtins)
           (H0 := Samples.sample_sanitizing) sample_decklist end_of_line).
  - reflexivity.
  - repeat constructor.
    + lia.
    + exists "Blood Crypt", "rna", "245", "Blood Crypt".
      repeat (split; [reflexivity|]).
      split; [split; [reflexivity | split; eexists; split; reflexivity]|].
      repeat (split; [reflexivity|]).
      split; [discriminate|]. split; reflexivity.
    + lia.
    + exists "Forest", "m21", "313", "Forest".
      repeat (split; [reflexivity|]).
      split; [split; [reflexivity | split; eexists; split; reflexivity]|].
      repeat (split; [reflexivity|]).
      split; [discriminate|]. split; reflexivity.
Defined.

End RoundTrip.
